(** * ws-multiplexer: a shallow embedding of the multiplexing engine

    The development follows the three TypeScript sources of the repository:
    [socket.ts] (AbstractMultiplexSocket and the Multiplexer base class),
    [client.ts] (the pooled MultiplexerClient and the client MultiplexSocket)
    and [server.ts] (MultiplexerServer).

    Conventions of the embedding.
    - Objects live in stores indexed by natural numbers: sockets, logical
      streams and multiplexers are references into lists of the [World].
    - Calls into the environment are recorded in a trace of [Effect]s:
      [socket.send], [new WebSocket], the delivery of an event to the
      listeners of a logical stream, the invocation of a backend and
      [console.error].  Application listeners and backends are observers:
      they do not call back into the multiplexer while they run.
    - A JavaScript object used as a map is the list of its own properties,
      kept in the order [Object.values] enumerates them, below its
      prototype, which is Object.prototype: a key that is no own property
      reads as the member of Object.prototype of that name, if there is
      one.  The members of Object.prototype are values like streams: the
      program can read them from a map and store them in the registry.
      Assigning the key [__proto__] replaces the prototype of the registry.
      What the embedding does not follow: the properties that the program
      writes onto a member of Object.prototype (they are recorded in the
      trace and not read back), and the properties of an object that has
      become the prototype of the registry (such a prototype answers for
      [__proto__] and for the members of Object.prototype only).
    - [Math.random] is an oracle: the world carries, for every call of
      [randomId], the text of the number that is drawn, of which
      [randomId] keeps five characters.
    - JavaScript exceptions are results of an error monad over the world. *)

From stdpp Require Import gmap strings list fin_maps.
From Stdlib Require Import ZArith NArith Ascii.

Local Open Scope string_scope.
Local Open Scope list_scope.

(** ** JavaScript objects used as maps *)

Module JsObject.

(** A decimal digit, as a number. *)
Definition digit (c : ascii) : option N :=
  let n := N_of_ascii c in
  if ((48 <=? n) && (n <=? 57))%N then Some (n - 48)%N else None.

Fixpoint decimal (acc : N) (s : string) : option N :=
  match s with
  | EmptyString => Some acc
  | String c r =>
      match digit c with
      | Some d => decimal (acc * 10 + d)%N r
      | None => None
      end
  end.

(** An own property key is an array index when it is the canonical decimal
    form of an integer below 2^32 - 1; such keys are enumerated first, in
    ascending order. *)
Definition array_index (k : string) : option N :=
  match k with
  | EmptyString => None
  | String c r =>
      if (Ascii.eqb c "0" && negb (String.eqb r ""))%bool then None
      else match decimal 0 k with
           | Some n => if (n <? 4294967295)%N then Some n else None
           | None => None
           end
  end.

Section Obj.
Context {V : Type}.

Definition t := list (string * V).

Fixpoint get (k : string) (o : t) : option V :=
  match o with
  | [] => None
  | (k', v) :: r => if String.eqb k k' then Some v else get k r
  end.

Definition has (k : string) (o : t) : bool :=
  match get k o with Some _ => true | None => false end.

Fixpoint replace (k : string) (v : V) (o : t) : t :=
  match o with
  | [] => []
  | (k', v') :: r =>
      if String.eqb k k' then (k', v) :: r else (k', v') :: replace k v r
  end.

(** Insertion of a new array-index key: before the first key that is
    not an array index or is a larger one. *)
Fixpoint insert_index (n : N) (k : string) (v : V) (o : t) : t :=
  match o with
  | [] => [(k, v)]
  | (k', v') :: r =>
      match array_index k' with
      | Some n' =>
          if (n <? n')%N then (k, v) :: o
          else (k', v') :: insert_index n k v r
      | None => (k, v) :: o
      end
  end.

(** [o[k] = v] for a key that is an own property of [o] or is not
    [__proto__]: the property is written, or created as an own property. *)
Definition set (k : string) (v : V) (o : t) : t :=
  if has k o then replace k v o
  else match array_index k with
       | Some n => insert_index n k v o
       | None => o ++ [(k, v)]
       end.

(** [delete o[k]] *)
Fixpoint delete (k : string) (o : t) : t :=
  match o with
  | [] => []
  | (k', v) :: r =>
      if String.eqb k k' then delete k r else (k', v) :: delete k r
  end.

(** [Object.values(o)] and [Object.keys(o)] *)
Definition values (o : t) : list V := map snd o.
Definition keys (o : t) : list string := map fst o.

End Obj.
Arguments t : clear implicits.

(** The string keys of Object.prototype: eleven functions and the accessor
    [__proto__].  An object created by [{}] inherits them. *)
Definition prototype_members : list string :=
  ["constructor"; "__defineGetter__"; "__defineSetter__"; "hasOwnProperty";
   "__lookupGetter__"; "__lookupSetter__"; "isPrototypeOf"; "propertyIsEnumerable";
   "toString"; "valueOf"; "__proto__"; "toLocaleString"].

Definition inherited (k : string) : bool :=
  existsb (String.eqb k) prototype_members.

End JsObject.

(** ** Wire messages, events and the environment *)

(** [MultiplexMessage] of socket.ts: the four variants of the wire union.
    [code] and [reason] of a close message are optional (CloseEventInit). *)
Inductive MultiplexMessage :=
| ConnectMessage (ref backend : string)
| OpenMessage (channel ref : string)
| CloseMessage (channel : string) (code : option Z) (reason : option string)
| DataMessage (channel : string) (data : string).

(** [msg.channel]: absent on a connect message. *)
Definition msg_channel (msg : MultiplexMessage) : option string :=
  match msg with
  | ConnectMessage _ _ => None
  | OpenMessage c _ => Some c
  | CloseMessage c _ _ => Some c
  | DataMessage c _ => Some c
  end.

(** JavaScript truthiness of a string and of an optional string. *)
Definition truthy (s : string) : bool := negb (String.eqb s "").
Definition truthy_opt (s : option string) : bool :=
  match s with Some x => truthy x | None => false end.

(** A property key made of a possibly undefined value. *)
Definition prop_key (s : option string) : string :=
  match s with Some x => x | None => "undefined" end.

(** [WebSocket.readyState] *)
Inductive ReadyState := CONNECTING | OPEN | CLOSING | CLOSED.

Definition is_OPEN (r : ReadyState) : bool :=
  match r with OPEN => true | _ => false end.

(** The events a logical stream delivers to its listeners. *)
Inductive Event :=
| EvOpen
| EvMessage (data : string)
| EvClose (code : option Z) (reason : option string)
| EvError.

(** The second argument of the WebSocket constructor. *)
Inductive Protocols :=
| NoProtocols
| OneProtocol (p : string)
| ManyProtocols (ps : list string).

(** An entry of [MultiplexerBackends]: a function or an emitter object. *)
Inductive Backend := BackendFunction | BackendEmitter.

(** What [this.backends[id]] reads: an entry of the table, or the member of
    Object.prototype of that name. *)
Inductive Resolved :=
| OwnBackend (b : Backend)
| InheritedBackend (name : string).

(** A value read from, or stored in, the channel registry: a logical
    stream, [undefined], or the member [name] of Object.prototype (one of
    its functions; for the name [__proto__], Object.prototype itself). *)
Inductive Value :=
| VStream (sid : nat)
| VUndefined
| VInherited (name : string).

(** What [registry[id]] of client.ts reads: a pooled client, or a member of
    Object.prototype. *)
Inductive PoolValue :=
| PoolClient (m : nat)
| PoolInherited (name : string).

(** What the program does to its environment.  [RuntimeWrite name p]: the
    program assigns the property [p] of the member [name] of
    Object.prototype. *)
Inductive Effect :=
| NewWebSocket (sock : nat) (url : string) (protocols : Protocols)
| SocketSend (sock : nat) (msg : MultiplexMessage)
| Emit (stream : nat) (ev : Event)
| CallBackend (id : string) (b : Backend) (stream : nat)
| EmitConnection (id : string) (b : Backend) (stream : nat)
| ConsoleError (text : string)
| RuntimeWrite (member property : string).

(** ** Objects *)

(** The function stored in the [close] property of a logical stream.
    - [CloseBase]: the method of AbstractMultiplexSocket, which throws;
    - [CloseTemp m ref]: the arrow function installed by
      [MultiplexerClient.connect] of multiplexer [m];
    - [CloseFull m closed]: the closure installed by [Multiplexer.addChannel]
      of multiplexer [m], with the current value of its [closed] variable. *)
Inductive CloseImpl :=
| CloseBase
| CloseTemp (m : nat) (ref : string)
| CloseFull (m : nat) (closed : bool).

(** An AbstractMultiplexSocket.  [socket] and [channel] are declared without
    initialiser: they are undefined until assigned. *)
Record Stream := mkStream {
  s_socket : option nat;
  s_channel : option string;
  s_url : string;
  s_close : CloseImpl
}.

(** A physical WebSocket: its ready state, its url, and the multiplexer
    whose handlers are installed on it. *)
Record Socket := mkSocket {
  readyState : ReadyState;
  so_url : string;
  so_owner : option nat
}.

(** The role-specific fields of a multiplexer.  [pending] holds the queued
    sends, each the JSON text handed to [this.socket.send]; [None] is
    [undefined]. *)
Inductive Role :=
| Client (socket : nat) (pending : option (list MultiplexMessage)) (url : string)
| Server (backends : gmap string Backend).

(** The prototype of a registry created by [{}]: Object.prototype. *)
Definition Object_prototype : Value := VInherited "__proto__".

(** A Multiplexer: the own properties of the channel registry, the role,
    and the prototype of the channel registry ([Object_prototype] until the
    key [__proto__] is assigned). *)
Record Muxer := mkMuxer {
  channels : JsObject.t Value;
  role : Role;
  chan_proto : Value
}.

(** [rendered n] is the text of [(0.00001 + Math.random()).toString(36)] at
    the call number [n] of [randomId]; [drawn] counts the calls. *)
Record World := mkWorld {
  sockets : list Socket;
  streams : list Stream;
  muxers : list Muxer;
  registry : gmap string nat;
  rendered : nat -> string;
  drawn : nat;
  trace : list Effect
}.

(** The id that call number [n] of [randomId] returns:
    [text.slice(2, 5 + 2)]. *)
Definition random (w : World) (n : nat) : string :=
  String.substring 2 5 (rendered w n).
Arguments random : simpl never.

(** ** The monad of effectful code: state and exceptions *)

(** [InvalidEvent]: what [dispatchEvent] throws when it is handed an event
    that is being dispatched (InvalidStateError), or an object that is no
    Event of the runtime (a TypeError). *)
Inductive Exn :=
| Error (message : string)
| TypeError
| InvalidEvent.

Inductive Res (A : Type) :=
| Ok (a : A)
| Throw (e : Exn).
Arguments Ok {A} a.
Arguments Throw {A} e.

Definition M (A : Type) : Type := World -> Res A * World.

Definition ret {A} (a : A) : M A := fun w => (Ok a, w).

Definition bind {A B} (c : M A) (k : A -> M B) : M B :=
  fun w => match c w with
           | (Ok a, w') => k a w'
           | (Throw e, w') => (Throw e, w')
           end.

Definition throw {A} (e : Exn) : M A := fun w => (Throw e, w).

(** [try { c } catch (error) { h }] *)
Definition try_catch (c : M unit) (h : M unit) : M unit :=
  fun w => match c w with
           | (Ok a, w') => (Ok a, w')
           | (Throw _, w') => h w'
           end.

Definition get_world : M World := fun w => (Ok w, w).
Definition modify (f : World -> World) : M unit := fun w => (Ok tt, f w).

Notation "'let*' x ':=' c 'in' k" := (bind c (fun x => k))
  (at level 10, x name, c at level 100, k at level 200).

(** [l.forEach(f)]: an exception thrown by [f] ends the iteration. *)
Fixpoint forEach {A} (f : A -> M unit) (l : list A) : M unit :=
  match l with
  | [] => ret tt
  | x :: r => let* _ := f x in forEach f r
  end.

(** The state of the world after running [c], and its result. *)
Definition exec {A} (c : M A) (w : World) : World := snd (c w).
Definition result {A} (c : M A) (w : World) : Res A := fst (c w).

(** ** Access to the stores *)

Definition set_sockets (f : list Socket -> list Socket) (w : World) : World :=
  mkWorld (f (sockets w)) (streams w) (muxers w) (registry w) (rendered w) (drawn w) (trace w).
Definition set_streams (f : list Stream -> list Stream) (w : World) : World :=
  mkWorld (sockets w) (f (streams w)) (muxers w) (registry w) (rendered w) (drawn w) (trace w).
Definition set_muxers (f : list Muxer -> list Muxer) (w : World) : World :=
  mkWorld (sockets w) (streams w) (f (muxers w)) (registry w) (rendered w) (drawn w) (trace w).
Definition set_registry (f : gmap string nat -> gmap string nat) (w : World) : World :=
  mkWorld (sockets w) (streams w) (muxers w) (f (registry w)) (rendered w) (drawn w) (trace w).
Definition set_drawn (f : nat -> nat) (w : World) : World :=
  mkWorld (sockets w) (streams w) (muxers w) (registry w) (rendered w) (f (drawn w)) (trace w).
Definition set_trace (f : list Effect -> list Effect) (w : World) : World :=
  mkWorld (sockets w) (streams w) (muxers w) (registry w) (rendered w) (drawn w) (f (trace w)).

Definition effect (e : Effect) : M unit := modify (set_trace (fun t => t ++ [e])).

(** [console.error(text)] *)
Definition console_error (text : string) : M unit := effect (ConsoleError text).

(** Dereferencing: a property access on [undefined] is a TypeError. *)
Definition deref {A} (store : World -> list A) (r : nat) : M A :=
  fun w => match store w !! r with
           | Some x => (Ok x, w)
           | None => (Throw TypeError, w)
           end.

Definition the_stream : nat -> M Stream := deref streams.
Definition the_socket : nat -> M Socket := deref sockets.
Definition the_muxer : nat -> M Muxer := deref muxers.

Definition update_stream (sid : nat) (f : Stream -> Stream) : M unit :=
  modify (set_streams (fun l => match l !! sid with
                                | Some s => <[sid := f s]> l
                                | None => l
                                end)).

Definition update_socket (k : nat) (f : Socket -> Socket) : M unit :=
  modify (set_sockets (fun l => match l !! k with
                                | Some s => <[k := f s]> l
                                | None => l
                                end)).

Definition update_muxer (m : nat) (f : Muxer -> Muxer) : M unit :=
  modify (set_muxers (fun l => match l !! m with
                               | Some x => <[m := f x]> l
                               | None => l
                               end)).

Definition update_channels (m : nat)
    (f : JsObject.t Value -> JsObject.t Value) : M unit :=
  update_muxer m (fun x => mkMuxer (f (channels x)) (role x) (chan_proto x)).

(** [this.channels[key]] read as a value: the own property, if there is
    one; otherwise what the prototype chain gives: for [__proto__] the
    prototype itself, for another member of Object.prototype that member,
    and [undefined] for every other key. *)
Definition channels_get (key : string) (x : Muxer) : Value :=
  match JsObject.get key (channels x) with
  | Some v => v
  | None =>
      if String.eqb key "__proto__" then chan_proto x
      else if JsObject.inherited key then VInherited key
      else VUndefined
  end.

(** [this.channels[key] = v]: an own property is written, and any key but
    [__proto__] is created as an own property.  For [__proto__] the
    assignment runs the setter of Object.prototype, which makes an object
    the prototype of the registry and ignores [undefined]. *)
Definition channels_set (key : string) (v : Value) (x : Muxer) : Muxer :=
  if String.eqb key "__proto__" && negb (JsObject.has key (channels x))
  then match v with
       | VUndefined => x
       | _ => mkMuxer (channels x) (role x) v
       end
  else mkMuxer (JsObject.set key v (channels x)) (role x) (chan_proto x).

Arguments channels_get : simpl never.
Arguments channels_set : simpl never.

(** [socket.send(JSON.stringify(msg))] on a possibly undefined socket. *)
Definition socket_send (sock : option nat) (msg : MultiplexMessage) : M unit :=
  match sock with
  | Some k => effect (SocketSend k msg)
  | None => throw TypeError
  end.

(** ** socket.ts: AbstractMultiplexSocket *)

(** [Multiplexer.emit(sock, event, handler)] on a stream, with an event
    that the multiplexer has created: [dispatchEvent] and the [on...]
    handler property. *)
Definition emit (sid : nat) (ev : Event) : M unit := effect (Emit sid ev).

(** [Multiplexer.emit(sock, event, sock.on...)] on a value read from the
    registry: [undefined] has no properties, and a member of Object.prototype
    has no [dispatchEvent]. *)
Definition emit_value (sock : Value) (ev : Event) : M unit :=
  match sock with
  | VStream sid => emit sid ev
  | VUndefined => throw TypeError
  | VInherited _ => throw TypeError
  end.

(** [Multiplexer.emit(sock, event, sock.onerror)] with the event object
    that the handler of the transport was called with: a stream refuses to
    dispatch it, because the transport is dispatching that very event, or,
    with the ws library, because the object is no Event of the runtime. *)
Definition emit_transport_event (sock : Value) : M unit :=
  match sock with
  | VStream _ => throw InvalidEvent
  | VUndefined => throw TypeError
  | VInherited _ => throw TypeError
  end.

(** [sock.close(code, reason)]: calls whatever function the [close]
    property holds. *)
Definition close (sid : nat) (code : option Z) (reason : option string) : M unit :=
  let* s := the_stream sid in
  match s_close s with
  | CloseBase =>
      throw (Error "This method should be overridden by the Multiplexer.")
  | CloseTemp m ref =>
      update_channels m (JsObject.delete ref)
  | CloseFull m closed =>
      if closed then ret tt
      else
        let* _ := update_stream sid (fun s =>
                    mkStream (s_socket s) (s_channel s) (s_url s) (CloseFull m true)) in
        let* k := match s_socket s with
                  | Some k => ret k
                  | None => throw TypeError
                  end in
        let* so := the_socket k in
        let* _ := if is_OPEN (readyState so)
                  then socket_send (Some k)
                         (CloseMessage (prop_key (s_channel s)) code reason)
                  else ret tt in
        let* _ := emit sid (EvClose code reason) in
        update_channels m (JsObject.delete (prop_key (s_channel s)))
  end.

(** [AbstractMultiplexSocket.send(data)] *)
Definition send (sid : nat) (data : string) : M unit :=
  let* s := the_stream sid in
  if negb (truthy_opt (s_channel s)) then console_error "channel was closed"
  else socket_send (s_socket s) (DataMessage (prop_key (s_channel s)) data).

(** [AbstractMultiplexSocket.handleMessage(msg)] *)
Definition handleMessage (sid : nat) (msg : MultiplexMessage) : M unit :=
  match msg with
  | DataMessage _ data => emit sid (EvMessage data)
  | CloseMessage _ code reason => close sid code reason
  | _ => ret tt
  end.

(** ** socket.ts: Multiplexer *)

(** [Multiplexer.addChannel(sock, channel)]; [sock] is what the caller
    has: a new stream, or a value read from the registry.  On a member of
    Object.prototype the two assignments succeed. *)
Definition addChannel (m : nat) (sock : Value) (channel : string) : M unit :=
  match sock with
  | VUndefined => throw TypeError
  | VStream sid =>
      let* s := the_stream sid in
      let* _ := update_stream sid (fun s =>
                  mkStream (s_socket s) (Some channel) (s_url s) (CloseFull m false)) in
      update_muxer m (channels_set channel (VStream sid))
  | VInherited name =>
      let* _ := effect (RuntimeWrite name "channel") in
      let* _ := effect (RuntimeWrite name "close") in
      update_muxer m (channels_set channel (VInherited name))
  end.

(** [sock.close(code, reason)] on a value of the registry.  A member of
    Object.prototype is in the registry after [addChannel] has given it the
    closure as its [close]: the closure fails at [sock.socket.readyState]. *)
Definition close_value (sock : Value) (code : option Z) (reason : option string) : M unit :=
  match sock with
  | VStream sid => close sid code reason
  | VUndefined => throw TypeError
  | VInherited _ => throw TypeError
  end.

(** The [onclose] handler installed by [wireDefaultEvents]. *)
Definition onclose (m : nat) (code : option Z) (reason : option string) : M unit :=
  let* x := the_muxer m in
  forEach (fun sock => close_value sock code reason)
          (JsObject.values (channels x)).

(** The [onerror] handler installed by [wireDefaultEvents]: it hands the
    event of the transport on to [emit]. *)
Definition onerror (m : nat) : M unit :=
  let* x := the_muxer m in
  forEach emit_transport_event (JsObject.values (channels x)).

(** [Multiplexer.wireDefaultEvents(socket)]: from now on the close and
    error events of [socket] run the handlers of multiplexer [m]. *)
Definition wireDefaultEvents (m : nat) (socket : nat) : M unit :=
  update_socket socket (fun s => mkSocket (readyState s) (so_url s) (Some m)).

(** [Multiplexer.handleChannelMessage(msg)] *)
Definition handleChannelMessage (m : nat) (msg : MultiplexMessage) : M unit :=
  if negb (truthy_opt (msg_channel msg))
  then console_error "expected channel message"
  else
    let* x := the_muxer m in
    match channels_get (prop_key (msg_channel msg)) x with
    | VUndefined => console_error ("channel not found" ++ prop_key (msg_channel msg))%string
    | VStream sid => handleMessage sid msg
    | VInherited _ => throw TypeError
    end.

(** [Multiplexer.randomId()]: five characters of the next text of the
    oracle. *)
Definition randomId : M string :=
  fun w => (Ok (random w (drawn w)), set_drawn S w).

(** ** String operations of the JavaScript library used by the code *)

(** [s.lastIndexOf(c)]; [None] is -1. *)
Fixpoint lastIndexOf (c : ascii) (s : string) : option nat :=
  match s with
  | EmptyString => None
  | String a r =>
      match lastIndexOf c r with
      | Some i => Some (S i)
      | None => if Ascii.eqb a c then Some 0 else None
      end
  end.

(** [s.substring(0, i)], where a negative [i] counts as 0. *)
Definition substring_to (i : option nat) (s : string) : string :=
  match i with
  | Some n => String.substring 0 n s
  | None => ""
  end.

(** [s.split(c)] *)
Fixpoint split (c : ascii) (s : string) : list string :=
  match s with
  | EmptyString => [""]
  | String a r =>
      if Ascii.eqb a c then "" :: split c r
      else match split c r with
           | h :: t => String a h :: t
           | [] => [String a ""]
           end
  end.

(** [l.join(",")], which is [Array.prototype.toString] *)
Fixpoint join_comma (l : list string) : string :=
  match l with
  | [] => ""
  | [x] => x
  | x :: r => (x ++ "," ++ join_comma r)%string
  end.

(** [protocols?.toString() || ''] *)
Definition protocols_toString (p : Protocols) : string :=
  match p with
  | NoProtocols => ""
  | OneProtocol s => s
  | ManyProtocols l => join_comma l
  end.

(** The [type] property of a message. *)
Definition msg_type (msg : MultiplexMessage) : string :=
  match msg with
  | ConnectMessage _ _ => "connect"
  | OpenMessage _ _ => "open"
  | CloseMessage _ _ _ => "close"
  | DataMessage _ _ => "data"
  end.

(** ** client.ts *)

(** The fields of a MultiplexerClient. *)
Definition client_fields (m : nat) : M (nat * option (list MultiplexMessage) * string) :=
  let* x := the_muxer m in
  match role x with
  | Client socket pending url => ret (socket, pending, url)
  | Server _ => throw TypeError
  end.

Definition set_pending (m : nat) (p : option (list MultiplexMessage)) : M unit :=
  update_muxer m (fun x =>
    match role x with
    | Client socket _ url => mkMuxer (channels x) (Client socket p url) (chan_proto x)
    | Server _ => x
    end).

(** [new MultiplexerClient(url, protocols)]: returns the new multiplexer. *)
Definition new_MultiplexerClient (url : string) (protocols : Protocols) : M nat :=
  let* w := get_world in
  let m := length (muxers w) in
  let k := length (sockets w) in
  let this_url := if truthy url then url else "/" in
  let* _ := modify (set_muxers (fun l =>
              l ++ [mkMuxer [] (Client k (Some []) this_url) Object_prototype])) in
  let* _ := modify (set_sockets (fun l => l ++ [mkSocket CONNECTING this_url None])) in
  let* _ := effect (NewWebSocket k this_url protocols) in
  let* _ := wireDefaultEvents m k in
  ret m.

(** [registry[id]] of client.ts: the pool is an object created by [{}]. *)
Definition pool_get (id : string) (w : World) : option PoolValue :=
  match registry w !! id with
  | Some m => Some (PoolClient m)
  | None => if JsObject.inherited id then Some (PoolInherited id) else None
  end.

(** [getMuxer(url, protocols)] *)
Definition getMuxer (url : string) (protocols : Protocols) : M PoolValue :=
  let id := (url ++ protocols_toString protocols)%string in
  let* w := get_world in
  let* _ := match pool_get id w with
            | Some _ => ret tt
            | None =>
                let* m := new_MultiplexerClient url protocols in
                modify (set_registry (fun r => <[id := m]> r))
            end in
  let* w' := get_world in
  match pool_get id w' with
  | Some v => ret v
  | None => throw TypeError
  end.

(** [MultiplexerClient.connect(sock)] *)
Definition connect (m : nat) (sid : nat) : M unit :=
  let* ref := randomId in
  let* _ := update_muxer m (channels_set ref (VStream sid)) in
  let* _ := update_stream sid (fun s =>
              mkStream (s_socket s) (s_channel s) (s_url s) (CloseTemp m ref)) in
  let* s := the_stream sid in
  let msg := ConnectMessage ref (s_url s) in
  let* f := client_fields m in
  match f with
  | (socket, None, _) => socket_send (Some socket) msg
  | (socket, Some queue, _) => set_pending m (Some (queue ++ [msg]))
  end.

(** [new MultiplexSocket(url, protocols)] of client.ts: returns the stream.
    Nobody but the constructor knows the object under construction before
    [muxer.connect(this)] puts it into the registry: it enters the store of
    streams there, with the fields that the constructor has assigned.  When
    [getMuxer] returns a member of Object.prototype, that call is a
    TypeError (the member has no [connect]) and the object is lost. *)
Definition new_MultiplexSocket (url : string) (protocols : Protocols) : M nat :=
  let* muxer := getMuxer (substring_to (lastIndexOf "/" url) url) protocols in
  match muxer with
  | PoolInherited _ => throw TypeError
  | PoolClient m =>
      let* f := client_fields m in
      let* w := get_world in
      let sid := length (streams w) in
      let* _ := modify (set_streams (fun l =>
                  l ++ [mkStream (Some (fst (fst f))) None url CloseBase])) in
      let* _ := connect m sid in
      ret sid
  end.

(** The [onopen] handler of the client's socket. *)
Definition client_onopen (m : nat) : M unit :=
  let* f := client_fields m in
  let* _ := match f with
            | (socket, Some queue, _) =>
                forEach (fun json => socket_send (Some socket) json) queue
            | (_, None, _) => ret tt
            end in
  set_pending m None.

(** [MultiplexerClient.handleOpenMessage(msg)] *)
Definition handleOpenMessage (m : nat) (msg : MultiplexMessage) : M unit :=
  match msg with
  | OpenMessage channel ref =>
      let* x := the_muxer m in
      let sock := channels_get ref x in
      let* _ := update_muxer m (channels_set channel sock) in
      let* _ := update_channels m (JsObject.delete ref) in
      let* _ := addChannel m sock channel in
      emit_value sock EvOpen
  | _ => console_error "expected open message"
  end.

(** The [onmessage] handler of the client's socket; [None] is a text that
    [JSON.parse] rejects. *)
Definition client_onmessage (m : nat) (data : option MultiplexMessage) : M unit :=
  try_catch
    (match data with
     | None => throw (Error "SyntaxError")
     | Some msg =>
         if String.eqb (msg_type msg) "open" then handleOpenMessage m msg
         else if truthy_opt (msg_channel msg) then handleChannelMessage m msg
         else console_error ("unimplemented MultiplexMessage.type " ++ msg_type msg)%string
     end)
    (console_error "Failed to parse multiplexer message:").

(** ** server.ts *)

(** [new MultiplexerServer(backends, options)]: returns the new multiplexer. *)
Definition new_MultiplexerServer (backends : gmap string Backend) : M nat :=
  let* w := get_world in
  let* _ := modify (set_muxers (fun l =>
              l ++ [mkMuxer [] (Server backends) Object_prototype])) in
  ret (length (muxers w)).

(** The ['connection'] listener of the server: the transport hands over an
    established socket. *)
Definition connection (m : nat) (url : string) : M nat :=
  let* w := get_world in
  let k := length (sockets w) in
  let* _ := modify (set_sockets (fun l => l ++ [mkSocket OPEN url None])) in
  let* _ := wireDefaultEvents m k in
  ret k.

(** The last element of a list: [l.pop()] as a value. *)
Definition pop (l : list string) : option string := last l.

(** [this.backends[id]]: the table is an object created by [{}]. *)
Definition backends_get (backends : gmap string Backend) (id : string) : option Resolved :=
  match backends !! id with
  | Some b => Some (OwnBackend b)
  | None => if JsObject.inherited id then Some (InheritedBackend id) else None
  end.

(** [MultiplexerServer.getBackend(msg)], given the [backend] property of
    the connect message; the key is returned with the backend. *)
Definition getBackend (backends : gmap string Backend) (backend : string)
    : option (string * Resolved) :=
  match pop (List.filter truthy (split "/" backend)) with
  | Some id => if truthy id
               then match backends_get backends id with
                    | Some b => Some (id, b)
                    | None => None
                    end
               else None
  | None => None
  end.

(** [backend(sock)] for a member of Object.prototype, which is called with
    [this] undefined: [constructor] (that is [Object]) and [toString]
    return; the other functions fail when they turn [this] into an object.
    The member [__proto__] is Object.prototype itself, an object without
    [emit]: [backend.emit('connection', sock)] is a TypeError. *)
Definition call_inherited (name : string) : M unit :=
  if String.eqb name "constructor" || String.eqb name "toString"
  then ret tt
  else throw TypeError.

(** [new MultiplexSocket(socket)] of server.ts *)
Definition new_ServerMultiplexSocket (socket : nat) : M nat :=
  let* so := the_socket socket in
  let* w := get_world in
  let* _ := modify (set_streams (fun l =>
              l ++ [mkStream (Some socket) None (so_url so) CloseBase])) in
  ret (length (streams w)).

(** [MultiplexerServer.handleConnectMessage(msg, socket)].  [app sock] is
    what the backend of the application does with the stream while it is
    invoked (the body of the function, or the listeners of 'connection'). *)
Definition handleConnectMessage_with (app : nat -> M unit)
    (m : nat) (msg : MultiplexMessage) (socket : nat) : M unit :=
  match msg with
  | ConnectMessage ref backend_url =>
      let* x := the_muxer m in
      let backends := match role x with
                      | Server b => b
                      | Client _ _ _ => ∅
                      end in
      match getBackend backends backend_url with
      | None => console_error "backend not found"
      | Some (id, backend) =>
          let* channel := randomId in
          let* _ := socket_send (Some socket) (OpenMessage channel ref) in
          let* sock := new_ServerMultiplexSocket socket in
          let* _ := addChannel m (VStream sock) channel in
          let* _ := match backend with
                    | OwnBackend BackendFunction =>
                        let* _ := effect (CallBackend id BackendFunction sock) in
                        app sock
                    | OwnBackend BackendEmitter =>
                        let* _ := effect (EmitConnection id BackendEmitter sock) in
                        app sock
                    | InheritedBackend name => call_inherited name
                    end in
          emit sock EvOpen
      end
  | _ => console_error "expected connect message"
  end.

(** The handler with backends that only observe: they do not use the
    stream while they are invoked. *)
Definition handleConnectMessage : nat -> MultiplexMessage -> nat -> M unit :=
  handleConnectMessage_with (fun _ => ret tt).

(** The [onmessage] handler of a server-side socket. *)
Definition server_onmessage (m : nat) (socket : nat) (data : option MultiplexMessage) : M unit :=
  try_catch
    (match data with
     | None => throw (Error "SyntaxError")
     | Some msg =>
         if String.eqb (msg_type msg) "connect" then handleConnectMessage m msg socket
         else if truthy_opt (msg_channel msg) then handleChannelMessage m msg
         else console_error ("unimplemented MultiplexMessage.type " ++ msg_type msg)%string
     end)
    (console_error "Failed to parse multiplexer message:").

(** ** The environment: events of the physical sockets *)

(** The multiplexer whose handlers a socket carries. *)
Definition owner (k : nat) : M (option nat) :=
  fun w => match sockets w !! k with
           | Some so => (Ok (so_owner so), w)
           | None => (Ok None, w)
           end.

Definition set_readyState (k : nat) (r : ReadyState) : M unit :=
  update_socket k (fun s => mkSocket r (so_url s) (so_owner s)).

(** The transport becomes ready: [onopen] is only assigned by the client. *)
Definition socket_open (k : nat) : M unit :=
  let* _ := set_readyState k OPEN in
  let* o := owner k in
  match o with
  | Some m =>
      let* x := the_muxer m in
      match role x with
      | Client _ _ _ => client_onopen m
      | Server _ => ret tt
      end
  | None => ret tt
  end.

(** A message arrives on a socket. *)
Definition socket_message (k : nat) (data : option MultiplexMessage) : M unit :=
  let* o := owner k in
  match o with
  | Some m =>
      let* x := the_muxer m in
      match role x with
      | Client _ _ _ => client_onmessage m data
      | Server _ => server_onmessage m k data
      end
  | None => ret tt
  end.

(** The transport closes. *)
Definition socket_close (k : nat) (code : option Z) (reason : option string) : M unit :=
  let* _ := set_readyState k CLOSED in
  let* o := owner k in
  match o with
  | Some m => onclose m code reason
  | None => ret tt
  end.

(** The transport reports an error. *)
Definition socket_error (k : nat) : M unit :=
  let* o := owner k in
  match o with
  | Some m => onerror m
  | None => ret tt
  end.

(** ** The system as a state machine *)

(** What the application and the transport can do. *)
Inductive Op :=
| OpNewMultiplexSocket (url : string) (protocols : Protocols)
| OpNewMultiplexerServer (backends : gmap string Backend)
| OpConnection (m : nat) (url : string)
| OpSend (sid : nat) (data : string)
| OpClose (sid : nat) (code : option Z) (reason : option string)
| OpSocketOpen (k : nat)
| OpSocketMessage (k : nat) (data : option MultiplexMessage)
| OpSocketClose (k : nat) (code : option Z) (reason : option string)
| OpSocketError (k : nat).

Definition run (op : Op) : M unit :=
  match op with
  | OpNewMultiplexSocket url protocols =>
      let* _ := new_MultiplexSocket url protocols in ret tt
  | OpNewMultiplexerServer backends =>
      let* _ := new_MultiplexerServer backends in ret tt
  | OpConnection m url =>
      let* x := the_muxer m in
      match role x with
      | Server _ => let* _ := connection m url in ret tt
      | Client _ _ _ => ret tt
      end
  | OpSend sid data => send sid data
  | OpClose sid code reason => close sid code reason
  | OpSocketOpen k => socket_open k
  | OpSocketMessage k data => socket_message k data
  | OpSocketClose k code reason => socket_close k code reason
  | OpSocketError k => socket_error k
  end.

Definition step (op : Op) (w : World) : World := exec (run op) w.

Definition steps (ops : list Op) (w : World) : World :=
  fold_left (fun w op => step op w) ops w.

(** The world before the program starts; [ids] is the oracle of
    [randomId]: the texts of the numbers that will be drawn. *)
Definition initial (ids : nat -> string) : World :=
  mkWorld [] [] [] ∅ ids 0 [].

Inductive reachable : World -> Prop :=
| reachable_initial ids : reachable (initial ids)
| reachable_step op w : reachable w -> reachable (step op w).

(** ** Worlds used as examples *)

Definition echo_backends : gmap string Backend := <["echo" := BackendFunction]> ∅.

(** A server with one accepted connection. *)
Definition C8_world : World :=
  steps [OpNewMultiplexerServer echo_backends; OpConnection 0 "ws://host/"]
        (initial (fun _ => "0.c1")).

(** A server on which one stream was opened and then closed by the backend. *)
Definition C1_world : World :=
  steps [OpNewMultiplexerServer echo_backends;
         OpConnection 0 "ws://host/";
         OpSocketMessage 0 (Some (ConnectMessage "r1" "ws://host/echo"));
         OpClose 0 (Some 1000%Z) (Some "bye")]
        (initial (fun _ => "0.c1")).

(** A server on which one stream is open under channel "c1". *)
Definition open_world : World :=
  steps [OpNewMultiplexerServer echo_backends;
         OpConnection 0 "ws://host/";
         OpSocketMessage 0 (Some (ConnectMessage "r1" "ws://host/echo"))]
        (initial (fun _ => "0.c1")).

(** A server on which three streams are open, under "c1", "c2" and "c3". *)
Definition three_world : World :=
  steps [OpNewMultiplexerServer echo_backends;
         OpConnection 0 "ws://host/";
         OpSocketMessage 0 (Some (ConnectMessage "r1" "ws://host/echo"));
         OpSocketMessage 0 (Some (ConnectMessage "r2" "ws://host/echo"));
         OpSocketMessage 0 (Some (ConnectMessage "r3" "ws://host/echo"))]
        (initial (fun n => nth n ["0.c1"; "0.c2"; "0.c3"] "0.c4")).

(** A client with two streams: the first one was closed by the application
    before its open frame arrived, the second one is open under "c2". *)
Definition early_close_world : World :=
  steps [OpNewMultiplexSocket "ws://host/echo" NoProtocols;
         OpNewMultiplexSocket "ws://host/echo" NoProtocols;
         OpSocketOpen 0;
         OpClose 0 None None;
         OpSocketMessage 0 (Some (OpenMessage "c1" "r1"));
         OpSocketMessage 0 (Some (OpenMessage "c2" "r2"))]
        (initial (fun n => nth n ["0.r1"; "0.r2"] "0.r3")).

(** A server with one accepted connection and an oracle of different ids. *)
Definition fresh_world : World :=
  steps [OpNewMultiplexerServer echo_backends; OpConnection 0 "ws://host/"]
        (initial (fun n => nth n ["0.c1"; "0.c2"; "0.c3"] "0.c4")).

(** [open_world] after a second connect request, for which the oracle
    returns "c1" again. *)
Definition collide_world : World :=
  step (OpSocketMessage 0 (Some (ConnectMessage "r2" "ws://host/echo"))) open_world.

(** A client whose transport is ready, with one stream that still waits
    for the open frame of its handshake. *)
Definition pending_world : World :=
  steps [OpNewMultiplexSocket "ws://host/echo" NoProtocols; OpSocketOpen 0]
        (initial (fun _ => "0.r1")).

(** ** Observations on traces *)

(** The number of close events delivered to stream [sid]. *)
Definition delivered_close (sid : nat) (t : list Effect) : nat :=
  length (List.filter (fun e => match e with
                                | Emit sid' (EvClose _ _) => Nat.eqb sid sid'
                                | _ => false
                                end) t).


(** The number of transport-level connections constructed. *)
Definition constructed_sockets (t : list Effect) : nat :=
  length (List.filter (fun e => match e with
                                | NewWebSocket _ _ _ => true
                                | _ => false
                                end) t).

(** The url of a stream, and the connect frames that the streams [sids]
    submit one after the other when the oracle stands at position [n]. *)
Definition stream_url (w : World) (sid : nat) : string :=
  match streams w !! sid with
  | Some s => s_url s
  | None => ""
  end.

Fixpoint connect_frames (w : World) (n : nat) (sids : list nat) : list MultiplexMessage :=
  match sids with
  | [] => []
  | sid :: r => ConnectMessage (random w n) (stream_url w sid) :: connect_frames w (S n) r
  end.

(** ** The world after the close function of [addChannel] has run

    [after_close sid s m k so c code reason w] is [w] in which stream [sid]
    (with fields [s], socket [k] in state [so], channel [c]) of multiplexer
    [m] went through the body of the closure. *)
Definition close_effects (sid k : nat) (so : Socket) (c : string)
    (code : option Z) (reason : option string) : list Effect :=
  (if is_OPEN (readyState so) then [SocketSend k (CloseMessage c code reason)] else [])
  ++ [Emit sid (EvClose code reason)].

Definition after_close (sid : nat) (s : Stream) (m k : nat) (so : Socket) (c : string)
    (code : option Z) (reason : option string) (w : World) : World :=
  mkWorld (sockets w)
          (<[sid := mkStream (s_socket s) (s_channel s) (s_url s) (CloseFull m true)]> (streams w))
          (match muxers w !! m with
           | Some x => <[m := mkMuxer (JsObject.delete c (channels x)) (role x)
                                (chan_proto x)]> (muxers w)
           | None => muxers w
           end)
          (registry w) (rendered w) (drawn w)
          (trace w ++ close_effects sid k so c code reason).

(** ** What later worlds keep of earlier ones

    [extends w w']: every pool entry of [w] is a pool entry of [w'], and
    every multiplexer of [w] is still there in [w'] in the same role, a
    client with the same socket and url, and with [pending] still
    [undefined] if it was. *)
Definition role_le (r r' : Role) : Prop :=
  match r, r' with
  | Client k p u, Client k' p' u' => k = k' /\ u = u' /\ (p = None -> p' = None)
  | Server b, Server b' => b = b'
  | _, _ => False
  end.

Definition extends (w w' : World) : Prop :=
  (forall id m, registry w !! id = Some m -> registry w' !! id = Some m) /\
  (forall m x, muxers w !! m = Some x ->
               exists x', muxers w' !! m = Some x' /\ role_le (role x) (role x')).

(** [mono c]: running [c] only extends the world, whatever its outcome. *)
Definition mono {A} (c : M A) : Prop := forall w, extends w (snd (c w)).

(** ** Registries whose entries are consistent with their streams

    [entry_ok w m (key, v)]: the value is a stream of [w] which either was
    registered by [addChannel] of multiplexer [m] under [key] and is not
    closed, on a socket that exists, or was registered by [connect] of [m]
    under the temporary reference [key]. *)
Definition entry_ok (w : World) (m : nat) (e : string * Value) : Prop :=
  exists sid s,
    snd e = VStream sid /\
    streams w !! sid = Some s /\
    ((s_close s = CloseFull m false /\ s_channel s = Some (fst e) /\
      exists k so, s_socket s = Some k /\ sockets w !! k = Some so)
     \/ s_close s = CloseTemp m (fst e)).

(** What the [onclose] handler of [wireDefaultEvents] does to the
    environment for the entries [l] of a registry, given the streams and
    the sockets at the time the handler starts. *)
Definition entry_close_effects (sts : list Stream) (sos : list Socket)
    (code : option Z) (reason : option string) (e : string * Value) : list Effect :=
  match snd e with
  | VStream sid =>
      match sts !! sid with
      | Some s =>
          match s_close s, s_socket s with
          | CloseFull _ false, Some k =>
              match sos !! k with
              | Some so => close_effects sid k so (fst e) code reason
              | None => []
              end
          | _, _ => []
          end
      | None => []
      end
  | _ => []
  end.

Definition onclose_effects (sts : list Stream) (sos : list Socket)
    (code : option Z) (reason : option string) (l : list (string * Value))
    : list Effect :=
  flat_map (entry_close_effects sts sos code reason) l.

(** ** Well-formed worlds

    [WF w]: every entry of the pool is a client multiplexer of [w], and no
    stream of [w] has the throwing [close] of AbstractMultiplexSocket.
    [inv c]: running [c] keeps the world well formed, whatever the outcome. *)
Definition WF (w : World) : Prop :=
  (forall id m, registry w !! id = Some m ->
                exists x k p u, muxers w !! m = Some x /\ role x = Client k p u) /\
  (forall sid s, streams w !! sid = Some s -> s_close s <> CloseBase).

Definition inv {A} (c : M A) : Prop := forall w, WF w -> WF (snd (c w)).

(** ** The world in which a backend is invoked

    [handover w m socket x so ref id b]: the world [w] after the server
    [m], with fields [x], has handled a connect message up to the
    invocation of the backend [b] found under [id]: the id is drawn, the
    open frame is sent on [socket] (in state [so]), the stream is created
    and registered by addChannel, and the backend is being invoked. *)
Definition handover (w : World) (m socket : nat) (x : Muxer) (so : Socket)
    (ref id : string) (b : Backend) : World :=
  mkWorld (sockets w)
    (streams w ++ [mkStream (Some socket) (Some (random w (drawn w))) (so_url so)
                     (CloseFull m false)])
    (<[m := mkMuxer (JsObject.set (random w (drawn w)) (VStream (length (streams w)))
                       (channels x)) (role x) (chan_proto x)]> (muxers w))
    (registry w) (rendered w) (S (drawn w))
    (trace w ++ [SocketSend socket (OpenMessage (random w (drawn w)) ref);
                 match b with
                 | BackendFunction => CallBackend id b (length (streams w))
                 | BackendEmitter => EmitConnection id b (length (streams w))
                 end]).

(** ** The readyState getter

    [get readyState()] of AbstractMultiplexSocket returns the ready state
    of the stream's socket. *)
Definition get_readyState (sid : nat) : M ReadyState :=
  let* s := the_stream sid in
  match s_socket s with
  | Some k => let* so := the_socket k in ret (readyState so)
  | None => throw TypeError
  end.

(** A server with two accepted connections and one stream on each. *)
Definition two_connections_world : World :=
  steps [OpNewMultiplexerServer echo_backends;
         OpConnection 0 "ws://host/";
         OpConnection 0 "ws://host/";
         OpSocketMessage 0 (Some (ConnectMessage "r1" "ws://host/echo"));
         OpSocketMessage 1 (Some (ConnectMessage "r1" "ws://host/echo"))]
        (initial (fun n => nth n ["0.c1"; "0.c2"; "0.c3"] "0.c4")).

(** ** server.ts: the listener methods of the server-side MultiplexSocket

    [on], [once], [off] and [_wrap] sit on top of the EventTarget of the
    stream.  A callback of the application is a function object, named by a
    number; [wrapped] is the property that [on] sets on it.  The closures
    that [_wrap] creates are numbered in the order of their creation:
    closure [i] calls the callback [wrappers !! i].  The listener lists of
    the streams are kept in one list, in the order of registration. *)
Module Listeners.

(** What a closure of [_wrap] hands to the callback. *)
Inductive Arg :=
| ArgUndefined
| ArgData (data : string)
| ArgError (code : option Z) (message : option string).

(** [event.type] *)
Definition event_type (ev : Event) : string :=
  match ev with
  | EvOpen => "open"
  | EvMessage _ => "message"
  | EvClose _ _ => "close"
  | EvError => "error"
  end.

(** [event.data]: a message event has it, the other events do not. *)
Definition event_data (ev : Event) : Arg :=
  match ev with
  | EvMessage data => ArgData data
  | _ => ArgUndefined
  end.

(** The body of the closure that [_wrap] returns: the value passed to the
    callback.  An event of type 'error' has neither [code] nor [reason]. *)
Definition wrap_arg (ev : Event) : Arg :=
  if String.eqb (event_type ev) "error" then ArgError None None else event_data ev.

Record Listener := mkListener {
  l_stream : nat;
  l_type : string;
  l_wrapper : nat;
  l_once : bool
}.

Record State := mkState {
  wrapped : gmap nat nat;
  wrappers : list nat;
  listeners : list Listener
}.

Definition same_listener (s : nat) (t : string) (w : nat) (l : Listener) : bool :=
  Nat.eqb s (l_stream l) && String.eqb t (l_type l) && Nat.eqb w (l_wrapper l).

(** [this._wrap(callback)]: a new closure. *)
Definition _wrap (callback : nat) (st : State) : nat * State :=
  (length (wrappers st),
   mkState (wrapped st) (wrappers st ++ [callback]) (listeners st)).

(** [addEventListener(type, wrapper, {once})] on stream [s]: a listener
    that is already in the list is not added again. *)
Definition addEventListener (s : nat) (t : string) (w : nat) (once : bool) (st : State) : State :=
  if existsb (same_listener s t w) (listeners st) then st
  else mkState (wrapped st) (wrappers st) (listeners st ++ [mkListener s t w once]).

Fixpoint remove_first (f : Listener -> bool) (l : list Listener) : list Listener :=
  match l with
  | [] => []
  | x :: r => if f x then r else x :: remove_first f r
  end.

(** [removeEventListener(type, wrapper)] on stream [s] *)
Definition removeEventListener (s : nat) (t : string) (w : nat) (st : State) : State :=
  mkState (wrapped st) (wrappers st) (remove_first (same_listener s t w) (listeners st)).

(** [on(type, callback)] *)
Definition on (s : nat) (t : string) (callback : nat) (st : State) : State :=
  let (w, st1) := _wrap callback st in
  let st2 := mkState (<[callback := w]> (wrapped st1)) (wrappers st1) (listeners st1) in
  addEventListener s t w false st2.

(** [once(type, callback)] *)
Definition once (s : nat) (t : string) (callback : nat) (st : State) : State :=
  let (w, st1) := _wrap callback st in
  addEventListener s t w true st1.

(** [off(type, callback)] *)
Definition off (s : nat) (t : string) (callback : nat) (st : State) : State :=
  match wrapped st !! callback with
  | Some w => removeEventListener s t w st
  | None => st
  end.

Definition matching (s : nat) (ev : Event) (l : Listener) : bool :=
  Nat.eqb s (l_stream l) && String.eqb (event_type ev) (l_type l).

(** [dispatchEvent(ev)] on stream [s]: the callbacks that are called, with
    their argument, in the order of the calls, and the state afterwards (a
    listener added with [once] is removed when it is invoked). *)
Definition dispatchEvent (s : nat) (ev : Event) (st : State) : list (nat * Arg) * State :=
  (flat_map (fun l => if matching s ev l
                      then match wrappers st !! l_wrapper l with
                           | Some cb => [(cb, wrap_arg ev)]
                           | None => []
                           end
                      else []) (listeners st),
   mkState (wrapped st) (wrappers st)
     (List.filter (fun l => negb (matching s ev l && l_once l)) (listeners st))).

(** Every listener is a closure that was created. *)
Definition wf (st : State) : Prop :=
  Forall (fun l => l_wrapper l < length (wrappers st)) (listeners st).

End Listeners.

(** ** The registry of a server

    [server_entry_ok w m (key, v)]: the value is a stream of [w] that
    addChannel of multiplexer [m] registered under [key] and that is not
    closed.  [ServerWF w]: every stream is on a socket of [w]; every
    multiplexer is a server whose registry has one property per key, each
    of them such an entry, below Object.prototype.  [keeps P c]: running
    [c] keeps [P], whatever the outcome. *)
Definition server_entry_ok (w : World) (m : nat) (e : string * Value) : Prop :=
  exists sid s,
    snd e = VStream sid /\
    streams w !! sid = Some s /\
    s_close s = CloseFull m false /\
    s_channel s = Some (fst e).

Definition ServerWF (w : World) : Prop :=
  (forall sid s, streams w !! sid = Some s ->
                 exists k so, s_socket s = Some k /\ sockets w !! k = Some so) /\
  (forall m x, muxers w !! m = Some x ->
               (exists b, role x = Server b) /\
               NoDup (JsObject.keys (channels x)) /\
               Forall (server_entry_ok w m) (channels x) /\
               chan_proto x = Object_prototype).

Definition keeps (P : World -> Prop) {A} (c : M A) : Prop :=
  forall w, P w -> P (snd (c w)).

(** The operations of a process that only runs servers. *)
Definition server_op (op : Op) : bool :=
  match op with
  | OpNewMultiplexSocket _ _ => false
  | _ => true
  end.

(** A process that runs a server (multiplexer 0, accepted socket 0) and a
    client (multiplexer 1, socket 1, transport ready) with one stream that
    waits for its open frame. *)
Definition both_roles_world : World :=
  steps [OpNewMultiplexerServer echo_backends;
         OpConnection 0 "ws://host/";
         OpNewMultiplexSocket "ws://host/echo" NoProtocols;
         OpSocketOpen 1]
        (initial (fun n => nth n ["0.r1"; "0.c1"; "0.c2"] "0.c3")).

(** * Properties *)

(** ** Facts about JavaScript objects *)

Module JsObjectFacts.
Import JsObject.

Section Facts.
Context {V : Type}.
Implicit Types (o : JsObject.t V) (k : string) (v : V).




Lemma keys_delete k k' o :
  In k' (keys (delete k o)) <-> k' <> k /\ In k' (keys o).
Proof.
  induction o as [|[k0 v0] r IH]; simpl; [tauto|].
  destruct (String.eqb k k0) eqn:E.
  - apply String.eqb_eq in E. subst k0. rewrite IH.
    split; [tauto|]. intros [Hne [Heq|Hin]]; [congruence|tauto].
  - apply String.eqb_neq in E. simpl. rewrite IH.
    split; [|tauto]. intros [Heq|[Hne Hin]]; [subst; split; auto; congruence|tauto].
Qed.

Lemma In_delete k k' v o :
  In (k', v) (delete k o) <-> k' <> k /\ In (k', v) o.
Proof.
  induction o as [|[k0 v0] r IH]; simpl; [tauto|].
  destruct (String.eqb k k0) eqn:E.
  - apply String.eqb_eq in E. subst k0. rewrite IH.
    split; [tauto|]. intros [Hne [Heq|Hin]]; [congruence|tauto].
  - apply String.eqb_neq in E. simpl. rewrite IH.
    split; [|tauto].
    intros [Heq|[Hne Hin]]; [inversion Heq; subst; split; auto; congruence|tauto].
Qed.

Lemma get_None_keys k o : get k o = None <-> ~ In k (keys o).
Proof.
  induction o as [|[k0 v0] r IH]; simpl; [tauto|].
  destruct (String.eqb k k0) eqn:E.
  - apply String.eqb_eq in E. subst. split; [discriminate|tauto].
  - apply String.eqb_neq in E. rewrite IH. split; [|tauto].
    intros H [Heq|Hin]; [congruence|tauto].
Qed.

Lemma get_In k v o : get k o = Some v -> In (k, v) o.
Proof.
  induction o as [|[k0 v0] r IH]; simpl; [discriminate|].
  destruct (String.eqb k k0) eqn:E.
  - apply String.eqb_eq in E. intros [= ->]. subst. auto.
  - auto.
Qed.

Lemma In_get k v o : NoDup (keys o) -> In (k, v) o -> get k o = Some v.
Proof.
  induction o as [|[k0 v0] r IH]; simpl; [tauto|].
  intros Hnd [Heq|Hin].
  - inversion Heq; subst. rewrite String.eqb_refl. reflexivity.
  - apply NoDup_cons in Hnd as [Hnotin Hnd].
    destruct (String.eqb k k0) eqn:E.
    + apply String.eqb_eq in E. subst k0. exfalso. apply Hnotin.
      apply list_elem_of_In. change (In k (keys r)).
      unfold keys. apply (in_map fst) in Hin. exact Hin.
    + auto.
Qed.

Lemma get_replace k k' v o :
  get k' (replace k v o) =
    if String.eqb k' k then (match get k o with Some _ => Some v | None => None end)
    else get k' o.
Proof.
  induction o as [|[k0 v0] r IH]; simpl.
  - destruct (String.eqb k' k); reflexivity.
  - destruct (String.eqb k k0) eqn:E; simpl.
    + apply String.eqb_eq in E. subst k0.
      destruct (String.eqb k' k); reflexivity.
    + rewrite IH. destruct (String.eqb k' k) eqn:E'.
      * apply String.eqb_eq in E'. subst k'. rewrite E. reflexivity.
      * reflexivity.
Qed.

Lemma get_insert_index n k k' v o :
  get k o = None ->
  get k' (insert_index n k v o) = if String.eqb k' k then Some v else get k' o.
Proof.
  induction o as [|[k0 v0] r IH]; simpl; [reflexivity|].
  intros Hk. destruct (String.eqb k k0) eqn:Ek; [discriminate|].
  destruct (array_index k0) as [n'|]; [destruct (n <? n')%N|]; simpl;
    try reflexivity.
  rewrite (IH Hk). destruct (String.eqb k' k0) eqn:E0; [|reflexivity].
  destruct (String.eqb k' k) eqn:E; [|reflexivity].
  apply String.eqb_eq in E0, E. subst.
  rewrite String.eqb_refl in Ek. discriminate.
Qed.

Lemma get_app k o1 o2 :
  get k (o1 ++ o2) = match get k o1 with Some v => Some v | None => get k o2 end.
Proof.
  induction o1 as [|[k0 v0] r IH]; simpl; [reflexivity|].
  destruct (String.eqb k k0); [reflexivity|exact IH].
Qed.

(** Reading after [o[k] = v]. *)
Lemma get_set k k' v o :
  get k' (set k v o) = if String.eqb k' k then Some v else get k' o.
Proof.
  unfold set, has. destruct (get k o) as [v0|] eqn:Hk.
  - rewrite get_replace, Hk. reflexivity.
  - destruct (array_index k) as [n|].
    + apply get_insert_index. exact Hk.
    + rewrite get_app. simpl.
      destruct (String.eqb k' k) eqn:E.
      * apply String.eqb_eq in E. subst k'. rewrite Hk. reflexivity.
      * destruct (get k' o); reflexivity.
Qed.

Lemma get_set_eq k v o : get k (set k v o) = Some v.
Proof. rewrite get_set, String.eqb_refl. reflexivity. Qed.


Lemma delete_absent k o : get k o = None -> delete k o = o.
Proof.
  induction o as [|[k0 v0] r IH]; simpl; [reflexivity|].
  destruct (String.eqb k k0); [discriminate|].
  intros H. rewrite (IH H). reflexivity.
Qed.

Lemma NoDup_keys_delete k o : NoDup (keys o) -> NoDup (keys (delete k o)).
Proof.
  induction o as [|[k0 v0] r IH]; simpl; [auto|].
  intros Hnd. apply NoDup_cons in Hnd as [Hnotin Hnd].
  destruct (String.eqb k k0); [auto|].
  simpl. apply NoDup_cons. split; [|auto].
  rewrite list_elem_of_In. rewrite list_elem_of_In in Hnotin.
  change (~ In k0 (keys (delete k r))). rewrite keys_delete. tauto.
Qed.

End Facts.
End JsObjectFacts.

(** ** Running monadic code symbolically *)

Ltac unfold_monad :=
  unfold exec, result, console_error, effect, emit, socket_send, the_stream,
    the_socket, the_muxer, deref, update_channels, update_muxer, update_stream,
    update_socket, get_world, modify, throw, ret, bind, try_catch in *.

Ltac unfold_world :=
  unfold set_sockets, set_streams, set_muxers, set_registry, set_drawn,
    set_trace in *; simpl in *.

(** Case analysis on the first lookup that a match of the goal inspects. *)
Ltac case_lookup :=
  match goal with
  | |- context [match ?l !! ?k with _ => _ end] =>
      let E := fresh "Hlookup" in destruct (l !! k) eqn:E
  end.

Lemma inherited_length (k : string) : JsObject.inherited k = true -> 7 <= String.length k.
Proof.
  unfold JsObject.inherited, JsObject.prototype_members. simpl.
  repeat match goal with
         | |- context [String.eqb k ?c] =>
             destruct (String.eqb_spec k c) as [->|_]; [intros _; simpl; lia|]
         end.
  discriminate.
Qed.

Lemma substring_length (n m : nat) (s : string) :
  String.length (String.substring n m s) <= m.
Proof.
  revert n m. induction s as [|c s IH]; intros [|n] [|m]; simpl; try lia.
  - specialize (IH 0 m). lia.
  - apply (IH n 0).
  - apply (IH n (S m)).
Qed.

(** An id of [randomId] has at most five characters: it is no name of a
    member of Object.prototype. *)
Lemma random_length (w : World) (n : nat) : String.length (random w n) <= 5.
Proof. unfold random. apply substring_length. Qed.

Lemma random_not_inherited (w : World) (n : nat) : JsObject.inherited (random w n) = false.
Proof.
  destruct (JsObject.inherited (random w n)) eqn:E; [|reflexivity].
  apply inherited_length in E. pose proof (random_length w n). lia.
Qed.

Lemma random_not_proto (w : World) (n : nat) : String.eqb (random w n) "__proto__" = false.
Proof.
  apply String.eqb_neq. intros E. pose proof (random_length w n) as H.
  rewrite E in H. simpl in H. lia.
Qed.

(** Assignment of a key other than [__proto__], for instance of an id of
    [randomId]. *)
Lemma channels_set_own (key : string) (v : Value) (x : Muxer) :
  String.eqb key "__proto__" = false ->
  channels_set key v x = mkMuxer (JsObject.set key v (channels x)) (role x) (chan_proto x).
Proof. intros H. unfold channels_set. rewrite H. reflexivity. Qed.

Lemma channels_set_random (w : World) (n : nat) (v : Value) (x : Muxer) :
  channels_set (random w n) v x
  = mkMuxer (JsObject.set (random w n) v (channels x)) (role x) (chan_proto x).
Proof. apply channels_set_own, random_not_proto. Qed.

Lemma channels_get_own (key : string) (v : Value) (x : Muxer) :
  JsObject.get key (channels x) = Some v -> channels_get key x = v.
Proof. intros H. unfold channels_get. rewrite H. reflexivity. Qed.





(** ** C8: a connect message for an unknown backend *)

(** C8.  The backends table of the server has the one key "echo".  A
    connect message whose url ends in "toString", which is no key of the
    table, is not dropped: [this.backends[id]] finds the function of that
    name on Object.prototype, and the handler draws the id "c1", sends the
    open frame for it, creates a stream on the socket, registers it and
    delivers the open event; "backend not found" is not logged. *)
Theorem C8_inherited_name_is_served :
  echo_backends !! "toString" = None /\
  server_onmessage 0 0 (Some (ConnectMessage "r1" "ws://host/toString")) C8_world
  = (Ok tt,
     mkWorld (sockets C8_world)
       [mkStream (Some 0) (Some "c1") "ws://host/" (CloseFull 0 false)]
       [mkMuxer [("c1", VStream 0)] (Server echo_backends) Object_prototype]
       (registry C8_world) (rendered C8_world) 1
       [SocketSend 0 (OpenMessage "c1" "r1"); Emit 0 EvOpen]).
Proof.
  split; vm_compute; reflexivity.
Qed.

(** ** The close function installed by addChannel *)

Lemma close_full (w : World) (sid m k : nat) (s : Stream) (so : Socket) (c : string)
    (code : option Z) (reason : option string) :
  streams w !! sid = Some s ->
  s_close s = CloseFull m false ->
  s_socket s = Some k ->
  s_channel s = Some c ->
  sockets w !! k = Some so ->
  close sid code reason w = (Ok tt, after_close sid s m k so c code reason w).
Proof.
  intros Hs Hc Hk Hch Hso.
  unfold close. unfold_monad. rewrite Hs, Hc. simpl.
  rewrite Hk, Hch. unfold_world. rewrite Hs, Hso. simpl.
  unfold after_close, close_effects. rewrite Hk, Hch.
  destruct (is_OPEN (readyState so)); unfold_world;
    rewrite <- ?app_assoc; reflexivity.
Qed.

Lemma close_full_closed (w : World) (sid m : nat) (s : Stream)
    (code : option Z) (reason : option string) :
  streams w !! sid = Some s ->
  s_close s = CloseFull m true ->
  close sid code reason w = (Ok tt, w).
Proof.
  intros Hs Hc. unfold close. unfold_monad. rewrite Hs, Hc. reflexivity.
Qed.

Lemma close_temp (w : World) (sid m : nat) (s : Stream) (ref : string)
    (code : option Z) (reason : option string) :
  streams w !! sid = Some s ->
  s_close s = CloseTemp m ref ->
  close sid code reason w
  = (Ok tt, set_muxers (fun l => match l !! m with
                                 | Some x => <[m := mkMuxer (JsObject.delete ref (channels x))
                                                      (role x) (chan_proto x)]> l
                                 | None => l
                                 end) w).
Proof.
  intros Hs Hc. unfold close. unfold_monad. rewrite Hs, Hc. reflexivity.
Qed.

(** ** C1: sending on a closed stream *)

(** C1.  On a server stream that was registered under channel "c1" and then
    closed, [send] still hands a data frame to the socket: the guard of
    [send] tests [channel], which the close function never clears. *)
Theorem C1_send_after_close_transmits :
  (exists s, streams C1_world !! 0 = Some s /\ s_close s = CloseFull 0 true) /\
  send 0 "hi" C1_world
  = (Ok tt, set_trace (fun t => t ++ [SocketSend 0 (DataMessage "c1" "hi")]) C1_world).
Proof.
  split.
  - eexists. split; reflexivity.
  - reflexivity.
Qed.

(** ** C4: closing twice *)






(** ** C3: a close frame from the peer, then a data frame *)

Lemma handleChannelMessage_hit (w : World) (m sid : nat) (x : Muxer)
    (msg : MultiplexMessage) (X : string) :
  muxers w !! m = Some x ->
  msg_channel msg = Some X ->
  truthy X = true ->
  channels_get X x = VStream sid ->
  handleChannelMessage m msg w = handleMessage sid msg w.
Proof.
  intros Hm Hmsg HX Hget. unfold handleChannelMessage.
  rewrite Hmsg. simpl. rewrite HX. simpl.
  unfold_monad. rewrite Hm, Hget. reflexivity.
Qed.


Lemma handleChannelMessage_inherited (w : World) (m : nat) (x : Muxer)
    (msg : MultiplexMessage) (X name : string) :
  muxers w !! m = Some x ->
  msg_channel msg = Some X ->
  truthy X = true ->
  channels_get X x = VInherited name ->
  handleChannelMessage m msg w = (Throw TypeError, w).
Proof.
  intros Hm Hmsg HX Hget. unfold handleChannelMessage.
  rewrite Hmsg. simpl. rewrite HX. simpl.
  unfold_monad. rewrite Hm, Hget. reflexivity.
Qed.

(** A data or close frame with a non-empty channel goes from the message
    handler of the socket, in either role, to [handleChannelMessage]. *)
Lemma socket_message_channel (w : World) (k m : nat) (so : Socket) (x : Muxer)
    (msg : MultiplexMessage) (X : string) :
  sockets w !! k = Some so ->
  so_owner so = Some m ->
  muxers w !! m = Some x ->
  msg_channel msg = Some X ->
  truthy X = true ->
  (forall c r, msg <> OpenMessage c r) ->
  socket_message k (Some msg) w
  = try_catch (handleChannelMessage m msg)
              (console_error "Failed to parse multiplexer message:") w.
Proof.
  intros Hso Hown Hm Hmsg HX Hopen.
  unfold socket_message, owner, bind at 1. rewrite Hso, Hown.
  unfold the_muxer, deref, bind at 1. rewrite Hm.
  destruct msg as [r b|c r|c cd rs|c d]; try discriminate.
  - exfalso. eapply Hopen. reflexivity.
  - destruct (role x); unfold client_onmessage, server_onmessage; simpl;
      simpl in Hmsg; injection Hmsg as ->; rewrite HX; reflexivity.
  - destruct (role x); unfold client_onmessage, server_onmessage; simpl;
      simpl in Hmsg; injection Hmsg as ->; rewrite HX; reflexivity.
Qed.




(** ** Monotonicity of the pool and of the multiplexers *)

Lemma role_le_refl (r : Role) : role_le r r.
Proof. destruct r; simpl; auto. Qed.

Lemma role_le_trans (r1 r2 r3 : Role) : role_le r1 r2 -> role_le r2 r3 -> role_le r1 r3.
Proof.
  destruct r1, r2, r3; simpl; try tauto; try congruence.
  intros (-> & -> & H1) (-> & -> & H2). auto.
Qed.

Lemma extends_refl (w : World) : extends w w.
Proof.
  split; [auto|]. intros m x H. exists x. split; [exact H|apply role_le_refl].
Qed.

Lemma extends_trans (w1 w2 w3 : World) : extends w1 w2 -> extends w2 w3 -> extends w1 w3.
Proof.
  intros [Hr1 Hm1] [Hr2 Hm2]. split; [auto|].
  intros m x H. destruct (Hm1 m x H) as (x2 & H2 & Hle2).
  destruct (Hm2 m x2 H2) as (x3 & H3 & Hle3).
  exists x3. split; [exact H3|]. eapply role_le_trans; eauto.
Qed.

Lemma extends_same (w w' : World) :
  registry w' = registry w -> muxers w' = muxers w -> extends w w'.
Proof.
  intros Hr Hm. split; [rewrite Hr; auto|].
  intros m x H. exists x. rewrite Hm. split; [exact H|apply role_le_refl].
Qed.

Lemma extends_update_muxer (w : World) (m : nat) (f : Muxer -> Muxer) :
  (forall x, muxers w !! m = Some x -> role_le (role x) (role (f x))) ->
  extends w (snd (update_muxer m f w)).
Proof.
  intros Hf. unfold update_muxer, modify. simpl. split; [auto|].
  intros m' x' H. simpl.
  destruct (muxers w !! m) as [x|] eqn:Hm.
  - destruct (decide (m = m')) as [->|Hne].
    + exists (f x). rewrite list_lookup_insert_eq by (eapply lookup_lt_Some; eauto).
      split; [reflexivity|]. rewrite Hm in H. injection H as <-. apply Hf. reflexivity.
    + exists x'. rewrite list_lookup_insert_ne by exact Hne.
      split; [exact H|apply role_le_refl].
  - exists x'. split; [exact H|apply role_le_refl].
Qed.

Lemma mono_ret {A} (a : A) : mono (ret a).
Proof. intros w. apply extends_refl. Qed.

Lemma mono_throw {A} (e : Exn) : mono (@throw A e).
Proof. intros w. apply extends_refl. Qed.

Lemma mono_bind {A B} (c : M A) (k : A -> M B) :
  mono c -> (forall a, mono (k a)) -> mono (bind c k).
Proof.
  intros Hc Hk w. unfold bind. specialize (Hc w).
  destruct (c w) as [[a|e] w1]; simpl in *; [|exact Hc].
  eapply extends_trans; [exact Hc|apply Hk].
Qed.

Lemma mono_forEach {A} (f : A -> M unit) (l : list A) :
  (forall a, mono (f a)) -> mono (forEach f l).
Proof.
  intros Hf. induction l as [|a r IH]; simpl.
  - apply mono_ret.
  - apply mono_bind; [apply Hf|intros _; exact IH].
Qed.

Lemma mono_deref {A} (store : World -> list A) (r : nat) : mono (deref store r).
Proof.
  intros w. unfold deref. destruct (store w !! r); apply extends_refl.
Qed.

Lemma mono_try_catch (c h : M unit) : mono c -> mono h -> mono (try_catch c h).
Proof.
  intros Hc Hh w. unfold try_catch. specialize (Hc w).
  destruct (c w) as [[a|e] w1]; simpl in *; [exact Hc|].
  eapply extends_trans; [exact Hc|apply Hh].
Qed.

Lemma mono_get_world : mono get_world.
Proof. intros w. apply extends_refl. Qed.

Lemma mono_effect (e : Effect) : mono (effect e).
Proof. intros w. apply extends_same; reflexivity. Qed.

Lemma mono_update_stream (sid : nat) (f : Stream -> Stream) : mono (update_stream sid f).
Proof. intros w. apply extends_same; reflexivity. Qed.

Lemma mono_update_socket (k : nat) (f : Socket -> Socket) : mono (update_socket k f).
Proof. intros w. apply extends_same; reflexivity. Qed.

Lemma mono_update_channels (m : nat) f : mono (update_channels m f).
Proof.
  intros w. unfold update_channels. apply extends_update_muxer.
  intros x _. apply role_le_refl.
Qed.

Lemma role_channels_set (key : string) (v : Value) (x : Muxer) :
  role (channels_set key v x) = role x.
Proof.
  unfold channels_set.
  destruct (String.eqb key "__proto__" && negb (JsObject.has key (channels x)));
    [destruct v|]; reflexivity.
Qed.

Lemma mono_channels_set (m : nat) (key : string) (v : Value) :
  mono (update_muxer m (channels_set key v)).
Proof.
  intros w. apply extends_update_muxer.
  intros x _. rewrite role_channels_set. apply role_le_refl.
Qed.

Lemma mono_randomId : mono randomId.
Proof. intros w. apply extends_same; reflexivity. Qed.

Lemma mono_owner (k : nat) : mono (owner k).
Proof. intros w. unfold owner. destruct (sockets w !! k); apply extends_refl. Qed.

Lemma mono_set_pending_None (m : nat) : mono (set_pending m None).
Proof.
  intros w. unfold set_pending. apply extends_update_muxer.
  intros [ch [k p u|b]] _; simpl; auto.
Qed.

Lemma mono_add_socket (s : Socket) : mono (modify (set_sockets (fun l => l ++ [s]))).
Proof. intros w. apply extends_same; reflexivity. Qed.

Lemma mono_add_stream (s : Stream) : mono (modify (set_streams (fun l => l ++ [s]))).
Proof. intros w. apply extends_same; reflexivity. Qed.

Lemma mono_add_muxer (x : Muxer) : mono (modify (set_muxers (fun l => l ++ [x]))).
Proof.
  intros w. split; [auto|]. intros m x' H. exists x'. simpl.
  rewrite lookup_app_l by (eapply lookup_lt_Some; eauto).
  split; [exact H|apply role_le_refl].
Qed.

(** The steps of a proof that a function is monotone. *)
Ltac mono_step :=
  first
    [ apply mono_bind; [|intros ?]
    | apply mono_ret
    | apply mono_throw
    | apply mono_forEach; intros ?
    | apply mono_try_catch
    | apply mono_deref
    | apply mono_get_world
    | apply mono_effect
    | apply mono_update_stream
    | apply mono_update_socket
    | apply mono_update_channels
    | apply mono_channels_set
    | apply mono_randomId
    | apply mono_owner
    | apply mono_set_pending_None
    | apply mono_add_socket
    | apply mono_add_stream
    | apply mono_add_muxer
    | assumption
    | match goal with
      | |- mono (match ?x with _ => _ end) => destruct x
      | |- mono (if ?b then _ else _) => destruct b
      | |- mono (let (_, _) := ?x in _) => destruct x
      end ].

Ltac mono_tac :=
  unfold console_error, emit_value, emit_transport_event, emit, socket_send,
    the_stream, the_socket, the_muxer;
  repeat mono_step.

Lemma mono_close sid code reason : mono (close sid code reason).
Proof. unfold close. mono_tac. Qed.

Lemma mono_send sid data : mono (send sid data).
Proof. unfold send. mono_tac. Qed.

Lemma mono_handleMessage sid msg : mono (handleMessage sid msg).
Proof. unfold handleMessage. destruct msg; mono_tac; try apply mono_close. Qed.

Lemma mono_addChannel m sock channel : mono (addChannel m sock channel).
Proof. unfold addChannel. mono_tac. Qed.

Lemma mono_onclose m code reason : mono (onclose m code reason).
Proof. unfold onclose, close_value. mono_tac; apply mono_close. Qed.

Lemma mono_onerror m : mono (onerror m).
Proof. unfold onerror. mono_tac. Qed.

Lemma mono_wireDefaultEvents m k : mono (wireDefaultEvents m k).
Proof. unfold wireDefaultEvents. mono_tac. Qed.

Lemma mono_handleChannelMessage m msg : mono (handleChannelMessage m msg).
Proof. unfold handleChannelMessage. mono_tac; apply mono_handleMessage. Qed.

Lemma mono_client_fields m : mono (client_fields m).
Proof. unfold client_fields. mono_tac. Qed.

Lemma mono_connect m sid : mono (connect m sid).
Proof.
  unfold connect. do 4 (apply mono_bind; [mono_tac|intros ?]).
  intros w. unfold client_fields, the_muxer, deref, bind.
  destruct (muxers w !! m) as [x|] eqn:Hm; [|apply extends_refl].
  destruct (role x) as [k [q|] u|b] eqn:Hr; simpl.
  - unfold set_pending. apply extends_update_muxer.
    intros x' Hx'. rewrite Hm in Hx'. injection Hx' as <-.
    rewrite Hr. simpl. split; [reflexivity|]. split; [reflexivity|discriminate].
  - apply extends_same; reflexivity.
  - apply extends_refl.
Qed.

Lemma mono_new_MultiplexerClient url protocols : mono (new_MultiplexerClient url protocols).
Proof. unfold new_MultiplexerClient. mono_tac. Qed.

Lemma new_MultiplexerClient_registry url protocols (w : World) :
  registry (snd (new_MultiplexerClient url protocols w)) = registry w.
Proof.
  unfold new_MultiplexerClient, wireDefaultEvents. unfold_monad. unfold_world.
  reflexivity.
Qed.

Lemma mono_getMuxer url protocols : mono (getMuxer url protocols).
Proof.
  unfold getMuxer. intros w. unfold bind at 1. unfold get_world at 1.
  set (id := (url ++ protocols_toString protocols)%string).
  match goal with |- extends w (snd (bind ?c ?k w)) => set (c1 := c) end.
  assert (Hfirst : extends w (snd (c1 w))).
  { subst c1. unfold pool_get.
    destruct (registry w !! id) eqn:Hid; [apply extends_refl|].
    destruct (JsObject.inherited id); [apply extends_refl|].
    unfold bind. pose proof (mono_new_MultiplexerClient url protocols w) as Hnew.
    pose proof (new_MultiplexerClient_registry url protocols w) as Hreg.
    destruct (new_MultiplexerClient url protocols w) as [[m|e] w1];
      simpl in *; [|exact Hnew].
    eapply extends_trans; [exact Hnew|].
    split.
    - intros id' m' H. simpl. destruct (decide (id = id')) as [<-|Hne].
      + rewrite Hreg, Hid in H. discriminate.
      + rewrite lookup_insert_ne by exact Hne. exact H.
    - intros m' x' H. exists x'. split; [exact H|apply role_le_refl]. }
  unfold bind. destruct (c1 w) as [[[]|e] w1]; simpl in *; [|exact Hfirst].
  unfold get_world. destruct (pool_get id w1); exact Hfirst.
Qed.

Lemma mono_new_MultiplexSocket url protocols : mono (new_MultiplexSocket url protocols).
Proof.
  unfold new_MultiplexSocket.
  apply mono_bind; [apply mono_getMuxer|intros [m|name]]; [|apply mono_throw].
  apply mono_bind; [apply mono_client_fields|intros ?].
  apply mono_bind; [mono_tac|intros ?].
  apply mono_bind; [mono_tac|intros ?].
  apply mono_bind; [apply mono_connect|intros ?].
  apply mono_ret.
Qed.

Lemma mono_client_onopen m : mono (client_onopen m).
Proof.
  unfold client_onopen.
  apply mono_bind; [apply mono_client_fields|intros [[k p] u]].
  apply mono_bind; [destruct p; mono_tac|intros ?].
  apply mono_set_pending_None.
Qed.

Lemma mono_handleOpenMessage m msg : mono (handleOpenMessage m msg).
Proof.
  unfold handleOpenMessage. destruct msg; try (mono_tac; fail).
  apply mono_bind; [mono_tac|intros ?].
  apply mono_bind; [mono_tac|intros ?].
  apply mono_bind; [mono_tac|intros ?].
  apply mono_bind; [apply mono_addChannel|intros ?].
  mono_tac.
Qed.

Lemma mono_client_onmessage m data : mono (client_onmessage m data).
Proof.
  unfold client_onmessage. apply mono_try_catch; [|mono_tac].
  destruct data as [msg|]; [|mono_tac].
  destruct (String.eqb (msg_type msg) "open"); [apply mono_handleOpenMessage|].
  destruct (truthy_opt (msg_channel msg)); [apply mono_handleChannelMessage|mono_tac].
Qed.

Lemma mono_new_MultiplexerServer backends : mono (new_MultiplexerServer backends).
Proof. unfold new_MultiplexerServer. mono_tac. Qed.

Lemma mono_connection m url : mono (connection m url).
Proof. unfold connection. mono_tac. Qed.

Lemma mono_new_ServerMultiplexSocket socket : mono (new_ServerMultiplexSocket socket).
Proof. unfold new_ServerMultiplexSocket. mono_tac. Qed.

Lemma mono_handleConnectMessage m msg socket : mono (handleConnectMessage m msg socket).
Proof.
  unfold handleConnectMessage, handleConnectMessage_with, new_ServerMultiplexSocket,
    addChannel, call_inherited.
  destruct msg; mono_tac.
Qed.

Lemma mono_server_onmessage m socket data : mono (server_onmessage m socket data).
Proof.
  unfold server_onmessage. apply mono_try_catch; [|mono_tac].
  destruct data as [msg|]; [|mono_tac].
  destruct (String.eqb (msg_type msg) "connect"); [apply mono_handleConnectMessage|].
  destruct (truthy_opt (msg_channel msg)); [apply mono_handleChannelMessage|mono_tac].
Qed.

Lemma mono_run op : mono (run op).
Proof.
  destruct op; simpl.
  - apply mono_bind; [apply mono_new_MultiplexSocket|intros ?; apply mono_ret].
  - apply mono_bind; [apply mono_new_MultiplexerServer|intros ?; apply mono_ret].
  - apply mono_bind; [mono_tac|intros x]. destruct (role x); [apply mono_ret|].
    apply mono_bind; [apply mono_connection|intros ?; apply mono_ret].
  - apply mono_send.
  - apply mono_close.
  - unfold socket_open, set_readyState.
    apply mono_bind; [mono_tac|intros ?].
    apply mono_bind; [mono_tac|intros [m'|]]; [|apply mono_ret].
    apply mono_bind; [mono_tac|intros x].
    destruct (role x); [apply mono_client_onopen|apply mono_ret].
  - unfold socket_message.
    apply mono_bind; [mono_tac|intros [m'|]]; [|apply mono_ret].
    apply mono_bind; [mono_tac|intros x].
    destruct (role x); [apply mono_client_onmessage|apply mono_server_onmessage].
  - unfold socket_close, set_readyState.
    apply mono_bind; [mono_tac|intros ?].
    apply mono_bind; [mono_tac|intros [m'|]]; [apply mono_onclose|apply mono_ret].
  - unfold socket_error.
    apply mono_bind; [mono_tac|intros [m'|]]; [apply mono_onerror|apply mono_ret].
Qed.

Lemma extends_step op (w : World) : extends w (step op w).
Proof. apply mono_run. Qed.

Lemma extends_steps ops (w : World) : extends w (steps ops w).
Proof.
  revert w. induction ops as [|op r IH]; intros w; simpl.
  - apply extends_refl.
  - eapply extends_trans; [apply extends_step|apply IH].
Qed.

(** ** The pool of clients *)

Lemma getMuxer_hit (w : World) (url : string) (protocols : Protocols) (m : nat) :
  registry w !! (url ++ protocols_toString protocols)%string = Some m ->
  getMuxer url protocols w = (Ok (PoolClient m), w).
Proof.
  intros H. unfold getMuxer, pool_get. unfold_monad. rewrite H. simpl. rewrite H.
  reflexivity.
Qed.

Lemma getMuxer_inherited (w : World) (url : string) (protocols : Protocols) :
  registry w !! (url ++ protocols_toString protocols)%string = None ->
  JsObject.inherited (url ++ protocols_toString protocols) = true ->
  getMuxer url protocols w
  = (Ok (PoolInherited (url ++ protocols_toString protocols)), w).
Proof.
  intros H Hi. unfold getMuxer, pool_get. unfold_monad. rewrite H, Hi. simpl.
  rewrite ?H, ?Hi. reflexivity.
Qed.

Lemma lookup_snoc {A} (l : list A) (x : A) : (l ++ [x]) !! length l = Some x.
Proof. rewrite lookup_app_r by lia. rewrite Nat.sub_diag. reflexivity. Qed.

Lemma insert_snoc {A} (l : list A) (x y : A) : <[length l := y]> (l ++ [x]) = l ++ [y].
Proof.
  rewrite insert_app_r_alt by lia. rewrite Nat.sub_diag. reflexivity.
Qed.

(** A key that is neither in the pool nor the name of a member of
    Object.prototype: a client and its socket are created and pooled. *)
Lemma getMuxer_miss (w : World) (url : string) (protocols : Protocols) :
  registry w !! (url ++ protocols_toString protocols)%string = None ->
  JsObject.inherited (url ++ protocols_toString protocols) = false ->
  getMuxer url protocols w
  = (Ok (PoolClient (length (muxers w))),
     mkWorld (sockets w ++ [mkSocket CONNECTING (if truthy url then url else "/")
                              (Some (length (muxers w)))])
       (streams w)
       (muxers w ++ [mkMuxer [] (Client (length (sockets w)) (Some [])
                                   (if truthy url then url else "/")) Object_prototype])
       (<[(url ++ protocols_toString protocols)%string := length (muxers w)]> (registry w))
       (rendered w) (drawn w)
       (trace w ++ [NewWebSocket (length (sockets w)) (if truthy url then url else "/")
                      protocols])).
Proof.
  intros H Hi.
  unfold getMuxer, pool_get, new_MultiplexerClient, wireDefaultEvents.
  unfold_monad. unfold_world. rewrite H, Hi. simpl.
  rewrite lookup_snoc, insert_snoc, lookup_insert_eq. reflexivity.
Qed.

(** [connect] while the transport is not ready: the frame is queued. *)
Lemma connect_queued (w : World) (m k sid : nat) (x : Muxer) (s : Stream)
    (q : list MultiplexMessage) (u : string) :
  muxers w !! m = Some x ->
  role x = Client k (Some q) u ->
  streams w !! sid = Some s ->
  connect m sid w
  = (Ok tt,
     mkWorld (sockets w)
       (<[sid := mkStream (s_socket s) (s_channel s) (s_url s)
                   (CloseTemp m (random w (drawn w)))]> (streams w))
       (<[m := mkMuxer (JsObject.set (random w (drawn w)) (VStream sid) (channels x))
                 (Client k (Some (q ++ [ConnectMessage (random w (drawn w)) (s_url s)])) u)
                 (chan_proto x)]>
          (muxers w))
       (registry w) (rendered w) (S (drawn w)) (trace w)).
Proof.
  intros Hm Hrole Hs.
  assert (Hlt : m < length (muxers w)) by (eapply lookup_lt_Some; eauto).
  assert (Hlts : sid < length (streams w)) by (eapply lookup_lt_Some; eauto).
  unfold connect, randomId, client_fields, set_pending. unfold_monad. unfold_world.
  repeat first
    [ rewrite Hm | rewrite Hrole | rewrite Hs
    | rewrite channels_set_random
    | rewrite list_lookup_insert_eq by (rewrite ?length_insert; assumption)
    | rewrite list_insert_insert_eq
    | progress simpl ].
  reflexivity.
Qed.

(** [connect] once [pending] is undefined: the frame is sent at once. *)
Lemma connect_ready (w : World) (m k sid : nat) (x : Muxer) (s : Stream) (u : string) :
  muxers w !! m = Some x ->
  role x = Client k None u ->
  streams w !! sid = Some s ->
  connect m sid w
  = (Ok tt,
     mkWorld (sockets w)
       (<[sid := mkStream (s_socket s) (s_channel s) (s_url s)
                   (CloseTemp m (random w (drawn w)))]> (streams w))
       (<[m := mkMuxer (JsObject.set (random w (drawn w)) (VStream sid) (channels x))
                 (Client k None u) (chan_proto x)]> (muxers w))
       (registry w) (rendered w) (S (drawn w))
       (trace w ++ [SocketSend k (ConnectMessage (random w (drawn w)) (s_url s))])).
Proof.
  intros Hm Hrole Hs.
  assert (Hlt : m < length (muxers w)) by (eapply lookup_lt_Some; eauto).
  assert (Hlts : sid < length (streams w)) by (eapply lookup_lt_Some; eauto).
  unfold connect, randomId, client_fields, set_pending. unfold_monad. unfold_world.
  repeat first
    [ rewrite Hm | rewrite Hrole | rewrite Hs
    | rewrite channels_set_random
    | rewrite list_lookup_insert_eq by (rewrite ?length_insert; assumption)
    | progress simpl ].
  rewrite <- Hrole. reflexivity.
Qed.

(** The constructor up to the call of [connect], for a client [m]. *)
Lemma new_MultiplexSocket_client (w w1 : World) (url : string) (protocols : Protocols)
    (m k : nat) (x : Muxer) (pend : option (list MultiplexMessage)) (u : string) :
  getMuxer (substring_to (lastIndexOf "/" url) url) protocols w = (Ok (PoolClient m), w1) ->
  muxers w1 !! m = Some x ->
  role x = Client k pend u ->
  new_MultiplexSocket url protocols w
  = (let* _ := connect m (length (streams w1)) in ret (length (streams w1)))
      (set_streams (fun l => l ++ [mkStream (Some k) None url CloseBase]) w1).
Proof.
  intros Hget Hm Hrole. unfold new_MultiplexSocket. unfold bind at 1. rewrite Hget.
  unfold client_fields, the_muxer, deref. unfold bind at 1. unfold bind at 1.
  rewrite Hm, Hrole. unfold ret at 1. unfold bind at 1. unfold get_world at 1.
  unfold bind at 1. unfold modify at 1. reflexivity.
Qed.

(** The world after a stream was requested against a key of the pool. *)
Lemma new_MultiplexSocket_hit_world (w : World) (url : string) (protocols : Protocols)
    (m k : nat) (x : Muxer) (pend : option (list MultiplexMessage)) (u : string) :
  registry w !! (substring_to (lastIndexOf "/" url) url ++ protocols_toString protocols)%string
  = Some m ->
  muxers w !! m = Some x ->
  role x = Client k pend u ->
  new_MultiplexSocket url protocols w
  = (Ok (length (streams w)),
     mkWorld (sockets w)
       (streams w ++ [mkStream (Some k) None url (CloseTemp m (random w (drawn w)))])
       (<[m := mkMuxer (JsObject.set (random w (drawn w)) (VStream (length (streams w)))
                          (channels x))
                 (Client k
                    (match pend with
                     | Some q => Some (q ++ [ConnectMessage (random w (drawn w)) url])
                     | None => None
                     end) u) (chan_proto x)]> (muxers w))
       (registry w) (rendered w) (S (drawn w))
       (trace w ++ match pend with
                   | None => [SocketSend k (ConnectMessage (random w (drawn w)) url)]
                   | Some _ => []
                   end)).
Proof.
  intros Hreg Hm Hrole.
  rewrite (new_MultiplexSocket_client w w url protocols m k x pend u
             (getMuxer_hit _ _ _ m Hreg) Hm Hrole).
  set (W0 := set_streams (fun l => l ++ [mkStream (Some k) None url CloseBase]) w).
  assert (Hs0 : streams W0 !! length (streams w)
                = Some (mkStream (Some k) None url CloseBase)) by apply lookup_snoc.
  unfold bind. destruct pend as [q|].
  - rewrite (connect_queued W0 m k _ x _ q u Hm Hrole Hs0).
    unfold ret. simpl. rewrite insert_snoc, app_nil_r. reflexivity.
  - rewrite (connect_ready W0 m k _ x _ u Hm Hrole Hs0).
    unfold ret. simpl. rewrite insert_snoc. reflexivity.
Qed.

(** A stream requested against a key that is in the pool. *)
Lemma new_MultiplexSocket_hit (w : World) (url : string) (protocols : Protocols)
    (m k : nat) (x : Muxer) (pend : option (list MultiplexMessage)) (u : string) :
  registry w !! (substring_to (lastIndexOf "/" url) url ++ protocols_toString protocols)%string
  = Some m ->
  muxers w !! m = Some x ->
  role x = Client k pend u ->
  exists w',
    new_MultiplexSocket url protocols w = (Ok (length (streams w)), w') /\
    sockets w' = sockets w /\
    registry w' = registry w /\
    streams w' = streams w ++ [mkStream (Some k) None url (CloseTemp m (random w (drawn w)))] /\
    trace w' = trace w ++ match pend with
                          | None => [SocketSend k (ConnectMessage (random w (drawn w)) url)]
                          | Some _ => []
                          end.
Proof.
  intros Hreg Hm Hrole. eexists. split.
  - apply (new_MultiplexSocket_hit_world w url protocols m k x pend u Hreg Hm Hrole).
  - simpl. auto.
Qed.

(** A stream requested against a key that is neither in the pool nor the
    name of a member of Object.prototype: a client and its socket are
    created, and the connect frame is queued. *)
Lemma new_MultiplexSocket_miss (w : World) (url : string) (protocols : Protocols) :
  registry w !! (substring_to (lastIndexOf "/" url) url ++ protocols_toString protocols)%string
  = None ->
  JsObject.inherited (substring_to (lastIndexOf "/" url) url ++ protocols_toString protocols)
  = false ->
  exists w' this_url,
    new_MultiplexSocket url protocols w = (Ok (length (streams w)), w') /\
    registry w' = <[(substring_to (lastIndexOf "/" url) url
                     ++ protocols_toString protocols)%string := length (muxers w)]> (registry w) /\
    muxers w' = muxers w
                ++ [mkMuxer (JsObject.set (random w (drawn w)) (VStream (length (streams w))) [])
                      (Client (length (sockets w))
                         (Some [ConnectMessage (random w (drawn w)) url]) this_url)
                      Object_prototype] /\
    sockets w' = sockets w ++ [mkSocket CONNECTING this_url (Some (length (muxers w)))] /\
    streams w' = streams w ++ [mkStream (Some (length (sockets w))) None url
                                 (CloseTemp (length (muxers w)) (random w (drawn w)))] /\
    trace w' = trace w ++ [NewWebSocket (length (sockets w)) this_url protocols].
Proof.
  intros Hreg Hinh.
  pose proof (getMuxer_miss w _ protocols Hreg Hinh) as Hget.
  match type of Hget with _ = (_, ?w1) => set (W1 := w1) in * end.
  set (this_url := if truthy (substring_to (lastIndexOf "/" url) url)
                   then substring_to (lastIndexOf "/" url) url else "/") in *.
  assert (Hm1 : muxers W1 !! length (muxers w)
                = Some (mkMuxer [] (Client (length (sockets w)) (Some []) this_url)
                          Object_prototype))
    by apply lookup_snoc.
  rewrite (new_MultiplexSocket_client w W1 url protocols _ _ _ _ _ Hget Hm1 eq_refl).
  change (length (streams W1)) with (length (streams w)).
  set (W0 := set_streams (fun l => l ++ [mkStream (Some (length (sockets w))) None url
                                           CloseBase]) W1).
  assert (Hs0 : streams W0 !! length (streams w)
                = Some (mkStream (Some (length (sockets w))) None url CloseBase))
    by apply lookup_snoc.
  unfold bind.
  rewrite (connect_queued W0 (length (muxers w)) (length (sockets w)) _ _ _ [] this_url
             Hm1 eq_refl Hs0).
  unfold ret. eexists. exists this_url. split; [reflexivity|]. simpl.
  rewrite !insert_snoc. auto 10.
Qed.

(** A request that returns found, or put, a client in the pool. *)
Lemma new_MultiplexSocket_Ok (w : World) (url : string) (protocols : Protocols) (sid : nat) :
  result (new_MultiplexSocket url protocols) w = Ok sid ->
  exists m k x pend u s,
    registry (exec (new_MultiplexSocket url protocols) w)
      !! (substring_to (lastIndexOf "/" url) url ++ protocols_toString protocols)%string
    = Some m /\
    muxers (exec (new_MultiplexSocket url protocols) w) !! m = Some x /\
    role x = Client k pend u /\
    streams (exec (new_MultiplexSocket url protocols) w) !! sid = Some s /\
    s_socket s = Some k.
Proof.
  unfold result, exec.
  destruct (registry w !! (substring_to (lastIndexOf "/" url) url
                           ++ protocols_toString protocols)%string) as [m|] eqn:Hreg.
  - destruct (muxers w !! m) as [x|] eqn:Hm.
    + destruct (role x) as [k pend u|b] eqn:Hrole.
      * destruct (new_MultiplexSocket_hit w url protocols m k x pend u Hreg Hm Hrole)
          as (w' & Hrun & Hso & Hr & Hst & Htr).
        rewrite Hrun. simpl. intros [= <-].
        assert (Hext : extends w w').
        { pose proof (mono_new_MultiplexSocket url protocols w) as H.
          rewrite Hrun in H. exact H. }
        destruct Hext as [_ Hmux]. destruct (Hmux m x Hm) as (x' & Hm' & Hle).
        rewrite Hrole in Hle. destruct (role x') as [k' pend' u'|] eqn:Hrole'; [|contradiction].
        destruct Hle as (<- & <- & _).
        exists m, k, x', pend', u. eexists.
        rewrite Hr, Hst, lookup_snoc. repeat split; eauto.
      * intros H. exfalso. revert H.
        unfold new_MultiplexSocket. unfold bind at 1.
        rewrite (getMuxer_hit _ _ _ m Hreg).
        unfold client_fields. unfold_monad. rewrite Hm, Hrole. discriminate.
    + intros H. exfalso. revert H.
      unfold new_MultiplexSocket. unfold bind at 1.
      rewrite (getMuxer_hit _ _ _ m Hreg).
      unfold client_fields. unfold_monad. rewrite Hm. discriminate.
  - destruct (JsObject.inherited (substring_to (lastIndexOf "/" url) url
                                  ++ protocols_toString protocols)) eqn:Hinh.
    + intros H. exfalso. revert H.
      unfold new_MultiplexSocket. unfold bind at 1.
      rewrite (getMuxer_inherited _ _ _ Hreg Hinh). discriminate.
    + destruct (new_MultiplexSocket_miss w url protocols Hreg Hinh)
        as (w' & this_url & Hrun & Hr & Hmux & Hso & Hst & Htr).
      rewrite Hrun. simpl. intros [= <-].
      eexists. eexists. eexists. eexists. eexists. eexists.
      rewrite Hr, Hmux, Hst, lookup_insert_eq, !lookup_snoc.
      repeat split; reflexivity.
Qed.

(** ** C6: two streams with the same key share one connection *)

(** C6.  Let a first stream be requested for url [u1] and protocols [p],
    and let the request return.  After any further operations, a request
    for a url [u2] with the same base as [u1] and the same protocols
    returns a stream on the very socket of the first stream: the list of
    sockets, the pool and the number of constructed WebSockets are as they
    were before the second request. *)
Theorem C6_same_key_shares_connection
    (w : World) (u1 u2 : string) (p : Protocols) (s1 : nat) (ops : list Op) :
  substring_to (lastIndexOf "/" u1) u1 = substring_to (lastIndexOf "/" u2) u2 ->
  result (new_MultiplexSocket u1 p) w = Ok s1 ->
  exists k s s2 s',
    streams (exec (new_MultiplexSocket u1 p) w) !! s1 = Some s /\
    s_socket s = Some k /\
    result (new_MultiplexSocket u2 p) (steps ops (exec (new_MultiplexSocket u1 p) w)) = Ok s2 /\
    streams (exec (new_MultiplexSocket u2 p) (steps ops (exec (new_MultiplexSocket u1 p) w)))
      !! s2 = Some s' /\
    s_socket s' = Some k /\
    sockets (exec (new_MultiplexSocket u2 p) (steps ops (exec (new_MultiplexSocket u1 p) w)))
    = sockets (steps ops (exec (new_MultiplexSocket u1 p) w)) /\
    registry (exec (new_MultiplexSocket u2 p) (steps ops (exec (new_MultiplexSocket u1 p) w)))
    = registry (steps ops (exec (new_MultiplexSocket u1 p) w)) /\
    constructed_sockets
      (trace (exec (new_MultiplexSocket u2 p) (steps ops (exec (new_MultiplexSocket u1 p) w))))
    = constructed_sockets (trace (steps ops (exec (new_MultiplexSocket u1 p) w))).
Proof.
  intros Hbase Hok.
  destruct (new_MultiplexSocket_Ok w u1 p s1 Hok)
    as (m & k & x & pend & u & s & Hreg & Hm & Hrole & Hs & Hk).
  set (w1 := exec (new_MultiplexSocket u1 p) w) in *.
  destruct (extends_steps ops w1) as [Hregs Hmux].
  specialize (Hregs _ _ Hreg). destruct (Hmux m x Hm) as (x2 & Hm2 & Hle).
  rewrite Hrole in Hle. destruct (role x2) as [k2 pend2 u2'|] eqn:Hrole2; [|contradiction].
  destruct Hle as (<- & <- & _).
  rewrite Hbase in Hregs.
  destruct (new_MultiplexSocket_hit (steps ops w1) u2 p m k x2 pend2 u Hregs Hm2 Hrole2)
    as (w' & Hrun & Hso & Hr & Hst & Htr).
  exists k, s. eexists. eexists. unfold exec, result.
  fold (exec (new_MultiplexSocket u1 p) w). fold w1.
  rewrite Hrun. simpl.
  split; [exact Hs|]. split; [exact Hk|]. split; [reflexivity|].
  rewrite Hst, lookup_snoc. split; [reflexivity|]. split; [reflexivity|].
  split; [exact Hso|]. split; [exact Hr|].
  rewrite Htr. unfold constructed_sockets. rewrite List.filter_app, length_app.
  destruct pend2; simpl; lia.
Qed.

Lemma C6_same_key_shares_connection_witness :
  exists k s s2 s',
    streams (exec (new_MultiplexSocket "ws://host/echo" NoProtocols) (initial (fun _ => "0.r1")))
      !! 0 = Some s /\
    s_socket s = Some k /\
    result (new_MultiplexSocket "ws://host/uppercase" NoProtocols)
      (steps [OpSocketOpen 0]
         (exec (new_MultiplexSocket "ws://host/echo" NoProtocols) (initial (fun _ => "0.r1"))))
    = Ok s2 /\
    streams (exec (new_MultiplexSocket "ws://host/uppercase" NoProtocols)
               (steps [OpSocketOpen 0]
                  (exec (new_MultiplexSocket "ws://host/echo" NoProtocols)
                     (initial (fun _ => "0.r1")))))
      !! s2 = Some s' /\
    s_socket s' = Some k /\
    sockets (exec (new_MultiplexSocket "ws://host/uppercase" NoProtocols)
               (steps [OpSocketOpen 0]
                  (exec (new_MultiplexSocket "ws://host/echo" NoProtocols)
                     (initial (fun _ => "0.r1")))))
    = sockets (steps [OpSocketOpen 0]
                 (exec (new_MultiplexSocket "ws://host/echo" NoProtocols)
                    (initial (fun _ => "0.r1")))) /\
    registry (exec (new_MultiplexSocket "ws://host/uppercase" NoProtocols)
                (steps [OpSocketOpen 0]
                   (exec (new_MultiplexSocket "ws://host/echo" NoProtocols)
                      (initial (fun _ => "0.r1")))))
    = registry (steps [OpSocketOpen 0]
                  (exec (new_MultiplexSocket "ws://host/echo" NoProtocols)
                     (initial (fun _ => "0.r1")))) /\
    constructed_sockets
      (trace (exec (new_MultiplexSocket "ws://host/uppercase" NoProtocols)
                (steps [OpSocketOpen 0]
                   (exec (new_MultiplexSocket "ws://host/echo" NoProtocols)
                      (initial (fun _ => "0.r1"))))))
    = constructed_sockets
        (trace (steps [OpSocketOpen 0]
                  (exec (new_MultiplexSocket "ws://host/echo" NoProtocols)
                     (initial (fun _ => "0.r1"))))).
Proof.
  apply (C6_same_key_shares_connection (initial (fun _ => "0.r1"))
           "ws://host/echo" "ws://host/uppercase" NoProtocols 0 [OpSocketOpen 0]);
    reflexivity.
Defined.

(** ** C9: the pool never loses a client *)

(** C9.  An entry of the pool stays: after any operations, among them the
    close and the error of the client's socket, the key still maps to the
    same client, that client has the same socket, and getMuxer with that
    key returns it without changing anything. *)
Theorem C9_pool_entry_is_permanent
    (w : World) (id : string) (m : nat) (x : Muxer) (ops : list Op) :
  registry w !! id = Some m ->
  muxers w !! m = Some x ->
  registry (steps ops w) !! id = Some m /\
  (exists x', muxers (steps ops w) !! m = Some x' /\ role_le (role x) (role x')) /\
  (forall url protocols,
      (url ++ protocols_toString protocols)%string = id ->
      getMuxer url protocols (steps ops w) = (Ok (PoolClient m), steps ops w)).
Proof.
  intros Hreg Hm. destruct (extends_steps ops w) as [Hregs Hmux].
  split; [auto|]. split; [auto|].
  intros url protocols <-. apply getMuxer_hit. auto.
Qed.

Lemma C9_pool_entry_is_permanent_witness :
  registry (steps [OpSocketError 0; OpSocketClose 0 (Some 1006%Z) None] pending_world)
    !! "ws://host" = Some 0 /\
  (exists x', muxers (steps [OpSocketError 0; OpSocketClose 0 (Some 1006%Z) None] pending_world)
                !! 0 = Some x' /\
              role_le (Client 0 None "ws://host") (role x')) /\
  (forall url protocols,
      (url ++ protocols_toString protocols)%string = "ws://host" ->
      getMuxer url protocols
        (steps [OpSocketError 0; OpSocketClose 0 (Some 1006%Z) None] pending_world)
      = (Ok (PoolClient 0),
         steps [OpSocketError 0; OpSocketClose 0 (Some 1006%Z) None] pending_world)).
Proof.
  apply (C9_pool_entry_is_permanent pending_world "ws://host" 0
           (mkMuxer [("r1", VStream 0)] (Client 0 None "ws://host") Object_prototype)
           [OpSocketError 0; OpSocketClose 0 (Some 1006%Z) None]); reflexivity.
Defined.

(** ** C7: the queue of the client *)

Lemma connect_frames_ext (w w' : World) (n : nat) (sids : list nat) :
  random w' = random w ->
  (forall sid, stream_url w' sid = stream_url w sid) ->
  connect_frames w' n sids = connect_frames w n sids.
Proof.
  intros Hr Hu. revert n. induction sids as [|sid r IH]; intros n; simpl.
  - reflexivity.
  - rewrite Hr, Hu, IH. reflexivity.
Qed.

Lemma forEach_connect_queued (m k : nat) (u : string) (sids : list nat) :
  forall (w : World) (x : Muxer) (q : list MultiplexMessage),
    muxers w !! m = Some x ->
    role x = Client k (Some q) u ->
    Forall (fun sid => is_Some (streams w !! sid)) sids ->
    exists w' x',
      forEach (connect m) sids w = (Ok tt, w') /\
      trace w' = trace w /\
      muxers w' !! m = Some x' /\
      role x' = Client k (Some (q ++ connect_frames w (drawn w) sids)) u.
Proof.
  induction sids as [|sid r IH]; intros w x q Hm Hrole Hvalid.
  - exists w, x. simpl. rewrite app_nil_r. auto.
  - apply Forall_cons in Hvalid as [[s Hs] Hvalid].
    simpl. unfold bind. rewrite (connect_queued w m k sid x s q u Hm Hrole Hs).
    set (w1 := mkWorld _ _ _ _ _ _ _).
    assert (Hlt : m < length (muxers w)) by (eapply lookup_lt_Some; eauto).
    assert (Hurl : forall sid', stream_url w1 sid' = stream_url w sid').
    { intros sid'. unfold stream_url. simpl.
      destruct (decide (sid = sid')) as [<-|Hne].
      - rewrite list_lookup_insert_eq by (eapply lookup_lt_Some; eauto).
        rewrite Hs. reflexivity.
      - rewrite list_lookup_insert_ne by exact Hne. reflexivity. }
    edestruct (IH w1) with (q := q ++ [ConnectMessage (random w (drawn w)) (s_url s)])
      as (w' & x' & Hrun & Htr & Hm' & Hrole').
    + simpl. apply list_lookup_insert_eq. exact Hlt.
    + reflexivity.
    + eapply Forall_impl; [exact Hvalid|]. intros sid' [s' Hs']. simpl.
      apply lookup_lt_is_Some. rewrite length_insert.
      eapply lookup_lt_Some; eauto.
    + exists w', x'. split; [exact Hrun|]. split; [exact Htr|]. split; [exact Hm'|].
      rewrite Hrole'. rewrite (connect_frames_ext w w1) by (auto; reflexivity).
      simpl. unfold stream_url at 1. rewrite Hs. rewrite <- app_assoc. reflexivity.
Qed.

(** The [onopen] handler sends the queue in order and drops it. *)
Lemma forEach_socket_send (k : nat) (q : list MultiplexMessage) (w : World) :
  forEach (fun json => socket_send (Some k) json) q w
  = (Ok tt, set_trace (fun t => t ++ map (SocketSend k) q) w).
Proof.
  revert w. induction q as [|f r IH]; intros w; simpl.
  - unfold ret, set_trace. rewrite app_nil_r. destruct w; reflexivity.
  - unfold bind, effect, modify. rewrite IH.
    unfold set_trace. simpl. rewrite <- app_assoc. reflexivity.
Qed.

Lemma client_onopen_flush (w : World) (m k : nat) (x : Muxer)
    (q : list MultiplexMessage) (u : string) :
  muxers w !! m = Some x ->
  role x = Client k (Some q) u ->
  client_onopen m w
  = (Ok tt,
     mkWorld (sockets w) (streams w)
       (<[m := mkMuxer (channels x) (Client k None u) (chan_proto x)]> (muxers w))
       (registry w) (rendered w) (drawn w)
       (trace w ++ map (SocketSend k) q)).
Proof.
  intros Hm Hrole. unfold client_onopen, client_fields, set_pending.
  unfold the_muxer, deref. unfold bind at 1. unfold bind at 1. rewrite Hm, Hrole.
  unfold ret at 1. unfold bind. rewrite forEach_socket_send.
  unfold update_muxer, modify. unfold_world. rewrite Hm, Hrole. reflexivity.
Qed.

(** C7.  On a client whose [pending] queue still exists (the [onopen]
    handler has not run), the connect requests of any streams send nothing
    and return normally; when the transport becomes ready the handler sends
    what was queued before, followed by the connect frames of these
    requests, in the order of submission; and after that, whatever else
    happens, a connect request sends its frame at once. *)
Theorem C7_queue_flush_immediate
    (w : World) (m k : nat) (x : Muxer) (q : list MultiplexMessage) (u : string)
    (sids : list nat) :
  muxers w !! m = Some x ->
  role x = Client k (Some q) u ->
  Forall (fun sid => is_Some (streams w !! sid)) sids ->
  result (forEach (connect m) sids) w = Ok tt /\
  trace (exec (forEach (connect m) sids) w) = trace w /\
  trace (exec (client_onopen m) (exec (forEach (connect m) sids) w))
  = trace w ++ map (SocketSend k) (q ++ connect_frames w (drawn w) sids) /\
  forall (ops : list Op) (sid : nat) (s : Stream),
    streams (steps ops (exec (client_onopen m) (exec (forEach (connect m) sids) w))) !! sid
    = Some s ->
    result (connect m sid)
      (steps ops (exec (client_onopen m) (exec (forEach (connect m) sids) w))) = Ok tt /\
    trace (exec (connect m sid)
             (steps ops (exec (client_onopen m) (exec (forEach (connect m) sids) w))))
    = trace (steps ops (exec (client_onopen m) (exec (forEach (connect m) sids) w)))
      ++ [SocketSend k
            (ConnectMessage
               (random (steps ops (exec (client_onopen m) (exec (forEach (connect m) sids) w)))
                  (drawn (steps ops (exec (client_onopen m)
                                       (exec (forEach (connect m) sids) w)))))
               (s_url s))].
Proof.
  intros Hm Hrole Hvalid.
  destruct (forEach_connect_queued m k u sids w x q Hm Hrole Hvalid)
    as (w1 & x1 & Hrun & Htr & Hm1 & Hrole1).
  assert (E1 : exec (forEach (connect m) sids) w = w1)
    by (unfold exec; rewrite Hrun; reflexivity).
  rewrite !E1.
  pose proof (client_onopen_flush w1 m k x1 _ u Hm1 Hrole1) as Hopen.
  match type of Hopen with _ = (_, ?w2) => set (W2 := w2) in * end.
  assert (E2 : exec (client_onopen m) w1 = W2)
    by (unfold exec; rewrite Hopen; reflexivity).
  rewrite !E2.
  split; [unfold result; rewrite Hrun; reflexivity|].
  split; [exact Htr|].
  split; [subst W2; simpl; rewrite Htr; reflexivity|].
  intros ops sid s Hs.
  assert (Hm2 : muxers W2 !! m = Some (mkMuxer (channels x1) (Client k None u) (chan_proto x1))).
  { subst W2. simpl. apply list_lookup_insert_eq. eapply lookup_lt_Some; eauto. }
  destruct (extends_steps ops W2) as [_ Hmux].
  destruct (Hmux m _ Hm2) as (x3 & Hm3 & Hle). simpl in Hle.
  destruct (role x3) as [k3 p3 u3|] eqn:Hrole3; [|contradiction].
  destruct Hle as (<- & <- & Hp). rewrite (Hp eq_refl) in Hrole3.
  unfold exec, result.
  rewrite (connect_ready (steps ops W2) m k sid x3 s u Hm3 Hrole3 Hs).
  split; reflexivity.
Qed.

Lemma C7_queue_flush_immediate_witness :
  result (forEach (connect 0) [0; 0])
    (exec (new_MultiplexSocket "ws://host/echo" NoProtocols) (initial (fun _ => "0.r1")))
  = Ok tt.
Proof.
  apply (C7_queue_flush_immediate
           (exec (new_MultiplexSocket "ws://host/echo" NoProtocols) (initial (fun _ => "0.r1")))
           0 0
           (mkMuxer [("r1", VStream 0)]
              (Client 0 (Some [ConnectMessage "r1" "ws://host/echo"]) "ws://host") Object_prototype)
           [ConnectMessage "r1" "ws://host/echo"] "ws://host" [0; 0]).
  - reflexivity.
  - reflexivity.
  - repeat constructor; eexists; reflexivity.
Defined.

(** ** C5: the physical connection closes *)

Lemma keys_nil {V} (o : JsObject.t V) : JsObject.keys o = [] -> o = [].
Proof. destruct o; [reflexivity|discriminate]. Qed.

Lemma entry_ok_other_stream (w : World) (m sid : nat) (s : Stream) (key : string)
    (e : string * Value) :
  streams w !! sid = Some s ->
  (s_close s = CloseFull m false /\ s_channel s = Some key) \/ s_close s = CloseTemp m key ->
  fst e <> key ->
  entry_ok w m e ->
  snd e <> VStream sid.
Proof.
  intros Hs Hkey Hne (sid' & s' & Hv & Hs' & Hcase) Heq.
  rewrite Hv in Heq. injection Heq as ->. rewrite Hs in Hs'. injection Hs' as <-.
  destruct Hkey as [[Hc Hch]|Hc], Hcase as [(Hc' & Hch' & _)|Hc']; congruence.
Qed.

Lemma entry_close_effects_insert (sts : list Stream) (sos : list Socket) code reason
    (sid : nat) (s' : Stream) (e : string * Value) :
  snd e <> VStream sid ->
  entry_close_effects (<[sid := s']> sts) sos code reason e
  = entry_close_effects sts sos code reason e.
Proof.
  intros Hne. unfold entry_close_effects. destruct (snd e) as [sid'| |name]; try reflexivity.
  rewrite list_lookup_insert_ne by congruence. reflexivity.
Qed.

Lemma entry_ok_insert (w w' : World) (m sid : nat) (s' : Stream) (e : string * Value) :
  streams w' = <[sid := s']> (streams w) ->
  sockets w' = sockets w ->
  snd e <> VStream sid ->
  entry_ok w m e -> entry_ok w' m e.
Proof.
  intros Hst Hso Hne (sid' & s0 & Hv & Hs0 & Hcase).
  exists sid', s0. split; [exact Hv|]. rewrite Hst, Hso. split; [|exact Hcase].
  rewrite list_lookup_insert_ne by congruence. exact Hs0.
Qed.

Lemma onclose_effects_insert (sts : list Stream) (sos : list Socket) code reason
    (sid : nat) (s' : Stream) (l : list (string * Value)) :
  Forall (fun e => snd e <> VStream sid) l ->
  onclose_effects (<[sid := s']> sts) sos code reason l
  = onclose_effects sts sos code reason l.
Proof.
  unfold onclose_effects. induction 1 as [|e r He Hr IH]; simpl; [reflexivity|].
  rewrite IH, entry_close_effects_insert by exact He. reflexivity.
Qed.

(** The loop of the [onclose] handler over a snapshot [l] that covers the
    keys of the registry. *)
Lemma forEach_close_snapshot (m : nat) (code : option Z) (reason : option string)
    (l : list (string * Value)) :
  forall (w : World) (x : Muxer),
    muxers w !! m = Some x ->
    (forall key, In key (JsObject.keys (channels x)) -> In key (JsObject.keys l)) ->
    NoDup (JsObject.keys l) ->
    Forall (entry_ok w m) l ->
    exists w' x',
      forEach (fun sock => close_value sock code reason) (JsObject.values l) w
      = (Ok tt, w') /\
      muxers w' !! m = Some x' /\
      channels x' = [] /\
      sockets w' = sockets w /\
      trace w' = trace w ++ onclose_effects (streams w) (sockets w) code reason l.
Proof.
  induction l as [|[key v] r IH]; intros w x Hm Hsub Hnd Hok.
  - exists w, x. simpl. rewrite app_nil_r. repeat split; auto.
    apply keys_nil. destruct (JsObject.keys (channels x)) as [|k0 ks] eqn:E; [reflexivity|].
    exfalso. apply (Hsub k0). left. reflexivity.
  - apply Forall_cons in Hok as [Hentry Hok].
    simpl in Hnd. apply NoDup_cons in Hnd as [Hnotin Hnd].
    rewrite list_elem_of_In in Hnotin.
    pose proof Hentry as (sid & s & Hv & Hs & Hcase). simpl in Hv, Hcase. subst v.
    assert (Hrest : Forall (fun e => snd e <> VStream sid) r).
    { apply Forall_forall. intros e He. rewrite list_elem_of_In in He.
      eapply (entry_ok_other_stream w m sid s key); eauto.
      - destruct Hcase as [(Hc & Hch & _)|Hc]; auto.
      - intros Heq. apply Hnotin. rewrite <- Heq. apply (in_map fst). exact He.
      - rewrite Forall_forall in Hok. apply Hok. rewrite list_elem_of_In. exact He. }
    assert (Hlt : m < length (muxers w)) by (eapply lookup_lt_Some; eauto).
    assert (Hsub' : forall key', In key' (JsObject.keys (JsObject.delete key (channels x))) ->
                                 In key' (JsObject.keys r)).
    { intros key' Hin. apply JsObjectFacts.keys_delete in Hin as [Hne Hin].
      apply Hsub in Hin. simpl in Hin. destruct Hin as [Heq|Hin]; [congruence|exact Hin]. }
    simpl. unfold bind at 1.
    destruct Hcase as [(Hc & Hch & k & so & Hk & Hso)|Hc].
    + rewrite (close_full w sid m k s so key code reason Hs Hc Hk Hch Hso).
      set (w1 := after_close sid s m k so key code reason w).
      assert (Hok1 : Forall (entry_ok w1 m) r).
      { rewrite Forall_forall in Hok, Hrest. apply Forall_forall. intros e He.
        eapply (entry_ok_insert w w1); [reflexivity|reflexivity|auto|auto]. }
      edestruct (IH w1) as (w' & x' & Hrun & Hm' & Hempty & Hsock & Htr).
      * subst w1. simpl. rewrite Hm. apply list_lookup_insert_eq. exact Hlt.
      * exact Hsub'.
      * exact Hnd.
      * exact Hok1.
      * exists w', x'. split; [exact Hrun|]. split; [exact Hm'|]. split; [exact Hempty|].
        split; [rewrite Hsock; reflexivity|].
        rewrite Htr. subst w1. simpl.
        rewrite onclose_effects_insert by exact Hrest.
        unfold entry_close_effects. simpl. rewrite Hs, Hc, Hk, Hso.
        rewrite <- app_assoc. reflexivity.
    + rewrite (close_temp w sid m s key code reason Hs Hc).
      set (w1 := set_muxers _ w).
      assert (Hok1 : Forall (entry_ok w1 m) r).
      { eapply Forall_impl; [exact Hok|]. intros e He. exact He. }
      edestruct (IH w1) as (w' & x' & Hrun & Hm' & Hempty & Hsock & Htr).
      * subst w1. simpl. rewrite Hm. apply list_lookup_insert_eq. exact Hlt.
      * exact Hsub'.
      * exact Hnd.
      * exact Hok1.
      * exists w', x'. split; [exact Hrun|]. split; [exact Hm'|]. split; [exact Hempty|].
        split; [rewrite Hsock; reflexivity|].
        rewrite Htr. subst w1. simpl.
        unfold entry_close_effects. simpl. rewrite Hs, Hc. reflexivity.
Qed.

Lemma entry_ok_readyState (w : World) (m k : nat) (so : Socket) (r : ReadyState)
    (e : string * Value) :
  sockets w !! k = Some so ->
  entry_ok w m e ->
  entry_ok (exec (set_readyState k r) w) m e.
Proof.
  intros Hso (sid & s & Hv & Hs & Hcase).
  exists sid, s. split; [exact Hv|].
  unfold exec, set_readyState, update_socket, modify. unfold_world. rewrite Hso.
  split; [exact Hs|].
  destruct Hcase as [(Hc & Hch & k' & so' & Hk' & Hso')|Hc]; [left|right; exact Hc].
  split; [exact Hc|]. split; [exact Hch|].
  destruct (decide (k = k')) as [<-|Hne].
  - eexists k, _. split; [exact Hk'|].
    apply list_lookup_insert_eq. eapply lookup_lt_Some; eauto.
  - exists k', so'. split; [exact Hk'|].
    rewrite list_lookup_insert_ne by exact Hne. exact Hso'.
Qed.

Lemma entry_close_effects_emit (w : World) (m : nat) (code : option Z)
    (reason : option string) (key : string) (sid : nat) (s : Stream) :
  entry_ok w m (key, VStream sid) ->
  streams w !! sid = Some s ->
  s_close s = CloseFull m false ->
  In (Emit sid (EvClose code reason))
     (entry_close_effects (streams w) (sockets w) code reason (key, VStream sid)).
Proof.
  intros (sid' & s' & Hv & Hs' & Hcase) Hs Hc. simpl in Hv. injection Hv as <-.
  rewrite Hs in Hs'. injection Hs' as <-.
  destruct Hcase as [(_ & _ & k & so & Hk & Hso)|Hc']; [|congruence].
  unfold entry_close_effects. simpl. rewrite Hs, Hc, Hk, Hso.
  unfold close_effects. apply in_or_app. right. left. reflexivity.
Qed.

(** C5.  A client whose transport is ready has one stream, which still
    waits for the open frame of its handshake: it is in the registry, under
    its temporary reference.  When the socket closes (code 1006), the
    handler of wireDefaultEvents returns normally and empties the registry,
    and no close event is delivered to the stream: the temporary close
    function of connect only deletes the entry. *)
Theorem C5_pending_stream_gets_no_close_event :
  reachable pending_world /\
  (exists x, muxers pending_world !! 0 = Some x /\
             channels x = [("r1", VStream 0)]) /\
  socket_close 0 (Some 1006%Z) None pending_world
  = (Ok tt,
     mkWorld [mkSocket CLOSED "ws://host" (Some 0)]
       (streams pending_world)
       [mkMuxer [] (Client 0 None "ws://host") Object_prototype]
       (registry pending_world) (rendered pending_world) (drawn pending_world)
       (trace pending_world)) /\
  delivered_close 0 (trace (exec (socket_close 0 (Some 1006%Z) None) pending_world)) = 0.
Proof.
  split; [|split; [|split]].
  - unfold pending_world, steps. simpl. do 2 apply reachable_step. apply reachable_initial.
  - eexists. split; vm_compute; reflexivity.
  - vm_compute. reflexivity.
  - vm_compute. reflexivity.
Qed.

(** A registry property that holds [undefined] stops the handler: when the
    application closes a stream before its open frame arrives, that frame
    leaves such a property in the registry, and the handler of the socket's
    close event throws on it before it reaches the stream registered after
    it. *)
Lemma onclose_throws_on_undefined_entry :
  (exists x, muxers early_close_world !! 0 = Some x /\
             channels x = [("c1", VUndefined); ("c2", VStream 1)]) /\
  result (socket_close 0 (Some 1006%Z) None) early_close_world = Throw TypeError /\
  delivered_close 1 (trace (exec (socket_close 0 (Some 1006%Z) None) early_close_world)) = 0.
Proof.
  split; [|split].
  - exists (mkMuxer [("c1", VUndefined); ("c2", VStream 1)] (Client 0 None "ws://host") Object_prototype).
    split; vm_compute; reflexivity.
  - vm_compute. reflexivity.
  - vm_compute. reflexivity.
Qed.

(** ** C2: channel ids generated by the server *)

Lemma server_onmessage_returns (m socket : nat) (data : option MultiplexMessage) (w : World) :
  result (server_onmessage m socket data) w = Ok tt.
Proof.
  unfold result, server_onmessage, try_catch.
  match goal with |- context [let (_, _) := ?c w in _] => destruct (c w) as [[[]|e] w1] end;
    reflexivity.
Qed.

(** C2.  On a server, one stream is open under the id "c1".  A second
    connect request arrives on the same socket and randomId returns "c1"
    again: nothing compares the id with the registry, the registration of
    the second stream overwrites the property of the first one, and two
    open streams carry the id "c1", of which the registry knows the second
    one only. *)
Theorem C2_repeated_id_overwrites_live_entry :
  reachable collide_world /\
  (exists x, muxers open_world !! 0 = Some x /\ channels x = [("c1", VStream 0)]) /\
  random open_world (drawn open_world) = "c1" /\
  collide_world
  = exec (socket_message 0 (Some (ConnectMessage "r2" "ws://host/echo"))) open_world /\
  exists s0 s1 x',
    streams collide_world !! 0 = Some s0 /\
    streams collide_world !! 1 = Some s1 /\
    s_close s0 = CloseFull 0 false /\ s_channel s0 = Some "c1" /\
    s_close s1 = CloseFull 0 false /\ s_channel s1 = Some "c1" /\
    muxers collide_world !! 0 = Some x' /\
    channels x' = [("c1", VStream 1)].
Proof.
  split; [|split; [|split; [|split]]].
  - unfold collide_world, open_world, steps. simpl.
    do 4 apply reachable_step. apply reachable_initial.
  - eexists. split; vm_compute; reflexivity.
  - vm_compute. reflexivity.
  - reflexivity.
  - eexists _, _, _. repeat split; vm_compute; reflexivity.
Qed.

(** ** C10: the throwing close is never exposed *)

(** A change of the world that keeps the pool, the roles of the
    multiplexers, and the absence of the base close. *)
Lemma WF_frame (w w' : World) :
  registry w' = registry w ->
  (forall m x, muxers w !! m = Some x ->
               exists x', muxers w' !! m = Some x' /\ role x' = role x) ->
  (forall sid s', streams w' !! sid = Some s' -> s_close s' <> CloseBase) ->
  WF w -> WF w'.
Proof.
  intros Hr Hm Hs [Hpool _]. split; [|exact Hs].
  intros id m H. rewrite Hr in H. destruct (Hpool id m H) as (x & k & p & u & Hx & Hrole).
  destruct (Hm m x Hx) as (x' & Hx' & Hrole'). exists x', k, p, u.
  split; [exact Hx'|congruence].
Qed.

Lemma inv_ret {A} (a : A) : inv (ret a).
Proof. intros w H. exact H. Qed.

Lemma inv_throw {A} (e : Exn) : inv (@throw A e).
Proof. intros w H. exact H. Qed.

Lemma inv_bind {A B} (c : M A) (k : A -> M B) :
  inv c -> (forall a, inv (k a)) -> inv (bind c k).
Proof.
  intros Hc Hk w H. unfold bind. specialize (Hc w H).
  destruct (c w) as [[a|e] w1]; simpl in *; [apply Hk; exact Hc|exact Hc].
Qed.

Lemma inv_forEach {A} (f : A -> M unit) (l : list A) :
  (forall a, inv (f a)) -> inv (forEach f l).
Proof.
  intros Hf. induction l as [|a r IH]; simpl.
  - apply inv_ret.
  - apply inv_bind; [apply Hf|intros _; exact IH].
Qed.

Lemma inv_try_catch (c h : M unit) : inv c -> inv h -> inv (try_catch c h).
Proof.
  intros Hc Hh w H. unfold try_catch. specialize (Hc w H).
  destruct (c w) as [[a|e] w1]; simpl in *; [exact Hc|apply Hh; exact Hc].
Qed.

Lemma inv_deref {A} (store : World -> list A) (r : nat) : inv (deref store r).
Proof. intros w H. unfold deref. destruct (store w !! r); exact H. Qed.

Lemma inv_get_world : inv get_world.
Proof. intros w H. exact H. Qed.

Lemma inv_owner (k : nat) : inv (owner k).
Proof. intros w H. unfold owner. destruct (sockets w !! k); exact H. Qed.

Lemma inv_effect (e : Effect) : inv (effect e).
Proof.
  intros w H. apply (WF_frame w); [reflexivity| | |exact H].
  - intros m x Hx. exists x. auto.
  - apply H.
Qed.

Lemma inv_randomId : inv randomId.
Proof.
  intros w H. apply (WF_frame w); [reflexivity| | |exact H].
  - intros m x Hx. exists x. auto.
  - apply H.
Qed.

Lemma inv_update_socket (k : nat) (f : Socket -> Socket) : inv (update_socket k f).
Proof.
  intros w H. apply (WF_frame w); [reflexivity| | |exact H].
  - intros m x Hx. exists x. auto.
  - apply H.
Qed.

Lemma inv_add_socket (s : Socket) : inv (modify (set_sockets (fun l => l ++ [s]))).
Proof.
  intros w H. apply (WF_frame w); [reflexivity| | |exact H].
  - intros m x Hx. exists x. auto.
  - apply H.
Qed.

Lemma inv_update_stream (sid : nat) (f : Stream -> Stream) :
  (forall s, s_close (f s) <> CloseBase) -> inv (update_stream sid f).
Proof.
  intros Hf w H. apply (WF_frame w); [reflexivity| | |exact H].
  - intros m x Hx. exists x. auto.
  - intros sid' s'. unfold update_stream, modify. unfold_world.
    destruct (streams w !! sid) as [s|] eqn:Hs; [|apply H].
    destruct (decide (sid = sid')) as [<-|Hne].
    + rewrite list_lookup_insert_eq by (eapply lookup_lt_Some; eauto).
      intros [= <-]. apply Hf.
    + rewrite list_lookup_insert_ne by exact Hne. apply H.
Qed.

Lemma inv_update_muxer (m : nat) (f : Muxer -> Muxer) :
  (forall x, role (f x) = role x \/
             exists k p p' u, role x = Client k p u /\ role (f x) = Client k p' u) ->
  inv (update_muxer m f).
Proof.
  intros Hf w [Hpool Hs]. split; [|exact Hs].
  intros id m' H. destruct (Hpool id m' H) as (x & k & p & u & Hx & Hrole).
  unfold update_muxer, modify. unfold_world.
  destruct (muxers w !! m) as [x0|] eqn:Hm; [|eauto 10].
  destruct (decide (m = m')) as [<-|Hne].
  - rewrite list_lookup_insert_eq by (eapply lookup_lt_Some; eauto).
    rewrite Hm in Hx. injection Hx as ->.
    destruct (Hf x) as [Heq|(k' & p0 & p' & u' & Hr & Hr')].
    + exists (f x), k, p, u. split; [reflexivity|congruence].
    + exists (f x), k', p', u'. auto.
  - rewrite list_lookup_insert_ne by exact Hne. eauto 10.
Qed.

Lemma inv_update_channels (m : nat) f : inv (update_channels m f).
Proof. unfold update_channels. apply inv_update_muxer. intros x. left. reflexivity. Qed.

Lemma inv_channels_set (m : nat) (key : string) (v : Value) :
  inv (update_muxer m (channels_set key v)).
Proof. apply inv_update_muxer. intros x. left. apply role_channels_set. Qed.

Lemma inv_set_pending (m : nat) p : inv (set_pending m p).
Proof.
  unfold set_pending. apply inv_update_muxer. intros [ch [k p0 u|b] pr]; simpl; [|auto].
  right. exists k, p0, p, u. auto.
Qed.

Lemma inv_add_muxer (x : Muxer) : inv (modify (set_muxers (fun l => l ++ [x]))).
Proof.
  intros w H. apply (WF_frame w); [reflexivity| | |exact H].
  - intros m x' Hx. exists x'. simpl.
    rewrite lookup_app_l by (eapply lookup_lt_Some; eauto). auto.
  - apply H.
Qed.

Ltac inv_step :=
  first
    [ apply inv_bind; [|intros ?]
    | apply inv_ret
    | apply inv_throw
    | apply inv_forEach; intros ?
    | apply inv_try_catch
    | apply inv_deref
    | apply inv_get_world
    | apply inv_effect
    | apply inv_update_socket
    | apply inv_update_channels
    | apply inv_channels_set
    | apply inv_randomId
    | apply inv_owner
    | apply inv_set_pending
    | apply inv_add_socket
    | apply inv_add_muxer
    | apply inv_update_stream; intros ?; simpl; discriminate
    | assumption
    | match goal with
      | |- inv (match ?x with _ => _ end) => destruct x
      | |- inv (if ?b then _ else _) => destruct b
      | |- inv (let (_, _) := ?x in _) => destruct x
      end ].

Ltac inv_tac :=
  unfold console_error, emit_value, emit_transport_event, close_value, emit, socket_send,
    the_stream, the_socket, the_muxer;
  repeat inv_step.

Lemma inv_close sid code reason : inv (close sid code reason).
Proof. unfold close. inv_tac. Qed.

Lemma inv_send sid data : inv (send sid data).
Proof. unfold send. inv_tac. Qed.

Lemma inv_handleMessage sid msg : inv (handleMessage sid msg).
Proof. unfold handleMessage. destruct msg; inv_tac; try apply inv_close. Qed.

Lemma inv_addChannel m sock channel : inv (addChannel m sock channel).
Proof. unfold addChannel. inv_tac. Qed.

Lemma inv_onclose m code reason : inv (onclose m code reason).
Proof. unfold onclose. inv_tac; try apply inv_close. Qed.

Lemma inv_onerror m : inv (onerror m).
Proof. unfold onerror. inv_tac. Qed.

Lemma inv_wireDefaultEvents m k : inv (wireDefaultEvents m k).
Proof. unfold wireDefaultEvents. inv_tac. Qed.

Lemma inv_handleChannelMessage m msg : inv (handleChannelMessage m msg).
Proof. unfold handleChannelMessage. inv_tac; try apply inv_handleMessage. Qed.

Lemma inv_client_fields m : inv (client_fields m).
Proof. unfold client_fields. inv_tac. Qed.

Lemma inv_client_onopen m : inv (client_onopen m).
Proof.
  unfold client_onopen.
  apply inv_bind; [apply inv_client_fields|intros [[k p] u]].
  apply inv_bind; [destruct p; inv_tac|intros ?].
  apply inv_set_pending.
Qed.

Lemma inv_handleOpenMessage m msg : inv (handleOpenMessage m msg).
Proof.
  unfold handleOpenMessage. destruct msg; try (inv_tac; fail).
  apply inv_bind; [inv_tac|intros ?].
  apply inv_bind; [inv_tac|intros ?].
  apply inv_bind; [inv_tac|intros ?].
  apply inv_bind; [apply inv_addChannel|intros ?].
  inv_tac.
Qed.

Lemma inv_client_onmessage m data : inv (client_onmessage m data).
Proof.
  unfold client_onmessage. apply inv_try_catch; [|inv_tac].
  destruct data as [msg|]; [|inv_tac].
  destruct (String.eqb (msg_type msg) "open"); [apply inv_handleOpenMessage|].
  destruct (truthy_opt (msg_channel msg)); [apply inv_handleChannelMessage|inv_tac].
Qed.

Lemma inv_new_MultiplexerServer backends : inv (new_MultiplexerServer backends).
Proof. unfold new_MultiplexerServer. inv_tac. Qed.

Lemma inv_connection m url : inv (connection m url).
Proof. unfold connection. inv_tac. Qed.

Lemma bind_WF {A B} (c : M A) (k : A -> M B) (w : World) :
  WF (snd (c w)) -> (forall a, inv (k a)) -> WF (snd (bind c k w)).
Proof.
  intros Hc Hk. unfold bind. destruct (c w) as [[a|e] w1]; simpl in *; [|exact Hc].
  apply Hk. exact Hc.
Qed.

(** The server creates a stream and registers it at once: the base close
    is gone when [addChannel] returns. *)
Lemma addChannel_new_stream_WF (w : World) (m socket : nat) (channel : string) :
  WF w ->
  WF (snd ((let* sock := new_ServerMultiplexSocket socket in
            let* _ := addChannel m (VStream sock) channel in
            ret sock) w)).
Proof.
  intros HWF. unfold new_ServerMultiplexSocket, addChannel.
  unfold_monad. unfold_world.
  destruct (sockets w !! socket) as [so|]; simpl; [|exact HWF].
  rewrite lookup_snoc. simpl. rewrite lookup_snoc, insert_snoc. simpl.
  destruct HWF as [Hpool Hs].
  assert (Hstreams : forall sid s,
             (streams w ++ [mkStream (Some socket) (Some channel) (so_url so)
                              (CloseFull m false)]) !! sid = Some s ->
             s_close s <> CloseBase).
  { intros sid s H. apply lookup_app_Some in H as [H|[_ H]]; [eapply Hs; eauto|].
    apply list_lookup_singleton_Some in H as [_ <-]. discriminate. }
  destruct (muxers w !! m) as [x|] eqn:Hm; simpl; (split; [|exact Hstreams]); [|exact Hpool].
  intros id m' H. simpl in H. destruct (Hpool id m' H) as (x' & k & p & u & Hx' & Hrole).
  simpl. destruct (decide (m = m')) as [<-|Hne].
  - rewrite list_lookup_insert_eq by (eapply lookup_lt_Some; eauto).
    rewrite Hm in Hx'. injection Hx' as ->. eexists _, k, p, u.
    split; [reflexivity|]. rewrite role_channels_set. exact Hrole.
  - rewrite list_lookup_insert_ne by exact Hne. eauto 10.
Qed.

Lemma bind2_WF {A B C} (c1 : M A) (c2 : A -> M B) (K : A -> M C) (w : World) :
  WF (snd ((let* a := c1 in let* _ := c2 a in ret a) w)) ->
  (forall a, inv (K a)) ->
  WF (snd ((let* a := c1 in let* _ := c2 a in K a) w)).
Proof.
  intros H HK.
  assert (Heq : (let* a := c1 in let* _ := c2 a in K a) w
                = bind (let* a := c1 in let* _ := c2 a in ret a) K w).
  { unfold bind, ret. destruct (c1 w) as [[a|e] w1]; [|reflexivity].
    destruct (c2 a w1) as [[b|e] w2]; reflexivity. }
  rewrite Heq. apply bind_WF; assumption.
Qed.

(** Whatever the backend does with its stream, as long as that keeps the
    world well formed. *)
Lemma inv_handleConnectMessage_with (app : nat -> M unit) m msg socket :
  (forall sid, inv (app sid)) ->
  inv (handleConnectMessage_with app m msg socket).
Proof.
  intros Happ.
  unfold handleConnectMessage_with. destruct msg as [ref url| | |]; try (inv_tac; fail).
  apply inv_bind; [inv_tac|intros x].
  destruct (getBackend _ url) as [[id b]|]; [|inv_tac].
  apply inv_bind; [inv_tac|intros channel].
  apply inv_bind; [inv_tac|intros ?].
  intros w HWF.
  apply (bind2_WF (new_ServerMultiplexSocket socket)
           (fun sock => addChannel m (VStream sock) channel)).
  - apply addChannel_new_stream_WF. exact HWF.
  - intros sock. destruct b as [[|]|name]; unfold call_inherited; inv_tac; apply Happ.
Qed.

Lemma inv_handleConnectMessage m msg socket : inv (handleConnectMessage m msg socket).
Proof. apply inv_handleConnectMessage_with. intros sid. apply inv_ret. Qed.

Lemma inv_server_onmessage m socket data : inv (server_onmessage m socket data).
Proof.
  unfold server_onmessage. apply inv_try_catch; [|inv_tac].
  destruct data as [msg|]; [|inv_tac].
  destruct (String.eqb (msg_type msg) "connect"); [apply inv_handleConnectMessage|].
  destruct (truthy_opt (msg_channel msg)); [apply inv_handleChannelMessage|inv_tac].
Qed.

(** A request whose pool key names a member of Object.prototype: the
    constructor throws, and it has changed nothing. *)
Lemma new_MultiplexSocket_inherited (w : World) (url : string) (protocols : Protocols) :
  registry w !! (substring_to (lastIndexOf "/" url) url ++ protocols_toString protocols)%string
  = None ->
  JsObject.inherited (substring_to (lastIndexOf "/" url) url ++ protocols_toString protocols)
  = true ->
  new_MultiplexSocket url protocols w = (Throw TypeError, w).
Proof.
  intros Hreg Hinh. unfold new_MultiplexSocket. unfold bind at 1.
  rewrite (getMuxer_inherited _ _ _ Hreg Hinh). reflexivity.
Qed.

(** The client constructor leaves a well-formed world: when it returns,
    [connect] has replaced the base close by the temporary handler. *)
Lemma inv_new_MultiplexSocket url protocols : inv (new_MultiplexSocket url protocols).
Proof.
  intros w HWF. pose proof HWF as [Hpool Hs].
  destruct (registry w !! (substring_to (lastIndexOf "/" url) url
                           ++ protocols_toString protocols)%string) as [m|] eqn:Hreg.
  - destruct (Hpool _ _ Hreg) as (x & k & p & u & Hm & Hrole).
    destruct (new_MultiplexSocket_hit w url protocols m k x p u Hreg Hm Hrole)
      as (w' & Hrun & Hso & Hr & Hst & Htr).
    pose proof (mono_new_MultiplexSocket url protocols w) as [_ Hmux].
    rewrite Hrun in *. simpl in *. split.
    + intros id m' H. rewrite Hr in H.
      destruct (Hpool id m' H) as (x0 & k0 & p0 & u0 & Hx0 & Hrole0).
      destruct (Hmux m' x0 Hx0) as (x1 & Hx1 & Hle). rewrite Hrole0 in Hle.
      destruct (role x1) as [k1 p1 u1|] eqn:Hrole1; [|contradiction].
      exists x1, k1, p1, u1. auto.
    + intros sid s H. rewrite Hst in H.
      apply lookup_app_Some in H as [H|[_ H]]; [eapply Hs; eauto|].
      apply list_lookup_singleton_Some in H as [_ <-]. discriminate.
  - destruct (JsObject.inherited (substring_to (lastIndexOf "/" url) url
                                  ++ protocols_toString protocols)) eqn:Hinh.
    { rewrite (new_MultiplexSocket_inherited w url protocols Hreg Hinh). exact HWF. }
    destruct (new_MultiplexSocket_miss w url protocols Hreg Hinh)
      as (w' & this_url & Hrun & Hr & Hmux & Hso & Hst & Htr).
    rewrite Hrun. simpl. split.
    + intros id m' H. rewrite Hr in H. rewrite Hmux.
      apply lookup_insert_Some in H as [[_ <-]|[_ H]].
      * rewrite lookup_snoc. eexists _, _, _, _. split; reflexivity.
      * destruct (Hpool id m' H) as (x0 & k0 & p0 & u0 & Hx0 & Hrole0).
        exists x0, k0, p0, u0. split; [|exact Hrole0].
        rewrite lookup_app_l by (eapply lookup_lt_Some; eauto). exact Hx0.
    + intros sid s H. rewrite Hst in H.
      apply lookup_app_Some in H as [H|[_ H]]; [eapply Hs; eauto|].
      apply list_lookup_singleton_Some in H as [_ <-]. discriminate.
Qed.

Lemma inv_run op : inv (run op).
Proof.
  destruct op; simpl.
  - apply inv_bind; [apply inv_new_MultiplexSocket|intros ?; apply inv_ret].
  - apply inv_bind; [apply inv_new_MultiplexerServer|intros ?; apply inv_ret].
  - apply inv_bind; [inv_tac|intros x]. destruct (role x); [apply inv_ret|].
    apply inv_bind; [apply inv_connection|intros ?; apply inv_ret].
  - apply inv_send.
  - apply inv_close.
  - unfold socket_open, set_readyState.
    apply inv_bind; [inv_tac|intros ?].
    apply inv_bind; [inv_tac|intros [m'|]]; [|apply inv_ret].
    apply inv_bind; [inv_tac|intros x].
    destruct (role x); [apply inv_client_onopen|apply inv_ret].
  - unfold socket_message.
    apply inv_bind; [inv_tac|intros [m'|]]; [|apply inv_ret].
    apply inv_bind; [inv_tac|intros x].
    destruct (role x); [apply inv_client_onmessage|apply inv_server_onmessage].
  - unfold socket_close, set_readyState.
    apply inv_bind; [inv_tac|intros ?].
    apply inv_bind; [inv_tac|intros [m'|]]; [apply inv_onclose|apply inv_ret].
  - unfold socket_error.
    apply inv_bind; [inv_tac|intros [m'|]]; [apply inv_onerror|apply inv_ret].
Qed.

Lemma WF_initial ids : WF (initial ids).
Proof.
  split.
  - intros id m H. simpl in H. rewrite lookup_empty in H. discriminate.
  - intros sid s H. simpl in H. discriminate.
Qed.

Lemma WF_reachable (w : World) : reachable w -> WF w.
Proof.
  induction 1 as [ids|op w Hw IH].
  - apply WF_initial.
  - apply inv_run. exact IH.
Qed.

(** The server path: a connect message that resolves a backend of the
    table.  The open frame is sent, the stream is created and registered by
    [addChannel], and only then the backend is invoked: whatever the
    backend does with the stream, it does it in the world [handover], and
    the open event is emitted when the backend has returned. *)
Lemma handleConnectMessage_with_resolved (app : nat -> M unit)
    (w : World) (m socket : nat) (x : Muxer) (so : Socket)
    (backends : gmap string Backend) (ref url id : string) (b : Backend) :
  muxers w !! m = Some x ->
  role x = Server backends ->
  sockets w !! socket = Some so ->
  getBackend backends url = Some (id, OwnBackend b) ->
  handleConnectMessage_with app m (ConnectMessage ref url) socket w
  = (let* _ := app (length (streams w)) in emit (length (streams w)) EvOpen)
      (handover w m socket x so ref id b).
Proof.
  intros Hm Hrole Hso Hb.
  assert (Hlt : m < length (muxers w)) by (eapply lookup_lt_Some; eauto).
  unfold handleConnectMessage_with, the_muxer, deref. unfold bind at 1.
  rewrite Hm, Hrole, Hb.
  unfold randomId, new_ServerMultiplexSocket, addChannel, handover.
  unfold_monad. unfold_world. rewrite Hso. simpl.
  repeat first
    [ rewrite Hm | rewrite lookup_snoc | rewrite insert_snoc
    | rewrite channels_set_random
    | rewrite list_lookup_insert_eq by (rewrite ?length_insert; exact Hlt)
    | progress simpl ].
  destruct b; simpl; rewrite <- !app_assoc; reflexivity.
Qed.

Lemma handleConnectMessage_resolved (w : World) (m socket : nat) (x : Muxer) (so : Socket)
    (backends : gmap string Backend) (ref url id : string) (b : Backend) :
  muxers w !! m = Some x ->
  role x = Server backends ->
  sockets w !! socket = Some so ->
  getBackend backends url = Some (id, OwnBackend b) ->
  handleConnectMessage m (ConnectMessage ref url) socket w
  = (Ok tt,
     mkWorld (sockets w)
       (streams w ++ [mkStream (Some socket) (Some (random w (drawn w))) (so_url so)
                        (CloseFull m false)])
       (<[m := mkMuxer (JsObject.set (random w (drawn w)) (VStream (length (streams w)))
                          (channels x)) (role x) (chan_proto x)]> (muxers w))
       (registry w) (rendered w) (S (drawn w))
       (trace w ++ [SocketSend socket (OpenMessage (random w (drawn w)) ref);
                    match b with
                    | BackendFunction => CallBackend id b (length (streams w))
                    | BackendEmitter => EmitConnection id b (length (streams w))
                    end;
                    Emit (length (streams w)) EvOpen])).
Proof.
  intros Hm Hrole Hso Hb. unfold handleConnectMessage.
  rewrite (handleConnectMessage_with_resolved _ w m socket x so backends ref url id b
             Hm Hrole Hso Hb).
  unfold handover. unfold_monad. unfold effect, modify. unfold_world.
  rewrite <- app_assoc. reflexivity.
Qed.

(** C10.  In every world that the application and the transport can bring
    about through the constructors, the methods of the streams and the
    events of the sockets, no stream has the throwing close of
    AbstractMultiplexSocket: close() never throws its Error.  In
    particular, the stream that the client constructor returns has the
    temporary handler of connect.  And on the server, whatever a backend
    of the table does with the stream it is handed, it does it after
    addChannel has registered the stream and replaced its close: the
    backend starts in the world [handover], in which the stream has the
    close function of addChannel, and the open event follows when the
    backend has returned; a backend that closes its stream at once does
    not make the handler throw. *)
Theorem C10_base_close_unreachable (w : World) :
  reachable w ->
  (forall sid s, streams w !! sid = Some s -> s_close s <> CloseBase) /\
  (forall sid code reason,
      result (close sid code reason) w
      <> Throw (Error "This method should be overridden by the Multiplexer.")) /\
  (forall url protocols sid,
      result (new_MultiplexSocket url protocols) w = Ok sid ->
      exists s m ref,
        streams (exec (new_MultiplexSocket url protocols) w) !! sid = Some s /\
        s_close s = CloseTemp m ref) /\
  (forall m socket x so backends ref url id b,
      muxers w !! m = Some x ->
      role x = Server backends ->
      sockets w !! socket = Some so ->
      getBackend backends url = Some (id, OwnBackend b) ->
      (forall app : nat -> M unit,
          handleConnectMessage_with app m (ConnectMessage ref url) socket w
          = (let* _ := app (length (streams w)) in emit (length (streams w)) EvOpen)
              (handover w m socket x so ref id b)) /\
      (exists s, streams (handover w m socket x so ref id b) !! length (streams w) = Some s /\
                 s_close s = CloseFull m false) /\
      (forall code reason,
          result (handleConnectMessage_with (fun sid => close sid code reason)
                    m (ConnectMessage ref url) socket) w = Ok tt)).
Proof.
  intros Hreach. pose proof (WF_reachable w Hreach) as HWF.
  pose proof HWF as [Hpool Hs].
  split; [exact Hs|]. split; [|split].
  - intros sid code reason. unfold result, close. unfold_monad.
    destruct (streams w !! sid) as [s|] eqn:Hsid; simpl; [|discriminate].
    specialize (Hs sid s Hsid).
    destruct (s_close s) as [|m ref|m [|]]; simpl; try discriminate; try congruence.
    unfold effect, modify.
    destruct (s_socket s) as [k|]; simpl; [|discriminate].
    destruct (sockets w !! k) as [so|]; simpl; [|discriminate].
    destruct (is_OPEN (readyState so)); simpl; discriminate.
  - intros url protocols sid Hok. unfold result, exec in *.
    destruct (registry w !! (substring_to (lastIndexOf "/" url) url
                             ++ protocols_toString protocols)%string) as [m|] eqn:Hreg.
    + destruct (Hpool _ _ Hreg) as (x & k & p & u & Hm & Hrole).
      destruct (new_MultiplexSocket_hit w url protocols m k x p u Hreg Hm Hrole)
        as (w' & Hrun & _ & _ & Hst & _).
      rewrite Hrun in *. simpl in *. injection Hok as <-.
      rewrite Hst, lookup_snoc. eexists _, _, _. split; reflexivity.
    + destruct (JsObject.inherited (substring_to (lastIndexOf "/" url) url
                                    ++ protocols_toString protocols)) eqn:Hinh.
      { rewrite (new_MultiplexSocket_inherited w url protocols Hreg Hinh) in Hok.
        discriminate. }
      destruct (new_MultiplexSocket_miss w url protocols Hreg Hinh)
        as (w' & this_url & Hrun & _ & _ & _ & Hst & _).
      rewrite Hrun in *. simpl in *. injection Hok as <-.
      rewrite Hst, lookup_snoc. eexists _, _, _. split; reflexivity.
  - intros m socket x so backends ref url id b Hm Hrole Hso Hb.
    split; [|split].
    + intros app.
      apply (handleConnectMessage_with_resolved app w m socket x so backends ref url id b
               Hm Hrole Hso Hb).
    + eexists. split; [apply lookup_snoc|reflexivity].
    + intros code reason. unfold result.
      rewrite (handleConnectMessage_with_resolved _ w m socket x so backends ref url id b
                 Hm Hrole Hso Hb).
      unfold bind.
      rewrite (close_full (handover w m socket x so ref id b) (length (streams w)) m socket
                 (mkStream (Some socket) (Some (random w (drawn w))) (so_url so)
                    (CloseFull m false))
                 so (random w (drawn w)) code reason
                 (lookup_snoc _ _) eq_refl eq_refl eq_refl Hso).
      reflexivity.
Qed.

Lemma C10_base_close_unreachable_witness :
  reachable pending_world /\
  (forall sid s, streams pending_world !! sid = Some s -> s_close s <> CloseBase).
Proof.
  assert (Hreach : reachable pending_world).
  { unfold pending_world, steps. simpl. do 2 apply reachable_step. apply reachable_initial. }
  split; [exact Hreach|].
  apply (C10_base_close_unreachable pending_world). exact Hreach.
Defined.

(** * Further properties of the code *)

(** ** The message handlers contain every failure *)

Lemma client_onmessage_returns (m : nat) (data : option MultiplexMessage) (w : World) :
  result (client_onmessage m data) w = Ok tt.
Proof.
  unfold result, client_onmessage, try_catch.
  match goal with |- context [let (_, _) := ?c w in _] => destruct (c w) as [[[]|e] w1] end;
    reflexivity.
Qed.

(** X1.  Whatever arrives on a socket (a frame of any type and content,
    or a text that is no JSON) and whatever the state of the registry, the
    [onmessage] handler of the client and the one of the server return
    normally: an exception raised while the frame is handled (for instance
    the TypeError of an open frame whose ref is unknown) ends in the catch
    clause, which logs. *)
Theorem onmessage_never_throws
    (w : World) (m socket : nat) (data : option MultiplexMessage) :
  result (client_onmessage m data) w = Ok tt /\
  result (server_onmessage m socket data) w = Ok tt.
Proof.
  split; [apply client_onmessage_returns|apply server_onmessage_returns].
Qed.

(** ** Routing of data frames *)

(** X2.  A data frame bearing a non-empty id under which the registry
    holds a stream delivers one message event with the payload to that
    stream and does nothing else: no other stream gets an event, nothing is
    sent and the registry is unchanged.  This holds in either role and
    whatever the state of the stream (also for a client stream registered
    under its temporary reference). *)
Theorem data_frame_is_delivered
    (w : World) (k m sid : nat) (so : Socket) (x : Muxer) (X data : string) :
  sockets w !! k = Some so ->
  so_owner so = Some m ->
  muxers w !! m = Some x ->
  truthy X = true ->
  channels_get X x = VStream sid ->
  socket_message k (Some (DataMessage X data)) w
  = (Ok tt, set_trace (fun t => t ++ [Emit sid (EvMessage data)]) w).
Proof.
  intros Hso Hown Hm HX Hget.
  rewrite (socket_message_channel w k m so x (DataMessage X data) X
             Hso Hown Hm eq_refl HX) by discriminate.
  unfold try_catch.
  rewrite (handleChannelMessage_hit w m sid x (DataMessage X data) X Hm eq_refl HX Hget).
  reflexivity.
Qed.

Lemma data_frame_is_delivered_witness :
  socket_message 0 (Some (DataMessage "c1" "hi")) open_world
  = (Ok tt, set_trace (fun t => t ++ [Emit 0 (EvMessage "hi")]) open_world).
Proof.
  apply (data_frame_is_delivered open_world 0 0 0
           (mkSocket OPEN "ws://host/" (Some 0))
           (mkMuxer [("c1", VStream 0)] (Server echo_backends) Object_prototype) "c1" "hi");
    vm_compute; reflexivity.
Defined.



(** X5.  Let the registry be below Object.prototype.  A data or close
    frame bearing the name of a member of Object.prototype that is no
    property of the registry (constructor, toString, __proto__, ...) is
    not a routing miss: the lookup finds the member, which has no
    [handleMessage], and the TypeError ends in the catch clause of the
    handler, which logs "Failed to parse multiplexer message:"; no event is
    delivered and nothing is sent. *)
Theorem frame_for_inherited_name_is_caught
    (w : World) (k m : nat) (so : Socket) (x : Muxer) (msg : MultiplexMessage) (X : string) :
  sockets w !! k = Some so ->
  so_owner so = Some m ->
  muxers w !! m = Some x ->
  (exists data, msg = DataMessage X data) \/ (exists code reason, msg = CloseMessage X code reason) ->
  chan_proto x = Object_prototype ->
  JsObject.get X (channels x) = None ->
  JsObject.inherited X = true ->
  socket_message k (Some msg) w
  = (Ok tt, set_trace (fun t => t ++ [ConsoleError "Failed to parse multiplexer message:"]) w).
Proof.
  intros Hso Hown Hm Hmsg Hproto Hown_ Hinh.
  assert (Hch : msg_channel msg = Some X)
    by (destruct Hmsg as [[d ->]|(c & r & ->)]; reflexivity).
  assert (HX : truthy X = true).
  { destruct X; [discriminate|reflexivity]. }
  assert (Hget : channels_get X x = VInherited X).
  { unfold channels_get. rewrite Hown_, Hinh, Hproto.
    destruct (String.eqb_spec X "__proto__") as [->|_]; reflexivity. }
  rewrite (socket_message_channel w k m so x msg X Hso Hown Hm Hch HX)
    by (destruct Hmsg as [[d ->]|(c & r & ->)]; discriminate).
  unfold try_catch.
  rewrite (handleChannelMessage_inherited w m x msg X X Hm Hch HX Hget).
  reflexivity.
Qed.

Lemma frame_for_inherited_name_is_caught_witness :
  socket_message 0 (Some (DataMessage "constructor" "hi")) open_world
  = (Ok tt,
     set_trace (fun t => t ++ [ConsoleError "Failed to parse multiplexer message:"])
       open_world).
Proof.
  apply (frame_for_inherited_name_is_caught open_world 0 0
           (mkSocket OPEN "ws://host/" (Some 0))
           (mkMuxer [("c1", VStream 0)] (Server echo_backends) Object_prototype)
           (DataMessage "constructor" "hi") "constructor"); try (vm_compute; reflexivity).
  left. exists "hi". reflexivity.
Defined.

(** ** Errors of the transport *)

(** X4.  When the socket reports an error, no stream is delivered an error
    event.  The handler hands the event of the transport to the first
    value of the registry: a stream refuses to dispatch it, and a value
    that is no stream has no [dispatchEvent]; either way the handler ends
    there with an exception, and the world is as it was: every stream is
    still registered and open, nothing is sent.  The handler returns
    normally only when the registry is empty. *)
Theorem socket_error_reaches_no_stream
    (w : World) (k m : nat) (so : Socket) (x : Muxer) :
  sockets w !! k = Some so ->
  so_owner so = Some m ->
  muxers w !! m = Some x ->
  socket_error k w
  = (match JsObject.values (channels x) with
     | [] => Ok tt
     | VStream _ :: _ => Throw InvalidEvent
     | _ :: _ => Throw TypeError
     end, w).
Proof.
  intros Hso Hown Hm.
  unfold socket_error, owner, onerror, the_muxer, deref, bind.
  rewrite Hso, Hown, Hm.
  destruct (JsObject.values (channels x)) as [|[sid| |name] r]; reflexivity.
Qed.

Lemma socket_error_reaches_no_stream_witness :
  socket_error 0 three_world = (Throw InvalidEvent, three_world).
Proof.
  apply (socket_error_reaches_no_stream three_world 0 0
           (mkSocket OPEN "ws://host/" (Some 0))
           (mkMuxer [("c1", VStream 0); ("c2", VStream 1); ("c3", VStream 2)]
              (Server echo_backends) Object_prototype));
    vm_compute; reflexivity.
Defined.

(** ** The handshake on the client *)

(** An open frame goes from the message handler of a client's socket to
    [handleOpenMessage]. *)
Lemma socket_message_open (w : World) (k m kk : nat) (so : Socket) (x : Muxer)
    (p : option (list MultiplexMessage)) (u C R : string) :
  sockets w !! k = Some so ->
  so_owner so = Some m ->
  muxers w !! m = Some x ->
  role x = Client kk p u ->
  socket_message k (Some (OpenMessage C R)) w
  = try_catch (handleOpenMessage m (OpenMessage C R))
              (console_error "Failed to parse multiplexer message:") w.
Proof.
  intros Hso Hown Hm Hrole.
  unfold socket_message, owner, bind at 1. rewrite Hso, Hown.
  unfold the_muxer, deref, bind at 1. rewrite Hm, Hrole. reflexivity.
Qed.

(** An open frame whose ref reads as a stream. *)
Lemma handleOpenMessage_hit (w : World) (m sid : nat) (x : Muxer) (s : Stream) (C R : string) :
  muxers w !! m = Some x ->
  channels_get R x = VStream sid ->
  streams w !! sid = Some s ->
  handleOpenMessage m (OpenMessage C R) w
  = (Ok tt,
     mkWorld (sockets w)
       (<[sid := mkStream (s_socket s) (Some C) (s_url s) (CloseFull m false)]> (streams w))
       (<[m := channels_set C (VStream sid)
                 (mkMuxer (JsObject.delete R (channels (channels_set C (VStream sid) x)))
                    (role (channels_set C (VStream sid) x))
                    (chan_proto (channels_set C (VStream sid) x)))]> (muxers w))
       (registry w) (rendered w) (drawn w)
       (trace w ++ [Emit sid EvOpen])).
Proof.
  intros Hm Hget Hs.
  assert (Hlt : m < length (muxers w)) by (eapply lookup_lt_Some; eauto).
  unfold handleOpenMessage, addChannel, emit_value. unfold_monad. unfold_world.
  repeat first
    [ rewrite Hm | rewrite Hget | rewrite Hs
    | rewrite list_lookup_insert_eq by (rewrite ?length_insert; exact Hlt)
    | rewrite list_insert_insert_eq
    | progress simpl ].
  reflexivity.
Qed.


Lemma handleOpenMessage_inherited (w : World) (m : nat) (x : Muxer) (C R name : string) :
  muxers w !! m = Some x ->
  channels_get R x = VInherited name ->
  handleOpenMessage m (OpenMessage C R) w
  = (Throw TypeError,
     mkWorld (sockets w) (streams w)
       (<[m := channels_set C (VInherited name)
                 (mkMuxer (JsObject.delete R (channels (channels_set C (VInherited name) x)))
                    (role (channels_set C (VInherited name) x))
                    (chan_proto (channels_set C (VInherited name) x)))]> (muxers w))
       (registry w) (rendered w) (drawn w)
       (trace w ++ [RuntimeWrite name "channel"; RuntimeWrite name "close"])).
Proof.
  intros Hm Hget.
  assert (Hlt : m < length (muxers w)) by (eapply lookup_lt_Some; eauto).
  unfold handleOpenMessage, addChannel, emit_value. unfold_monad. unfold_world.
  repeat first
    [ rewrite Hm | rewrite Hget
    | rewrite list_lookup_insert_eq by (rewrite ?length_insert; exact Hlt)
    | rewrite list_insert_insert_eq
    | progress simpl ].
  rewrite <- app_assoc. reflexivity.
Qed.





(** X25.  Let the registry of a client be below Object.prototype, and let
    an open frame arrive whose ref is the name of a member of
    Object.prototype and no property of the registry, with a channel id
    other than [__proto__].  The handler takes the member for the stream of
    the handshake: it makes it the property of the registry under the
    channel id and assigns its properties [channel] and [close]; then the
    delivery of the open event fails, which the catch clause logs.  No
    stream is touched and nothing is sent.  A data frame for that channel
    id is from then on a failure of the same kind, not a routing miss. *)
Theorem open_frame_with_inherited_ref
    (w : World) (k m kk : nat) (so : Socket) (x : Muxer)
    (p : option (list MultiplexMessage)) (u C R data : string) :
  sockets w !! k = Some so ->
  so_owner so = Some m ->
  muxers w !! m = Some x ->
  role x = Client kk p u ->
  chan_proto x = Object_prototype ->
  JsObject.get R (channels x) = None ->
  JsObject.inherited R = true ->
  truthy C = true ->
  C <> "__proto__" ->
  result (socket_message k (Some (OpenMessage C R))) w = Ok tt /\
  trace (exec (socket_message k (Some (OpenMessage C R))) w)
  = trace w ++ [RuntimeWrite R "channel"; RuntimeWrite R "close";
                ConsoleError "Failed to parse multiplexer message:"] /\
  streams (exec (socket_message k (Some (OpenMessage C R))) w) = streams w /\
  (exists x',
      muxers (exec (socket_message k (Some (OpenMessage C R))) w) !! m = Some x' /\
      JsObject.get C (channels x') = Some (VInherited R)) /\
  socket_message k (Some (DataMessage C data))
    (exec (socket_message k (Some (OpenMessage C R))) w)
  = (Ok tt,
     set_trace (fun t => t ++ [ConsoleError "Failed to parse multiplexer message:"])
       (exec (socket_message k (Some (OpenMessage C R))) w)).
Proof.
  intros Hso Hown Hm Hrole Hproto Hown_ Hinh HCt HC.
  assert (Hlt : m < length (muxers w)) by (eapply lookup_lt_Some; eauto).
  assert (HCp : String.eqb C "__proto__" = false) by (apply String.eqb_neq; exact HC).
  assert (Hget : channels_get R x = VInherited R).
  { unfold channels_get. rewrite Hown_, Hinh, Hproto.
    destruct (String.eqb_spec R "__proto__") as [->|_]; reflexivity. }
  pose proof (handleOpenMessage_inherited w m x C R R Hm Hget) as Hrun.
  rewrite !(channels_set_own C _ _ HCp) in Hrun.
  cbn [channels role chan_proto] in Hrun.
  assert (Hall : socket_message k (Some (OpenMessage C R)) w
                 = (Ok tt,
                    mkWorld (sockets w) (streams w)
                      (<[m := mkMuxer
                                (JsObject.set C (VInherited R)
                                   (JsObject.delete R
                                      (JsObject.set C (VInherited R) (channels x))))
                                (role x) (chan_proto x)]> (muxers w))
                      (registry w) (rendered w) (drawn w)
                      (trace w ++ [RuntimeWrite R "channel"; RuntimeWrite R "close";
                                   ConsoleError "Failed to parse multiplexer message:"]))).
  { rewrite (socket_message_open w k m kk so x p u C R Hso Hown Hm Hrole).
    unfold try_catch. rewrite Hrun. unfold console_error, effect, modify, set_trace. simpl.
    rewrite <- app_assoc. reflexivity. }
  match type of Hall with _ = (_, ?w1) => set (W1 := w1) in * end.
  unfold exec, result. rewrite Hall. simpl fst. simpl snd.
  assert (Hm1 : muxers W1 !! m
                = Some (mkMuxer
                          (JsObject.set C (VInherited R)
                             (JsObject.delete R (JsObject.set C (VInherited R) (channels x))))
                          (role x) (chan_proto x)))
    by (subst W1; simpl; apply list_lookup_insert_eq; exact Hlt).
  assert (Hg : channels_get C
                 (mkMuxer
                    (JsObject.set C (VInherited R)
                       (JsObject.delete R (JsObject.set C (VInherited R) (channels x))))
                    (role x) (chan_proto x)) = VInherited R)
    by (apply channels_get_own; simpl; apply JsObjectFacts.get_set_eq).
  split; [reflexivity|]. split; [reflexivity|]. split; [reflexivity|]. split.
  - eexists. split; [exact Hm1|]. simpl. apply JsObjectFacts.get_set_eq.
  - rewrite (socket_message_channel W1 k m so _ (DataMessage C data) C
               Hso Hown Hm1 eq_refl HCt) by discriminate.
    unfold try_catch.
    rewrite (handleChannelMessage_inherited W1 m _ (DataMessage C data) C R
               Hm1 eq_refl HCt Hg).
    reflexivity.
Qed.

Lemma open_frame_with_inherited_ref_witness :
  result (socket_message 0 (Some (OpenMessage "c9" "toString"))) pending_world = Ok tt /\
  trace (exec (socket_message 0 (Some (OpenMessage "c9" "toString"))) pending_world)
  = trace pending_world ++ [RuntimeWrite "toString" "channel"; RuntimeWrite "toString" "close";
                            ConsoleError "Failed to parse multiplexer message:"].
Proof.
  pose proof (open_frame_with_inherited_ref pending_world 0 0 0
                (mkSocket OPEN "ws://host" (Some 0))
                (mkMuxer [("r1", VStream 0)] (Client 0 None "ws://host") Object_prototype)
                None "ws://host" "c9" "toString" "hi") as H.
  destruct H as (H1 & H2 & _); try (vm_compute; reflexivity); try discriminate.
  split; [exact H1|exact H2].
Defined.

(** ** The handshake on the server *)

(** X8.  A connect frame whose backend url names a backend of the table
    makes the server draw one id, send the open frame with that id and the
    ref of the request, create a stream on the socket the request came
    from, register it under the id with the close function of addChannel,
    and only then invoke the backend (call it, or emit 'connection' on it)
    with the stream and deliver the open event; every other property of the
    registry is left as it was.  The order is fixed for every backend:
    whatever the backend does with the stream while it is invoked, it does
    it in the world [handover], in which the frame is sent and the stream
    registered, and the open event follows when the backend has
    returned. *)
Theorem connect_frame_opens_stream
    (w : World) (k m : nat) (so : Socket) (x : Muxer)
    (backends : gmap string Backend) (ref url id : string) (b : Backend) :
  sockets w !! k = Some so ->
  so_owner so = Some m ->
  muxers w !! m = Some x ->
  role x = Server backends ->
  getBackend backends url = Some (id, OwnBackend b) ->
  socket_message k (Some (ConnectMessage ref url)) w
  = (Ok tt,
     mkWorld (sockets w)
       (streams w ++ [mkStream (Some k) (Some (random w (drawn w))) (so_url so)
                        (CloseFull m false)])
       (<[m := mkMuxer (JsObject.set (random w (drawn w)) (VStream (length (streams w)))
                          (channels x)) (role x) (chan_proto x)]> (muxers w))
       (registry w) (rendered w) (S (drawn w))
       (trace w ++ [SocketSend k (OpenMessage (random w (drawn w)) ref);
                    match b with
                    | BackendFunction => CallBackend id b (length (streams w))
                    | BackendEmitter => EmitConnection id b (length (streams w))
                    end;
                    Emit (length (streams w)) EvOpen])) /\
  forall app : nat -> M unit,
    handleConnectMessage_with app m (ConnectMessage ref url) k w
    = (let* _ := app (length (streams w)) in emit (length (streams w)) EvOpen)
        (handover w m k x so ref id b).
Proof.
  intros Hso Hown Hm Hrole Hb. split.
  - unfold socket_message, owner, bind at 1. rewrite Hso, Hown.
    unfold the_muxer, deref, bind at 1. rewrite Hm, Hrole.
    unfold server_onmessage, try_catch.
    change (String.eqb (msg_type (ConnectMessage ref url)) "connect") with true.
    cbv iota.
    rewrite (handleConnectMessage_resolved w m k x so backends ref url id b
               Hm Hrole Hso Hb).
    rewrite Hrole. reflexivity.
  - intros app.
    apply (handleConnectMessage_with_resolved app w m k x so backends ref url id b
             Hm Hrole Hso Hb).
Qed.

Lemma connect_frame_opens_stream_witness :
  socket_message 0 (Some (ConnectMessage "r1" "ws://host/echo")) fresh_world
  = (Ok tt,
     mkWorld (sockets fresh_world)
       (streams fresh_world ++ [mkStream (Some 0) (Some "c1") "ws://host/"
                                  (CloseFull 0 false)])
       (<[0 := mkMuxer (JsObject.set "c1" (VStream 0) []) (Server echo_backends)
                 Object_prototype]>
          (muxers fresh_world))
       (registry fresh_world) (rendered fresh_world) 1
       (trace fresh_world ++ [SocketSend 0 (OpenMessage "c1" "r1");
                              CallBackend "echo" BackendFunction 0;
                              Emit 0 EvOpen])).
Proof.
  apply (connect_frame_opens_stream fresh_world 0 0
           (mkSocket OPEN "ws://host/" (Some 0))
           (mkMuxer [] (Server echo_backends) Object_prototype) echo_backends
           "r1" "ws://host/echo" "echo" BackendFunction); vm_compute; reflexivity.
Defined.

(** ** A client stream before its open frame *)

(** The stream that the client constructor returns: on the socket of the
    pooled client, without channel id, registered under the reference that
    was drawn, with the temporary close handler. *)
Lemma new_MultiplexSocket_stream (w : World) (url : string) (protocols : Protocols) (sid : nat) :
  result (new_MultiplexSocket url protocols) w = Ok sid ->
  exists m k x,
    streams (exec (new_MultiplexSocket url protocols) w) !! sid
    = Some (mkStream (Some k) None url (CloseTemp m (random w (drawn w)))) /\
    muxers (exec (new_MultiplexSocket url protocols) w) !! m = Some x /\
    JsObject.get (random w (drawn w)) (channels x) = Some (VStream sid).
Proof.
  unfold result, exec.
  destruct (registry w !! (substring_to (lastIndexOf "/" url) url
                           ++ protocols_toString protocols)%string) as [m|] eqn:Hreg.
  - destruct (muxers w !! m) as [x|] eqn:Hm.
    + assert (Hlt : m < length (muxers w)) by (eapply lookup_lt_Some; eauto).
      destruct (role x) as [k pend u|b] eqn:Hrole.
      * rewrite (new_MultiplexSocket_hit_world w url protocols m k x pend u Hreg Hm Hrole).
        simpl. intros [= <-]. exists m, k. eexists.
        split; [apply lookup_snoc|].
        split; [apply list_lookup_insert_eq; exact Hlt|].
        simpl. apply JsObjectFacts.get_set_eq.
      * intros H. exfalso. revert H.
        unfold new_MultiplexSocket. unfold bind at 1.
        rewrite (getMuxer_hit _ _ _ m Hreg).
        unfold client_fields. unfold_monad. rewrite Hm, Hrole. discriminate.
    + intros H. exfalso. revert H.
      unfold new_MultiplexSocket. unfold bind at 1.
      rewrite (getMuxer_hit _ _ _ m Hreg).
      unfold client_fields. unfold_monad. rewrite Hm. discriminate.
  - destruct (JsObject.inherited (substring_to (lastIndexOf "/" url) url
                                  ++ protocols_toString protocols)) eqn:Hinh.
    { rewrite (new_MultiplexSocket_inherited w url protocols Hreg Hinh). discriminate. }
    destruct (new_MultiplexSocket_miss w url protocols Hreg Hinh)
      as (w' & this_url & Hrun & Hr & Hmux & Hso & Hst & Htr).
    rewrite Hrun. simpl. intros [= <-].
    eexists _, _, _. rewrite Hst, Hmux, !lookup_snoc.
    split; [reflexivity|]. split; [reflexivity|].
    simpl. apply JsObjectFacts.get_set_eq.
Qed.

(** X9.  A stream that the client constructor has just returned cannot
    send: [send] logs "channel was closed" and does nothing else, so the
    payload is neither handed to the socket nor put on the queue of the
    client, whether the transport is ready or not. *)
Theorem send_before_open_is_dropped
    (w : World) (url data : string) (protocols : Protocols) (sid : nat) :
  result (new_MultiplexSocket url protocols) w = Ok sid ->
  send sid data (exec (new_MultiplexSocket url protocols) w)
  = (Ok tt,
     set_trace (fun t => t ++ [ConsoleError "channel was closed"])
       (exec (new_MultiplexSocket url protocols) w)).
Proof.
  intros Hok.
  destruct (new_MultiplexSocket_stream w url protocols sid Hok) as (m & k & x & Hs & _).
  unfold send. unfold_monad. rewrite Hs. reflexivity.
Qed.

Lemma send_before_open_is_dropped_witness :
  send 0 "hi" (exec (new_MultiplexSocket "ws://host/echo" NoProtocols) (initial (fun _ => "0.r1")))
  = (Ok tt,
     set_trace (fun t => t ++ [ConsoleError "channel was closed"])
       (exec (new_MultiplexSocket "ws://host/echo" NoProtocols) (initial (fun _ => "0.r1")))).
Proof.
  apply (send_before_open_is_dropped (initial (fun _ => "0.r1")) "ws://host/echo" "hi"
           NoProtocols 0).
  vm_compute. reflexivity.
Defined.



(** ** Urls: the backend name and the base of the pool key *)







Lemma lastIndexOf_app (c : ascii) (a b : string) :
  lastIndexOf c b = None ->
  lastIndexOf c (a ++ String c b) = Some (String.length a).
Proof.
  intros Hb. induction a as [|x a IH]; simpl.
  - rewrite Hb, Ascii.eqb_refl. reflexivity.
  - rewrite IH. reflexivity.
Qed.

Lemma substring_prefix (a b : string) : String.substring 0 (String.length a) (a ++ b) = a.
Proof.
  induction a as [|x a IH]; simpl.
  - destruct b; reflexivity.
  - rewrite IH. reflexivity.
Qed.

(** X12.  The url part of the pool key is the url without its last
    segment: for [base/name] with no slash in [name] it is [base], so all
    urls that differ only in the last segment give the same key; for a url
    without any slash it is the empty string. *)
Theorem pool_key_drops_last_segment (base name url : string) :
  lastIndexOf "/" name = None ->
  lastIndexOf "/" url = None ->
  substring_to (lastIndexOf "/" (base ++ String "/" name)) (base ++ String "/" name) = base /\
  substring_to (lastIndexOf "/" url) url = "".
Proof.
  intros Hname Hurl. split.
  - rewrite (lastIndexOf_app _ base name Hname). simpl. apply substring_prefix.
  - rewrite Hurl. reflexivity.
Qed.

Lemma pool_key_drops_last_segment_witness :
  substring_to (lastIndexOf "/" ("ws://host/api" ++ String "/" "echo"))
    ("ws://host/api" ++ String "/" "echo") = "ws://host/api" /\
  substring_to (lastIndexOf "/" "echo") "echo" = "".
Proof.
  apply (pool_key_drops_last_segment "ws://host/api" "echo" "echo"); reflexivity.
Defined.

(** ** The pool key does not keep url and protocols apart *)

(** X13.  The key of the pool is the base url followed at once by the
    protocols (an array joined with commas): when two requests differ in
    base url and protocols but give the same concatenation, the second one
    gets the client of the first one, that is a socket that was constructed
    for the other url and the other protocols, and constructs none. *)
Theorem pool_key_is_a_concatenation
    (w : World) (u1 u2 : string) (p1 p2 : Protocols) (s1 : nat) :
  (substring_to (lastIndexOf "/" u1) u1 ++ protocols_toString p1)%string
  = (substring_to (lastIndexOf "/" u2) u2 ++ protocols_toString p2)%string ->
  result (new_MultiplexSocket u1 p1) w = Ok s1 ->
  exists k s s2 s',
    streams (exec (new_MultiplexSocket u1 p1) w) !! s1 = Some s /\
    s_socket s = Some k /\
    result (new_MultiplexSocket u2 p2) (exec (new_MultiplexSocket u1 p1) w) = Ok s2 /\
    streams (exec (new_MultiplexSocket u2 p2) (exec (new_MultiplexSocket u1 p1) w)) !! s2
    = Some s' /\
    s_socket s' = Some k /\
    sockets (exec (new_MultiplexSocket u2 p2) (exec (new_MultiplexSocket u1 p1) w))
    = sockets (exec (new_MultiplexSocket u1 p1) w) /\
    constructed_sockets
      (trace (exec (new_MultiplexSocket u2 p2) (exec (new_MultiplexSocket u1 p1) w)))
    = constructed_sockets (trace (exec (new_MultiplexSocket u1 p1) w)).
Proof.
  intros Hid Hok.
  destruct (new_MultiplexSocket_Ok w u1 p1 s1 Hok)
    as (m & k & x & pend & u & s & Hreg & Hm & Hrole & Hs & Hk).
  set (w1 := exec (new_MultiplexSocket u1 p1) w) in *.
  rewrite Hid in Hreg.
  destruct (new_MultiplexSocket_hit w1 u2 p2 m k x pend u Hreg Hm Hrole)
    as (w' & Hrun & Hso & Hr & Hst & Htr).
  exists k, s. eexists. eexists. unfold exec, result.
  fold (exec (new_MultiplexSocket u1 p1) w). fold w1.
  rewrite Hrun. simpl.
  split; [exact Hs|]. split; [exact Hk|]. split; [reflexivity|].
  rewrite Hst, lookup_snoc. split; [reflexivity|]. split; [reflexivity|].
  split; [exact Hso|].
  rewrite Htr. unfold constructed_sockets. rewrite List.filter_app, length_app.
  destruct pend; simpl; lia.
Qed.

Lemma pool_key_is_a_concatenation_witness :
  exists k s s2 s',
    streams (exec (new_MultiplexSocket "ws://host/x/echo" (OneProtocol "v1"))
               (initial (fun _ => "0.r1"))) !! 0 = Some s /\
    s_socket s = Some k /\
    result (new_MultiplexSocket "ws://host/xv1/echo" NoProtocols)
      (exec (new_MultiplexSocket "ws://host/x/echo" (OneProtocol "v1"))
         (initial (fun _ => "0.r1"))) = Ok s2 /\
    streams (exec (new_MultiplexSocket "ws://host/xv1/echo" NoProtocols)
               (exec (new_MultiplexSocket "ws://host/x/echo" (OneProtocol "v1"))
                  (initial (fun _ => "0.r1")))) !! s2 = Some s' /\
    s_socket s' = Some k /\
    sockets (exec (new_MultiplexSocket "ws://host/xv1/echo" NoProtocols)
               (exec (new_MultiplexSocket "ws://host/x/echo" (OneProtocol "v1"))
                  (initial (fun _ => "0.r1"))))
    = sockets (exec (new_MultiplexSocket "ws://host/x/echo" (OneProtocol "v1"))
                 (initial (fun _ => "0.r1"))) /\
    constructed_sockets
      (trace (exec (new_MultiplexSocket "ws://host/xv1/echo" NoProtocols)
                (exec (new_MultiplexSocket "ws://host/x/echo" (OneProtocol "v1"))
                   (initial (fun _ => "0.r1")))))
    = constructed_sockets
        (trace (exec (new_MultiplexSocket "ws://host/x/echo" (OneProtocol "v1"))
                  (initial (fun _ => "0.r1")))).
Proof.
  apply (pool_key_is_a_concatenation (initial (fun _ => "0.r1"))
           "ws://host/x/echo" "ws://host/xv1/echo" (OneProtocol "v1") NoProtocols 0);
    vm_compute; reflexivity.
Defined.

(** ** What a stream reports as its ready state *)

Lemma close_keeps_sockets (w : World) (sid : nat) (code : option Z) (reason : option string) :
  sockets (exec (close sid code reason) w) = sockets w /\
  forall sid', s_socket <$> (streams (exec (close sid code reason) w) !! sid')
               = s_socket <$> (streams w !! sid').
Proof.
  unfold exec, close. unfold_monad.
  destruct (streams w !! sid) as [s|] eqn:Hs; simpl; [|auto].
  assert (Hlt : sid < length (streams w)) by (eapply lookup_lt_Some; eauto).
  assert (Hins : forall c sid',
             s_socket <$> (<[sid := mkStream (s_socket s) (s_channel s) (s_url s) c]>
                             (streams w) !! sid')
             = s_socket <$> (streams w !! sid')).
  { intros c sid'. destruct (decide (sid = sid')) as [<-|Hne].
    - rewrite list_lookup_insert_eq by exact Hlt. rewrite Hs. reflexivity.
    - rewrite list_lookup_insert_ne by exact Hne. reflexivity. }
  destruct (s_close s) as [|m ref|m [|]]; simpl; auto.
  unfold effect, modify. unfold_world. rewrite Hs.
  destruct (s_socket s) as [k|] eqn:Hk; simpl; [|split; [reflexivity|apply Hins]].
  destruct (sockets w !! k) as [so|]; simpl; [|split; [reflexivity|apply Hins]].
  destruct (is_OPEN (readyState so)); simpl; (split; [reflexivity|apply Hins]).
Qed.

(** X14.  close() never changes what the readyState getter returns, for
    the stream that is closed and for every other stream: the getter reads
    the ready state of the socket, which close() does not touch, so a
    stream that was closed on an open socket still reports OPEN. *)
Theorem close_keeps_readyState
    (w : World) (sid sid' : nat) (code : option Z) (reason : option string) :
  result (get_readyState sid') (exec (close sid code reason) w)
  = result (get_readyState sid') w.
Proof.
  destruct (close_keeps_sockets w sid code reason) as [Hso Hst].
  specialize (Hst sid').
  remember (exec (close sid code reason) w) as W1 eqn:HW1. clear HW1.
  unfold result, get_readyState, the_stream, the_socket, deref, bind, ret, throw.
  destruct (streams W1 !! sid') as [s1|];
    destruct (streams w !! sid') as [s0|]; simpl in Hst; try discriminate; [|reflexivity].
  injection Hst as Hst. rewrite Hst.
  destruct (s_socket s0) as [k|]; simpl; [|reflexivity].
  rewrite Hso. destruct (sockets w !! k); reflexivity.
Qed.

(** ** One registry for all the connections of a server *)

(** The run of the close handler of a socket under the hypotheses of C5,
    with the effects it has. *)
Lemma socket_close_effects (w : World) (k m : nat) (so0 : Socket) (x : Muxer)
    (code : option Z) (reason : option string) :
  sockets w !! k = Some so0 ->
  so_owner so0 = Some m ->
  muxers w !! m = Some x ->
  NoDup (JsObject.keys (channels x)) ->
  Forall (entry_ok w m) (channels x) ->
  exists w',
    socket_close k code reason w = (Ok tt, w') /\
    (exists x', muxers w' !! m = Some x' /\ channels x' = []) /\
    trace w' = trace w
               ++ onclose_effects (streams w)
                    (<[k := mkSocket CLOSED (so_url so0) (so_owner so0)]> (sockets w))
                    code reason (channels x).
Proof.
  intros Hso0 Hown Hm Hnd Hok.
  set (w0 := exec (set_readyState k CLOSED) w).
  assert (Hok0 : Forall (entry_ok w0 m) (channels x)).
  { eapply Forall_impl; [exact Hok|]. intros e He.
    eapply entry_ok_readyState; eauto. }
  assert (Hm0 : muxers w0 !! m = Some x).
  { subst w0. unfold exec, set_readyState, update_socket, modify. unfold_world. exact Hm. }
  assert (Hst0 : streams w0 = streams w).
  { subst w0. unfold exec, set_readyState, update_socket, modify. unfold_world. reflexivity. }
  assert (Hso1 : sockets w0 = <[k := mkSocket CLOSED (so_url so0) (so_owner so0)]> (sockets w)).
  { subst w0. unfold exec, set_readyState, update_socket, modify. unfold_world.
    rewrite Hso0. reflexivity. }
  assert (Htr0 : trace w0 = trace w).
  { subst w0. unfold exec, set_readyState, update_socket, modify. unfold_world. reflexivity. }
  assert (Hown0 : owner k w0 = (Ok (Some m), w0)).
  { unfold owner. rewrite Hso1.
    rewrite list_lookup_insert_eq by (eapply lookup_lt_Some; eauto).
    simpl. rewrite Hown. reflexivity. }
  destruct (forEach_close_snapshot m code reason (channels x) w0 x Hm0
              (fun key H => H) Hnd Hok0)
    as (w' & x' & Hrun & Hm' & Hempty & Hsock & Htr).
  exists w'. split; [|split].
  - unfold socket_close. unfold bind at 1.
    change (set_readyState k CLOSED w) with (Ok tt, w0).
    unfold bind at 1. rewrite Hown0.
    unfold onclose, the_muxer, deref, bind. rewrite Hm0. exact Hrun.
  - exists x'. auto.
  - rewrite Htr, Htr0, Hst0, Hso1. reflexivity.
Qed.

(** X15.  The registry belongs to the multiplexer, not to the socket: when
    one socket of a server closes, the handler closes every registered
    stream, also the streams of the other connections.  A stream that
    addChannel registered on another socket, which is still open, is sent a
    close frame for its channel on that socket and is delivered the close
    event, with the code and the reason of the socket that closed. *)
Theorem close_of_one_connection_closes_the_others
    (w : World) (k k2 m sid : nat) (so0 so2 : Socket) (x : Muxer) (s : Stream) (c : string)
    (code : option Z) (reason : option string) :
  sockets w !! k = Some so0 ->
  so_owner so0 = Some m ->
  muxers w !! m = Some x ->
  NoDup (JsObject.keys (channels x)) ->
  Forall (entry_ok w m) (channels x) ->
  In (c, VStream sid) (channels x) ->
  streams w !! sid = Some s ->
  s_close s = CloseFull m false ->
  s_socket s = Some k2 ->
  k2 <> k ->
  sockets w !! k2 = Some so2 ->
  readyState so2 = OPEN ->
  result (socket_close k code reason) w = Ok tt /\
  exists delta,
    trace (exec (socket_close k code reason) w) = trace w ++ delta /\
    In (SocketSend k2 (CloseMessage c code reason)) delta /\
    In (Emit sid (EvClose code reason)) delta.
Proof.
  intros Hso0 Hown Hm Hnd Hok Hin Hs Hc Hk2 Hne Hso2 Hopen.
  destruct (socket_close_effects w k m so0 x code reason Hso0 Hown Hm Hnd Hok)
    as (w' & Hrun & _ & Htr).
  unfold result, exec. rewrite Hrun. simpl.
  split; [reflexivity|]. eexists. split; [exact Htr|].
  assert (Heff : entry_close_effects (streams w)
                   (<[k := mkSocket CLOSED (so_url so0) (so_owner so0)]> (sockets w))
                   code reason (c, VStream sid)
                 = [SocketSend k2 (CloseMessage c code reason); Emit sid (EvClose code reason)]).
  { unfold entry_close_effects. simpl. rewrite Hs, Hc, Hk2.
    rewrite list_lookup_insert_ne by congruence. rewrite Hso2.
    unfold close_effects. rewrite Hopen. reflexivity. }
  unfold onclose_effects.
  split; apply in_flat_map; exists (c, VStream sid); (split; [exact Hin|]);
    rewrite Heff; simpl; auto.
Qed.

Lemma close_of_one_connection_closes_the_others_witness :
  result (socket_close 0 (Some 1006%Z) None) two_connections_world = Ok tt /\
  exists delta,
    trace (exec (socket_close 0 (Some 1006%Z) None) two_connections_world)
    = trace two_connections_world ++ delta /\
    In (SocketSend 1 (CloseMessage "c2" (Some 1006%Z) None)) delta /\
    In (Emit 1 (EvClose (Some 1006%Z) None)) delta.
Proof.
  apply (close_of_one_connection_closes_the_others two_connections_world 0 1 0 1
           (mkSocket OPEN "ws://host/" (Some 0))
           (mkSocket OPEN "ws://host/" (Some 0))
           (mkMuxer [("c1", VStream 0); ("c2", VStream 1)] (Server echo_backends) Object_prototype)
           (mkStream (Some 1) (Some "c2") "ws://host/" (CloseFull 0 false))
           "c2" (Some 1006%Z) None); try (vm_compute; reflexivity).
  - simpl. repeat (apply NoDup_cons_2; [rewrite list_elem_of_In; simpl; intuition discriminate|]).
    apply NoDup_nil_2.
  - apply Forall_cons_2; [|apply Forall_cons_2; [|apply Forall_nil_2]].
    + exists 0, (mkStream (Some 0) (Some "c1") "ws://host/" (CloseFull 0 false)).
      split; [reflexivity|]. split; [vm_compute; reflexivity|]. left.
      split; [reflexivity|]. split; [reflexivity|].
      exists 0, (mkSocket OPEN "ws://host/" (Some 0)). split; [reflexivity|vm_compute; reflexivity].
    + exists 1, (mkStream (Some 1) (Some "c2") "ws://host/" (CloseFull 0 false)).
      split; [reflexivity|]. split; [vm_compute; reflexivity|]. left.
      split; [reflexivity|]. split; [reflexivity|].
      exists 1, (mkSocket OPEN "ws://host/" (Some 0)). split; [reflexivity|vm_compute; reflexivity].
  - simpl. right. left. reflexivity.
  - discriminate.
Defined.

(** ** The listener methods of the server-side stream *)

Module ListenersFacts.
Import Listeners.

Lemma existsb_fresh (s : nat) (t : string) (st : State) :
  wf st -> existsb (same_listener s t (length (wrappers st))) (listeners st) = false.
Proof.
  unfold wf. induction 1 as [|l r Hl Hr IH]; simpl; [reflexivity|].
  rewrite IH, orb_false_r. unfold same_listener.
  assert (Nat.eqb (length (wrappers st)) (l_wrapper l) = false) as ->
    by (apply Nat.eqb_neq; lia).
  apply andb_false_r.
Qed.

Lemma remove_first_none (f : Listener -> bool) (l : list Listener) :
  existsb f l = false -> remove_first f l = l.
Proof.
  induction l as [|x r IH]; simpl; [reflexivity|].
  destruct (f x); simpl; [discriminate|]. intros H. rewrite (IH H). reflexivity.
Qed.

Lemma remove_first_snoc (f : Listener -> bool) (l : list Listener) (x : Listener) :
  existsb f l = false -> f x = true -> remove_first f (l ++ [x]) = l.
Proof.
  induction l as [|y r IH]; simpl; intros Hl Hx.
  - rewrite Hx. reflexivity.
  - destruct (f y); simpl in *; [discriminate|]. rewrite (IH Hl Hx). reflexivity.
Qed.

Lemma same_listener_refl (s : nat) (t : string) (w : nat) (o : bool) :
  same_listener s t w (mkListener s t w o) = true.
Proof.
  unfold same_listener. simpl. rewrite !Nat.eqb_refl, String.eqb_refl. reflexivity.
Qed.

Lemma on_listeners (s : nat) (t : string) (cb : nat) (st : State) :
  wf st ->
  on s t cb st
  = mkState (<[cb := length (wrappers st)]> (wrapped st)) (wrappers st ++ [cb])
      (listeners st ++ [mkListener s t (length (wrappers st)) false]).
Proof.
  intros Hwf. unfold on, _wrap, addEventListener. simpl.
  rewrite (existsb_fresh s t st Hwf). reflexivity.
Qed.

Lemma wf_on (s : nat) (t : string) (cb : nat) (st : State) : wf st -> wf (on s t cb st).
Proof.
  intros Hwf. rewrite (on_listeners s t cb st Hwf). unfold wf in *. simpl.
  rewrite length_app. simpl. apply Forall_app. split.
  - eapply Forall_impl; [exact Hwf|]. simpl. intros l Hl. lia.
  - apply Forall_cons_2; [simpl; lia|apply Forall_nil_2].
Qed.

(** X16.  [off] undoes the last [on] of a callback and no other one.
    After [on(type, callback)], [off(type, callback)] leaves the listeners
    of all streams as they were before.  After two [on(type, callback)]
    with the same callback, [off] removes only the listener of the second
    one: the listener of the first one stays, and another [off] changes
    nothing, so that listener cannot be removed any more. *)
Theorem off_removes_only_the_last_on (s : nat) (t : string) (cb : nat) (st : State) :
  wf st ->
  listeners (off s t cb (on s t cb st)) = listeners st /\
  listeners (off s t cb (on s t cb (on s t cb st)))
  = listeners st ++ [mkListener s t (length (wrappers st)) false] /\
  off s t cb (off s t cb (on s t cb (on s t cb st)))
  = off s t cb (on s t cb (on s t cb st)).
Proof.
  intros Hwf. pose proof (wf_on s t cb st Hwf) as Hwf1.
  assert (H1 : off s t cb (on s t cb st)
               = mkState (<[cb := length (wrappers st)]> (wrapped st)) (wrappers st ++ [cb])
                   (listeners st)).
  { rewrite (on_listeners s t cb st Hwf). unfold off, removeEventListener. simpl.
    rewrite lookup_insert_eq. simpl.
    rewrite remove_first_snoc;
      [reflexivity|apply existsb_fresh; exact Hwf|apply same_listener_refl]. }
  assert (H2 : off s t cb (on s t cb (on s t cb st))
               = mkState (wrapped (on s t cb (on s t cb st)))
                   (wrappers (on s t cb (on s t cb st)))
                   (listeners (on s t cb st))).
  { rewrite (on_listeners s t cb (on s t cb st) Hwf1). unfold off, removeEventListener. simpl.
    rewrite lookup_insert_eq. simpl.
    rewrite remove_first_snoc;
      [reflexivity|apply existsb_fresh; exact Hwf1|apply same_listener_refl]. }
  split; [rewrite H1; reflexivity|]. split.
  - rewrite H2. simpl. rewrite (on_listeners s t cb st Hwf). reflexivity.
  - rewrite H2. unfold off at 1. simpl.
    rewrite (on_listeners s t cb (on s t cb st) Hwf1). simpl.
    rewrite lookup_insert_eq. unfold removeEventListener. simpl.
    rewrite remove_first_none; [reflexivity|apply existsb_fresh; exact Hwf1].
Qed.

Lemma off_removes_only_the_last_on_witness :
  listeners (off 0 "message" 7 (on 0 "message" 7 (mkState ∅ [] []))) = [] /\
  listeners (off 0 "message" 7 (on 0 "message" 7 (on 0 "message" 7 (mkState ∅ [] []))))
  = [] ++ [mkListener 0 "message" 0 false] /\
  off 0 "message" 7 (off 0 "message" 7 (on 0 "message" 7 (on 0 "message" 7 (mkState ∅ [] []))))
  = off 0 "message" 7 (on 0 "message" 7 (on 0 "message" 7 (mkState ∅ [] []))).
Proof.
  apply (off_removes_only_the_last_on 0 "message" 7 (mkState ∅ [] [])).
  apply Forall_nil_2.
Defined.


Lemma once_listeners (s : nat) (t : string) (cb : nat) (st : State) :
  wf st ->
  once s t cb st
  = mkState (wrapped st) (wrappers st ++ [cb])
      (listeners st ++ [mkListener s t (length (wrappers st)) true]).
Proof.
  intros Hwf. unfold once, _wrap, addEventListener. simpl.
  rewrite (existsb_fresh s t st Hwf). reflexivity.
Qed.

Lemma calls_more_wrappers (s' : nat) (ev : Event) (wrs : list nat) (cb : nat)
    (ls : list Listener) :
  Forall (fun l => l_wrapper l < length wrs) ls ->
  flat_map (fun l => if matching s' ev l
                     then match (wrs ++ [cb]) !! l_wrapper l with
                          | Some c => [(c, wrap_arg ev)]
                          | None => []
                          end
                     else []) ls
  = flat_map (fun l => if matching s' ev l
                       then match wrs !! l_wrapper l with
                            | Some c => [(c, wrap_arg ev)]
                            | None => []
                            end
                       else []) ls.
Proof.
  induction 1 as [|l r Hl Hr IH]; simpl; [reflexivity|].
  rewrite IH. rewrite lookup_app_l by exact Hl. reflexivity.
Qed.

(** Dispatching after one more closure and one more listener. *)
Lemma dispatchEvent_snoc (s s' : nat) (t : string) (cb : nat) (o : bool) (ev : Event)
    (wr : gmap nat nat) (st : State) :
  wf st ->
  dispatchEvent s' ev
    (mkState wr (wrappers st ++ [cb])
       (listeners st ++ [mkListener s t (length (wrappers st)) o]))
  = (fst (dispatchEvent s' ev st)
     ++ (if matching s' ev (mkListener s t (length (wrappers st)) o)
         then [(cb, wrap_arg ev)] else []),
     mkState wr (wrappers st ++ [cb])
       (listeners (snd (dispatchEvent s' ev st))
        ++ (if matching s' ev (mkListener s t (length (wrappers st)) o) && o
            then [] else [mkListener s t (length (wrappers st)) o]))).
Proof.
  intros Hwf. unfold dispatchEvent. simpl. f_equal.
  - rewrite flat_map_app. simpl. rewrite app_nil_r. f_equal.
    + apply calls_more_wrappers. exact Hwf.
    + rewrite lookup_snoc. reflexivity.
  - f_equal. rewrite List.filter_app. simpl.
    destruct (matching s' ev _ && o); reflexivity.
Qed.

(** X17.  A listener added with [once] is called on the first event of
    its type on its stream, after the listeners registered before it, and
    is gone afterwards; [off] does not remove it, since [once] does not set
    the [wrapped] property of the callback. *)
Theorem once_is_called_once (s : nat) (cb : nat) (ev : Event) (st : State) :
  wf st ->
  wrapped st !! cb = None ->
  off s (event_type ev) cb (once s (event_type ev) cb st) = once s (event_type ev) cb st /\
  fst (dispatchEvent s ev (once s (event_type ev) cb st))
  = fst (dispatchEvent s ev st) ++ [(cb, wrap_arg ev)] /\
  listeners (snd (dispatchEvent s ev (once s (event_type ev) cb st)))
  = listeners (snd (dispatchEvent s ev st)).
Proof.
  intros Hwf Hnone. rewrite (once_listeners s _ cb st Hwf).
  split; [unfold off; simpl; rewrite Hnone; reflexivity|].
  rewrite (dispatchEvent_snoc s s (event_type ev) cb true ev (wrapped st) st Hwf).
  unfold matching. simpl. rewrite Nat.eqb_refl, String.eqb_refl. simpl.
  rewrite app_nil_r. split; reflexivity.
Qed.

Lemma once_is_called_once_witness :
  off 0 (event_type (EvMessage "hi")) 7 (once 0 (event_type (EvMessage "hi")) 7 (mkState ∅ [] []))
  = once 0 (event_type (EvMessage "hi")) 7 (mkState ∅ [] []) /\
  fst (dispatchEvent 0 (EvMessage "hi")
         (once 0 (event_type (EvMessage "hi")) 7 (mkState ∅ [] [])))
  = fst (dispatchEvent 0 (EvMessage "hi") (mkState ∅ [] [])) ++ [(7, wrap_arg (EvMessage "hi"))] /\
  listeners (snd (dispatchEvent 0 (EvMessage "hi")
                    (once 0 (event_type (EvMessage "hi")) 7 (mkState ∅ [] []))))
  = listeners (snd (dispatchEvent 0 (EvMessage "hi") (mkState ∅ [] []))).
Proof.
  apply (once_is_called_once 0 7 (EvMessage "hi") (mkState ∅ [] [])).
  - apply Forall_nil_2.
  - reflexivity.
Defined.

(** X18.  What a callback registered with [on] is called with: the
    payload for a message event; [undefined] for an open event and for a
    close event, whose code and reason are not passed on; an object whose
    code and message are both [undefined] for an error event.  The callback
    is called after those registered before it, and stays registered. *)
Theorem on_callback_arguments (s : nat) (cb : nat) (st : State)
    (data : string) (code : option Z) (reason : option string) :
  wf st ->
  fst (dispatchEvent s (EvMessage data) (on s "message" cb st))
  = fst (dispatchEvent s (EvMessage data) st) ++ [(cb, ArgData data)] /\
  fst (dispatchEvent s EvOpen (on s "open" cb st))
  = fst (dispatchEvent s EvOpen st) ++ [(cb, ArgUndefined)] /\
  fst (dispatchEvent s (EvClose code reason) (on s "close" cb st))
  = fst (dispatchEvent s (EvClose code reason) st) ++ [(cb, ArgUndefined)] /\
  fst (dispatchEvent s EvError (on s "error" cb st))
  = fst (dispatchEvent s EvError st) ++ [(cb, ArgError None None)] /\
  listeners (snd (dispatchEvent s (EvClose code reason) (on s "close" cb st)))
  = listeners (snd (dispatchEvent s (EvClose code reason) st))
    ++ [mkListener s "close" (length (wrappers st)) false].
Proof.
  intros Hwf.
  repeat split; rewrite (on_listeners s _ cb st Hwf);
    rewrite (dispatchEvent_snoc s s _ cb false _ _ st Hwf);
    unfold matching; simpl; rewrite Nat.eqb_refl; reflexivity.
Qed.

Lemma on_callback_arguments_witness :
  fst (dispatchEvent 0 (EvMessage "hi") (on 0 "message" 7 (mkState ∅ [] [])))
  = fst (dispatchEvent 0 (EvMessage "hi") (mkState ∅ [] [])) ++ [(7, ArgData "hi")].
Proof.
  apply (on_callback_arguments 0 7 (mkState ∅ [] []) "hi" None None).
  apply Forall_nil_2.
Defined.

End ListenersFacts.

(** ** More facts about JavaScript objects: assignment keeps the keys apart *)

Module JsObjectSetFacts.
Import JsObject.

Section Facts.
Context {V : Type}.
Implicit Types (o : JsObject.t V) (k : string) (v : V).

Lemma keys_replace k v o : keys (replace k v o) = keys o.
Proof.
  induction o as [|[k0 v0] r IH]; simpl; [reflexivity|].
  destruct (String.eqb k k0); simpl; [reflexivity|]. rewrite IH. reflexivity.
Qed.

Lemma In_replace k v k' v' o :
  NoDup (keys o) ->
  In (k', v') (replace k v o) -> (k' = k /\ v' = v) \/ (k' <> k /\ In (k', v') o).
Proof.
  induction o as [|[k0 v0] r IH]; simpl; [tauto|].
  intros Hnd. apply NoDup_cons in Hnd as [Hnotin Hnd].
  rewrite list_elem_of_In in Hnotin.
  destruct (String.eqb k k0) eqn:E; simpl.
  - apply String.eqb_eq in E. subst k0. intros [[= <- <-]|Hin]; [left; auto|].
    right. split; [|auto]. intros ->. apply Hnotin. apply (in_map fst) in Hin. exact Hin.
  - apply String.eqb_neq in E. intros [[= <- <-]|Hin].
    + right. split; [congruence|auto].
    + destruct (IH Hnd Hin) as [?|[? ?]]; [left; assumption|right; auto].
Qed.

Lemma insert_index_perm n k v o : insert_index n k v o ≡ₚ (k, v) :: o.
Proof.
  induction o as [|[k0 v0] r IH]; simpl; [reflexivity|].
  destruct (array_index k0) as [n'|]; [destruct (n <? n')%N|]; try reflexivity.
  rewrite IH. apply perm_swap.
Qed.

Lemma set_cases k v o :
  set k v o = replace k v o /\ has k o = true \/
  set k v o ≡ₚ (k, v) :: o /\ get k o = None.
Proof.
  unfold set, has. destruct (get k o) eqn:Hk; [left; auto|right].
  split; [|reflexivity].
  destruct (array_index k); [apply insert_index_perm|].
  symmetry. apply Permutation_cons_append.
Qed.

Lemma NoDup_keys_set k v o : NoDup (keys o) -> NoDup (keys (set k v o)).
Proof.
  intros Hnd. destruct (set_cases k v o) as [[-> _]|[Hperm Hk]].
  - rewrite keys_replace. exact Hnd.
  - unfold keys. rewrite Hperm. simpl. apply NoDup_cons. split; [|exact Hnd].
    rewrite list_elem_of_In. apply JsObjectFacts.get_None_keys. exact Hk.
Qed.

Lemma In_set k v k' v' o :
  NoDup (keys o) ->
  In (k', v') (set k v o) -> (k' = k /\ v' = v) \/ (k' <> k /\ In (k', v') o).
Proof.
  intros Hnd Hin. destruct (set_cases k v o) as [[E _]|[Hperm Hk]].
  - rewrite E in Hin. apply In_replace; assumption.
  - rewrite <- list_elem_of_In in Hin. rewrite Hperm in Hin.
    apply elem_of_cons in Hin as [[= -> ->]|Hin]; [left; auto|].
    right. rewrite list_elem_of_In in Hin. split; [|exact Hin].
    intros ->. apply JsObjectFacts.get_None_keys in Hk. apply Hk.
    apply (in_map fst) in Hin. exact Hin.
Qed.

End Facts.
End JsObjectSetFacts.

(** ** The registry of a server is always consistent *)

Lemma keeps_ret (P : World -> Prop) {A} (a : A) : keeps P (ret a).
Proof. intros w H. exact H. Qed.

Lemma keeps_throw (P : World -> Prop) {A} (e : Exn) : keeps P (@throw A e).
Proof. intros w H. exact H. Qed.

Lemma keeps_bind (P : World -> Prop) {A B} (c : M A) (k : A -> M B) :
  keeps P c -> (forall a, keeps P (k a)) -> keeps P (bind c k).
Proof.
  intros Hc Hk w H. unfold bind. specialize (Hc w H).
  destruct (c w) as [[a|e] w1]; simpl in *; [apply Hk; exact Hc|exact Hc].
Qed.

Lemma keeps_forEach (P : World -> Prop) {A} (f : A -> M unit) (l : list A) :
  (forall a, keeps P (f a)) -> keeps P (forEach f l).
Proof.
  intros Hf. induction l as [|a r IH]; simpl.
  - apply keeps_ret.
  - apply keeps_bind; [apply Hf|intros _; exact IH].
Qed.

Lemma keeps_try_catch (P : World -> Prop) (c h : M unit) :
  keeps P c -> keeps P h -> keeps P (try_catch c h).
Proof.
  intros Hc Hh w H. unfold try_catch. specialize (Hc w H).
  destruct (c w) as [[a|e] w1]; simpl in *; [exact Hc|apply Hh; exact Hc].
Qed.

Lemma keeps_deref (P : World -> Prop) {A} (store : World -> list A) (r : nat) :
  keeps P (deref store r).
Proof. intros w H. unfold deref. destruct (store w !! r); exact H. Qed.

Lemma keeps_owner (P : World -> Prop) (k : nat) : keeps P (owner k).
Proof. intros w H. unfold owner. destruct (sockets w !! k); exact H. Qed.

(** A change that keeps the streams and the multiplexers, and every
    socket in place. *)
Lemma ServerWF_frame (w w' : World) :
  streams w' = streams w ->
  muxers w' = muxers w ->
  (forall k so, sockets w !! k = Some so -> exists so', sockets w' !! k = Some so') ->
  ServerWF w -> ServerWF w'.
Proof.
  intros Hst Hmx Hso [Hs Hm]. split.
  - intros sid s H. rewrite Hst in H. destruct (Hs sid s H) as (k & so & Hk & Hk').
    destruct (Hso k so Hk') as [so' Hso']. eauto.
  - intros m x H. rewrite Hmx in H. destruct (Hm m x H) as (Hrole & Hnd & Hall & Hpr).
    split; [exact Hrole|]. split; [exact Hnd|]. split; [|exact Hpr].
    eapply Forall_impl; [exact Hall|]. intros e (sid & s & ? & ? & ? & ?).
    exists sid, s. rewrite Hst. auto.
Qed.

Lemma keeps_effect (e : Effect) : keeps ServerWF (effect e).
Proof. intros w H. apply (ServerWF_frame w); eauto. Qed.

Lemma keeps_randomId : keeps ServerWF randomId.
Proof. intros w H. apply (ServerWF_frame w); eauto. Qed.

Lemma keeps_update_socket (k : nat) (f : Socket -> Socket) : keeps ServerWF (update_socket k f).
Proof.
  intros w H. apply (ServerWF_frame w); [reflexivity|reflexivity| |exact H].
  intros k' so' Hso'. unfold update_socket, modify. unfold_world.
  destruct (sockets w !! k) as [so|] eqn:Hso; [|eauto].
  destruct (decide (k = k')) as [<-|Hne].
  - rewrite list_lookup_insert_eq by (eapply lookup_lt_Some; eauto). eauto.
  - rewrite list_lookup_insert_ne by exact Hne. eauto.
Qed.

Lemma keeps_add_socket (s : Socket) : keeps ServerWF (modify (set_sockets (fun l => l ++ [s]))).
Proof.
  intros w H. apply (ServerWF_frame w); [reflexivity|reflexivity| |exact H].
  intros k so Hso. exists so. simpl.
  rewrite lookup_app_l by (eapply lookup_lt_Some; eauto). exact Hso.
Qed.

Lemma keeps_add_server (backends : gmap string Backend) :
  keeps ServerWF (modify (set_muxers (fun l => l ++ [mkMuxer [] (Server backends) Object_prototype]))).
Proof.
  intros w [Hs Hm]. split; [exact Hs|].
  intros m x H. simpl in H. apply lookup_app_Some in H as [H|[_ H]].
  - destruct (Hm m x H) as (Hrole & Hnd & Hall & Hpr). auto.
  - apply list_lookup_singleton_Some in H as [_ <-]. simpl.
    split; [eauto|]. split; [apply NoDup_nil_2|]. split; [apply Forall_nil_2|reflexivity].
Qed.

(** Deleting a key of a registry. *)
Lemma keeps_delete_key (m : nat) (key : string) :
  keeps ServerWF (update_channels m (JsObject.delete key)).
Proof.
  intros w [Hs Hm]. split; [exact Hs|].
  unfold update_channels, update_muxer, modify. unfold_world.
  destruct (muxers w !! m) as [x|] eqn:Hx; [|exact Hm].
  intros m' x' H. destruct (decide (m = m')) as [<-|Hne].
  - rewrite list_lookup_insert_eq in H by (eapply lookup_lt_Some; eauto).
    injection H as <-. simpl. destruct (Hm m x Hx) as (Hrole & Hnd & Hall & Hpr).
    split; [exact Hrole|]. split; [apply JsObjectFacts.NoDup_keys_delete; exact Hnd|].
    split; [|exact Hpr].
    rewrite Forall_forall in Hall. apply Forall_forall. intros [k v] Hin.
    rewrite list_elem_of_In in Hin. apply JsObjectFacts.In_delete in Hin as [_ Hin].
    apply Hall. rewrite list_elem_of_In. exact Hin.
  - rewrite list_lookup_insert_ne in H by exact Hne. apply Hm. exact H.
Qed.

Lemma close_full_any_channel (w : World) (sid m k : nat) (s : Stream) (so : Socket)
    (code : option Z) (reason : option string) :
  streams w !! sid = Some s ->
  s_close s = CloseFull m false ->
  s_socket s = Some k ->
  sockets w !! k = Some so ->
  close sid code reason w
  = (Ok tt, after_close sid s m k so (prop_key (s_channel s)) code reason w).
Proof.
  intros Hs Hc Hk Hso.
  unfold close. unfold_monad. rewrite Hs, Hc. simpl.
  rewrite Hk. unfold_world. rewrite Hs, Hso. simpl.
  unfold after_close, close_effects. rewrite Hk.
  destruct (is_OPEN (readyState so)); unfold_world;
    rewrite <- ?app_assoc; reflexivity.
Qed.

Lemma ServerWF_after_close (w : World) (sid m k : nat) (s : Stream) (so : Socket)
    (code : option Z) (reason : option string) :
  streams w !! sid = Some s ->
  s_close s = CloseFull m false ->
  ServerWF w ->
  ServerWF (after_close sid s m k so (prop_key (s_channel s)) code reason w).
Proof.
  intros Hs Hc [Hsock Hmux].
  assert (Hlt : sid < length (streams w)) by (eapply lookup_lt_Some; eauto).
  assert (Hentry : forall m' key v,
             server_entry_ok w m' (key, v) ->
             m' <> m \/ key <> prop_key (s_channel s) ->
             server_entry_ok (after_close sid s m k so (prop_key (s_channel s)) code reason w)
               m' (key, v)).
  { intros m' key v (sid' & s' & Hv & Hs' & Hc' & Hch') Hdiff.
    exists sid', s'. split; [exact Hv|]. split; [|auto]. simpl.
    destruct (decide (sid = sid')) as [<-|Hne]; [|rewrite list_lookup_insert_ne; auto].
    exfalso. rewrite Hs in Hs'. injection Hs' as <-. simpl in Hch'.
    destruct Hdiff as [Hm|Hkey]; [congruence|]. apply Hkey. rewrite Hch'. reflexivity. }
  split.
  - intros sid' s' H. simpl in H.
    destruct (decide (sid = sid')) as [<-|Hne].
    + rewrite list_lookup_insert_eq in H by exact Hlt. injection H as <-. simpl.
      apply (Hsock sid s Hs).
    + rewrite list_lookup_insert_ne in H by exact Hne. apply (Hsock sid' s' H).
  - intros m' x' H. simpl in H.
    destruct (muxers w !! m) as [x|] eqn:Hx.
    + destruct (decide (m = m')) as [<-|Hne].
      * rewrite list_lookup_insert_eq in H by (eapply lookup_lt_Some; eauto).
        injection H as <-. simpl. destruct (Hmux m x Hx) as (Hrole & Hnd & Hall & Hpr).
        split; [exact Hrole|]. split; [apply JsObjectFacts.NoDup_keys_delete; exact Hnd|].
        split; [|exact Hpr].
        rewrite Forall_forall in Hall. apply Forall_forall. intros [key v] Hin.
        rewrite list_elem_of_In in Hin. apply JsObjectFacts.In_delete in Hin as [Hkey Hin].
        apply Hentry; [|right; exact Hkey].
        apply Hall. rewrite list_elem_of_In. exact Hin.
      * rewrite list_lookup_insert_ne in H by exact Hne.
        destruct (Hmux m' x' H) as (Hrole & Hnd & Hall & Hpr).
        split; [exact Hrole|]. split; [exact Hnd|]. split; [|exact Hpr].
        rewrite Forall_forall in Hall. apply Forall_forall. intros [key v] Hin.
        apply Hentry; [apply Hall; exact Hin|left; congruence].
    + destruct (Hmux m' x' H) as (Hrole & Hnd & Hall & Hpr).
      split; [exact Hrole|]. split; [exact Hnd|]. split; [|exact Hpr].
      rewrite Forall_forall in Hall. apply Forall_forall. intros [key v] Hin.
      apply Hentry; [apply Hall; exact Hin|left; congruence].
Qed.

Lemma keeps_close sid code reason : keeps ServerWF (close sid code reason).
Proof.
  intros w HWF. pose proof HWF as [Hsock Hmux].
  destruct (streams w !! sid) as [s|] eqn:Hs.
  - destruct (Hsock sid s Hs) as (k & so & Hk & Hso).
    destruct (s_close s) as [|m ref|m [|]] eqn:Hc.
    + unfold close. unfold_monad. rewrite Hs, Hc. exact HWF.
    + rewrite (close_temp w sid m s ref code reason Hs Hc).
      apply (keeps_delete_key m ref w HWF).
    + rewrite (close_full_closed w sid m s code reason Hs Hc). exact HWF.
    + rewrite (close_full_any_channel w sid m k s so code reason Hs Hc Hk Hso).
      apply ServerWF_after_close; assumption.
  - unfold close. unfold_monad. rewrite Hs. exact HWF.
Qed.

Lemma server_entry_ok_more_streams (w w' : World) (m : nat) (e : string * Value)
    (new : list Stream) :
  streams w' = streams w ++ new ->
  server_entry_ok w m e -> server_entry_ok w' m e.
Proof.
  intros Hst (sid & s & Hv & Hs & Hc & Hch). exists sid, s.
  rewrite Hst, lookup_app_l by (eapply lookup_lt_Some; eauto). auto.
Qed.

Lemma keeps_handleConnectMessage m msg socket :
  keeps ServerWF (handleConnectMessage m msg socket).
Proof.
  intros w HWF. pose proof HWF as [Hsock Hmux].
  destruct msg as [ref url|c r|c cd rs|c d];
    try (apply (keeps_effect _ w HWF)).
  unfold handleConnectMessage.
  destruct (muxers w !! m) as [x|] eqn:Hx.
  2:{ unfold handleConnectMessage_with, the_muxer, deref, bind. rewrite Hx. exact HWF. }
  destruct (Hmux m x Hx) as ([backends Hrole] & Hnd & Hall & Hpr).
  assert (Hlt : m < length (muxers w)) by (eapply lookup_lt_Some; eauto).
  destruct (getBackend backends url) as [[id b]|] eqn:Hb.
  2:{ unfold handleConnectMessage_with, the_muxer, deref, bind. rewrite Hx, Hrole, Hb.
      apply (keeps_effect _ w HWF). }
  destruct (sockets w !! socket) as [so|] eqn:Hso.
  2:{ unfold handleConnectMessage_with, the_muxer, deref. unfold bind at 1.
      rewrite Hx, Hrole, Hb.
      unfold randomId, new_ServerMultiplexSocket. unfold_monad. unfold_world.
      rewrite Hso. simpl. apply (ServerWF_frame w); eauto. }
  (* the world after the registration, whatever the backend is *)
  assert (Hreg : ServerWF
                   (mkWorld (sockets w)
                      (streams w ++ [mkStream (Some socket) (Some (random w (drawn w)))
                                       (so_url so) (CloseFull m false)])
                      (<[m := mkMuxer (JsObject.set (random w (drawn w))
                                         (VStream (length (streams w))) (channels x))
                                (role x) (chan_proto x)]> (muxers w))
                      (registry w) (rendered w) (S (drawn w))
                      (trace w ++ [SocketSend socket (OpenMessage (random w (drawn w)) ref)]))).
  { split.
    - intros sid s H. simpl in H. simpl.
      apply lookup_app_Some in H as [H|[_ H]]; [apply (Hsock sid s H)|].
      apply list_lookup_singleton_Some in H as [_ <-]. simpl. eauto.
    - intros m' x' H. simpl in H.
      destruct (decide (m = m')) as [<-|Hne].
      + rewrite list_lookup_insert_eq in H by exact Hlt.
        injection H as <-. simpl.
        split; [eauto|]. split; [apply JsObjectSetFacts.NoDup_keys_set; exact Hnd|].
        split; [|exact Hpr].
        rewrite Forall_forall in Hall. apply Forall_forall. intros [key v] Hin.
        rewrite list_elem_of_In in Hin.
        destruct (JsObjectSetFacts.In_set _ _ _ _ _ Hnd Hin) as [[-> ->]|[Hkey Hin']].
        * eexists (length (streams w)), _. simpl.
          split; [reflexivity|]. split; [apply lookup_snoc|]. split; reflexivity.
        * eapply server_entry_ok_more_streams; [reflexivity|].
          apply Hall. rewrite list_elem_of_In. exact Hin'.
      + rewrite list_lookup_insert_ne in H by exact Hne.
        destruct (Hmux m' x' H) as (Hrole' & Hnd' & Hall' & Hpr').
        split; [exact Hrole'|]. split; [exact Hnd'|]. split; [|exact Hpr'].
        eapply Forall_impl; [exact Hall'|]. intros e He.
        eapply server_entry_ok_more_streams; [reflexivity|exact He]. }
  destruct b as [b|name].
  - rewrite (handleConnectMessage_with_resolved _ w m socket x so backends ref url id b
               Hx Hrole Hso Hb).
    unfold handover. unfold_monad. unfold effect, modify. unfold_world.
    eapply ServerWF_frame; [| | |exact Hreg]; simpl; eauto.
  - unfold handleConnectMessage_with, the_muxer, deref. unfold bind at 1.
    rewrite Hx, Hrole, Hb.
    unfold randomId, new_ServerMultiplexSocket, addChannel, call_inherited.
    unfold_monad. unfold_world. rewrite Hso. simpl.
    repeat first
      [ rewrite Hx | rewrite lookup_snoc | rewrite insert_snoc
      | rewrite channels_set_random
      | rewrite list_lookup_insert_eq by (rewrite ?length_insert; exact Hlt)
      | progress simpl ].
    destruct (String.eqb name "constructor" || String.eqb name "toString"); simpl;
      unfold effect, modify; simpl;
      (eapply ServerWF_frame; [| | |exact Hreg]; simpl; eauto).
Qed.

Ltac keeps_step :=
  first
    [ apply keeps_close
    | apply keeps_handleConnectMessage
    | apply keeps_bind; [|intros ?]
    | apply keeps_ret
    | apply keeps_throw
    | apply keeps_forEach; intros ?
    | apply keeps_try_catch
    | apply keeps_deref
    | apply keeps_owner
    | apply keeps_effect
    | apply keeps_update_socket
    | apply keeps_randomId
    | apply keeps_add_socket
    | apply keeps_add_server
    | assumption
    | match goal with
      | |- keeps _ (match ?x with _ => _ end) => destruct x
      | |- keeps _ (if ?b then _ else _) => destruct b
      end ].

Ltac keeps_tac :=
  unfold emit_value, emit_transport_event, close_value;
  unfold console_error, emit, socket_send, the_stream, the_socket, the_muxer, get_world;
  repeat keeps_step.

Lemma keeps_get_world (P : World -> Prop) : keeps P (fun w => (Ok w, w)).
Proof. intros w H. exact H. Qed.

Lemma keeps_send sid data : keeps ServerWF (send sid data).
Proof. unfold send. keeps_tac. Qed.

Lemma keeps_handleMessage sid msg : keeps ServerWF (handleMessage sid msg).
Proof. unfold handleMessage. destruct msg; keeps_tac. Qed.

Lemma keeps_handleChannelMessage m msg : keeps ServerWF (handleChannelMessage m msg).
Proof. unfold handleChannelMessage. keeps_tac; apply keeps_handleMessage. Qed.

Lemma keeps_server_onmessage m socket data : keeps ServerWF (server_onmessage m socket data).
Proof.
  unfold server_onmessage. apply keeps_try_catch; [|keeps_tac].
  destruct data as [msg|]; [|keeps_tac].
  destruct (String.eqb (msg_type msg) "connect"); [apply keeps_handleConnectMessage|].
  destruct (truthy_opt (msg_channel msg)); [apply keeps_handleChannelMessage|keeps_tac].
Qed.

Lemma keeps_onclose m code reason : keeps ServerWF (onclose m code reason).
Proof. unfold onclose. keeps_tac. Qed.

Lemma keeps_onerror m : keeps ServerWF (onerror m).
Proof. unfold onerror. keeps_tac. Qed.

(** A message on a socket of a world of servers goes to the server's
    handler. *)
Lemma keeps_socket_message k data : keeps ServerWF (socket_message k data).
Proof.
  intros w HWF. pose proof HWF as [_ Hmux].
  unfold socket_message, owner, bind at 1.
  destruct (sockets w !! k) as [so|]; [|exact HWF].
  destruct (so_owner so) as [m|]; [|exact HWF].
  unfold the_muxer, deref, bind.
  destruct (muxers w !! m) as [x|] eqn:Hx; [|exact HWF].
  destruct (Hmux m x Hx) as ([b ->] & _). apply keeps_server_onmessage. exact HWF.
Qed.

Lemma keeps_run op : server_op op = true -> keeps ServerWF (run op).
Proof.
  destruct op; simpl; intros Hop; try discriminate.
  - unfold new_MultiplexerServer.
    apply keeps_bind; [|intros ?; apply keeps_ret].
    apply keeps_bind; [apply keeps_get_world|intros w0].
    apply keeps_bind; [apply keeps_add_server|intros ?; apply keeps_ret].
  - apply keeps_bind; [keeps_tac|intros x]. destruct (role x); [apply keeps_ret|].
    apply keeps_bind; [|intros ?; apply keeps_ret].
    unfold connection, wireDefaultEvents.
    apply keeps_bind; [apply keeps_get_world|intros w0].
    apply keeps_bind; [apply keeps_add_socket|intros ?].
    apply keeps_bind; [apply keeps_update_socket|intros ?; apply keeps_ret].
  - apply keeps_send.
  - apply keeps_close.
  - intros w HWF. pose proof (keeps_update_socket k
                    (fun s => mkSocket OPEN (so_url s) (so_owner s)) w HWF) as H1.
    unfold socket_open, set_readyState. unfold bind at 1.
    destruct (update_socket k _ w) as [[[]|e] w1] eqn:E; simpl in H1; [|exact H1].
    pose proof H1 as [_ Hmux].
    unfold owner, bind at 1.
    destruct (sockets w1 !! k) as [so|]; [|exact H1].
    destruct (so_owner so) as [m|]; [|exact H1].
    unfold the_muxer, deref, bind.
    destruct (muxers w1 !! m) as [x|] eqn:Hx; [|exact H1].
    destruct (Hmux m x Hx) as ([b ->] & _). exact H1.
  - apply keeps_socket_message.
  - unfold socket_close, set_readyState.
    apply keeps_bind; [apply keeps_update_socket|intros ?].
    apply keeps_bind; [apply keeps_owner|intros [m'|]];
      [apply keeps_onclose|apply keeps_ret].
  - unfold socket_error.
    apply keeps_bind; [apply keeps_owner|intros [m'|]];
      [apply keeps_onerror|apply keeps_ret].
Qed.

Lemma ServerWF_initial ids : ServerWF (initial ids).
Proof.
  split.
  - intros sid s H. simpl in H. discriminate.
  - intros m x H. simpl in H. discriminate.
Qed.

Lemma ServerWF_steps (ops : list Op) (w : World) :
  forallb server_op ops = true -> ServerWF w -> ServerWF (steps ops w).
Proof.
  revert w. induction ops as [|op r IH]; intros w Hops HWF; simpl; [exact HWF|].
  simpl in Hops. apply andb_true_iff in Hops as [Hop Hops].
  apply IH; [exact Hops|]. apply (keeps_run op Hop w HWF).
Qed.

(** X19.  In a process that only runs servers, whatever the applications,
    the backends and the peers do, the registry of a server has no property
    that holds [undefined], and every stream it holds is a stream that
    addChannel registered under that very id and that is not closed: a
    frame for a registered id can only reach an open stream with that
    channel id.  The prototype of the registry is Object.prototype all
    along. *)
Theorem server_registry_is_consistent
    (ids : nat -> string) (ops : list Op) (m : nat) (x : Muxer) :
  forallb server_op ops = true ->
  muxers (steps ops (initial ids)) !! m = Some x ->
  (forall key, JsObject.get key (channels x) <> Some VUndefined) /\
  (forall key sid,
      channels_get key x = VStream sid ->
      exists s, streams (steps ops (initial ids)) !! sid = Some s /\
                s_close s = CloseFull m false /\
                s_channel s = Some key) /\
  chan_proto x = Object_prototype.
Proof.
  intros Hops Hm.
  pose proof (ServerWF_steps ops (initial ids) Hops (ServerWF_initial ids)) as [_ Hmux].
  destruct (Hmux m x Hm) as (_ & _ & Hall & Hpr). rewrite Forall_forall in Hall.
  split; [|split; [|exact Hpr]].
  - intros key Hget. apply JsObjectFacts.get_In in Hget.
    rewrite <- list_elem_of_In in Hget.
    destruct (Hall _ Hget) as (sid & s & Hv & _). discriminate.
  - intros key sid Hget. unfold channels_get in Hget. rewrite Hpr in Hget.
    destruct (JsObject.get key (channels x)) as [v|] eqn:Hg.
    + subst v. apply JsObjectFacts.get_In in Hg.
      rewrite <- list_elem_of_In in Hg.
      destruct (Hall _ Hg) as (sid' & s & Hv & Hs & Hc & Hch).
      simpl in Hv, Hch. injection Hv as <-. eauto.
    + destruct (String.eqb key "__proto__"); [discriminate|].
      destruct (JsObject.inherited key); discriminate.
Qed.

Lemma server_registry_is_consistent_witness :
  (forall key, JsObject.get key [("c1", VStream 0); ("c2", VStream 1); ("c3", VStream 2)]
               <> Some VUndefined) /\
  (forall key sid,
      channels_get key (mkMuxer [("c1", VStream 0); ("c2", VStream 1); ("c3", VStream 2)]
                          (Server echo_backends) Object_prototype) = VStream sid ->
      exists s, streams three_world !! sid = Some s /\
                s_close s = CloseFull 0 false /\
                s_channel s = Some key).
Proof.
  pose proof (server_registry_is_consistent
           (fun n => nth n ["0.c1"; "0.c2"; "0.c3"] "0.c4")
           [OpNewMultiplexerServer echo_backends;
            OpConnection 0 "ws://host/";
            OpSocketMessage 0 (Some (ConnectMessage "r1" "ws://host/echo"));
            OpSocketMessage 0 (Some (ConnectMessage "r2" "ws://host/echo"));
            OpSocketMessage 0 (Some (ConnectMessage "r3" "ws://host/echo"))]
           0 (mkMuxer [("c1", VStream 0); ("c2", VStream 1); ("c3", VStream 2)]
                (Server echo_backends) Object_prototype)) as H.
  destruct H as (H1 & H2 & _); try (vm_compute; reflexivity).
  split; [exact H1|exact H2].
Defined.

(** X20.  In a process that only runs servers, the close handler that
    wireDefaultEvents puts on a socket never throws: when the socket
    closes, it returns normally, every stream that the registry of the
    server held is delivered a close event with the code and the reason of
    the socket, and the registry is empty afterwards.  The error handler
    returns normally only when the registry is empty: with a stream in the
    registry, re-dispatching the event of the socket throws at the first
    stream, and no stream is delivered an error event. *)
Theorem server_close_handler_never_throws
    (ids : nat -> string) (ops : list Op) (k m : nat) (so : Socket) (x : Muxer)
    (code : option Z) (reason : option string) :
  forallb server_op ops = true ->
  sockets (steps ops (initial ids)) !! k = Some so ->
  so_owner so = Some m ->
  muxers (steps ops (initial ids)) !! m = Some x ->
  result (socket_close k code reason) (steps ops (initial ids)) = Ok tt /\
  (exists x', muxers (exec (socket_close k code reason) (steps ops (initial ids))) !! m
              = Some x' /\ channels x' = []) /\
  (exists delta,
      trace (exec (socket_close k code reason) (steps ops (initial ids)))
      = trace (steps ops (initial ids)) ++ delta /\
      forall key sid,
        channels_get key x = VStream sid ->
        In (Emit sid (EvClose code reason)) delta) /\
  socket_error k (steps ops (initial ids))
  = (match channels x with [] => Ok tt | _ :: _ => Throw InvalidEvent end,
     steps ops (initial ids)).
Proof.
  intros Hops Hso Hown Hm.
  pose proof (ServerWF_steps ops (initial ids) Hops (ServerWF_initial ids)) as [Hsock Hmux].
  set (W := steps ops (initial ids)) in *.
  destruct (Hmux m x Hm) as (_ & Hnd & Hall & Hpr).
  assert (Hok : Forall (entry_ok W m) (channels x)).
  { eapply Forall_impl; [exact Hall|]. intros e (sid & s & Hv & Hs & Hc & Hch).
    destruct (Hsock sid s Hs) as (k' & so' & Hk' & Hso').
    exists sid, s. split; [exact Hv|]. split; [exact Hs|]. left.
    split; [exact Hc|]. split; [exact Hch|]. eauto. }
  destruct (socket_close_effects W k m so x code reason Hso Hown Hm Hnd Hok)
    as (w' & Hrun & Hempty & Htr).
  unfold result, exec. rewrite Hrun. simpl fst. simpl snd.
  split; [reflexivity|]. split; [exact Hempty|]. split.
  - eexists. split; [exact Htr|]. intros key sid Hget.
    unfold channels_get in Hget. rewrite Hpr in Hget.
    destruct (JsObject.get key (channels x)) as [v|] eqn:Hg.
    2:{ destruct (String.eqb key "__proto__"); [discriminate|].
        destruct (JsObject.inherited key); discriminate. }
    subst v. apply JsObjectFacts.get_In in Hg.
    rewrite Forall_forall in Hall.
    destruct (Hall (key, VStream sid)) as (sid' & s & Hv & Hs & Hc & Hch).
    { rewrite list_elem_of_In. exact Hg. }
    simpl in Hv, Hch. injection Hv as <-.
    destruct (Hsock sid s Hs) as (k' & so' & Hk' & Hso').
    unfold onclose_effects. apply in_flat_map. exists (key, VStream sid).
    split; [exact Hg|].
    unfold entry_close_effects. simpl. rewrite Hs, Hc, Hk'.
    assert (Hex : exists so'', (<[k := mkSocket CLOSED (so_url so) (so_owner so)]> (sockets W))
                               !! k' = Some so'').
    { destruct (decide (k = k')) as [<-|Hne].
      - rewrite list_lookup_insert_eq by (eapply lookup_lt_Some; eauto). eauto.
      - rewrite list_lookup_insert_ne by exact Hne. eauto. }
    destruct Hex as [so'' ->]. unfold close_effects.
    apply in_or_app. right. left. reflexivity.
  - unfold socket_error, owner, onerror, the_muxer, deref, bind.
    rewrite Hso, Hown, Hm.
    destruct (channels x) as [|[key v] r] eqn:Hch; [reflexivity|].
    apply Forall_cons in Hall as [(sid & s & Hv & _) _]. simpl in Hv. subst v.
    reflexivity.
Qed.

Lemma server_close_handler_never_throws_witness :
  result (socket_close 0 (Some 1006%Z) None) three_world = Ok tt /\
  socket_error 0 three_world = (Throw InvalidEvent, three_world).
Proof.
  pose proof (server_close_handler_never_throws
                (fun n => nth n ["0.c1"; "0.c2"; "0.c3"] "0.c4")
                [OpNewMultiplexerServer echo_backends;
                 OpConnection 0 "ws://host/";
                 OpSocketMessage 0 (Some (ConnectMessage "r1" "ws://host/echo"));
                 OpSocketMessage 0 (Some (ConnectMessage "r2" "ws://host/echo"));
                 OpSocketMessage 0 (Some (ConnectMessage "r3" "ws://host/echo"))]
                0 0 (mkSocket OPEN "ws://host/" (Some 0))
                (mkMuxer [("c1", VStream 0); ("c2", VStream 1); ("c3", VStream 2)]
                   (Server echo_backends) Object_prototype)
                (Some 1006%Z) None) as H.
  destruct H as (H1 & _ & _ & H4); try (vm_compute; reflexivity).
  split; [exact H1|exact H4].
Defined.

(** ** Frames that a role does not expect *)



(** X22.  An open frame that reaches a server is not an error for the
    server: when its channel id is registered, the frame is routed to the
    stream, whose handler has no case for it, and nothing happens at all,
    not even a log. *)
Theorem open_frame_on_server_is_ignored
    (w : World) (k m sid : nat) (so : Socket) (x : Muxer)
    (backends : gmap string Backend) (C R : string) :
  sockets w !! k = Some so ->
  so_owner so = Some m ->
  muxers w !! m = Some x ->
  role x = Server backends ->
  truthy C = true ->
  channels_get C x = VStream sid ->
  socket_message k (Some (OpenMessage C R)) w = (Ok tt, w).
Proof.
  intros Hso Hown Hm Hrole HC Hget.
  unfold socket_message, owner, bind. rewrite Hso, Hown.
  unfold the_muxer, deref. rewrite Hm, Hrole.
  unfold server_onmessage, try_catch. simpl. rewrite HC.
  rewrite (handleChannelMessage_hit w m sid x (OpenMessage C R) C Hm eq_refl HC Hget).
  reflexivity.
Qed.

Lemma open_frame_on_server_is_ignored_witness :
  socket_message 0 (Some (OpenMessage "c1" "r1")) open_world = (Ok tt, open_world).
Proof.
  apply (open_frame_on_server_is_ignored open_world 0 0 0
           (mkSocket OPEN "ws://host/" (Some 0))
           (mkMuxer [("c1", VStream 0)] (Server echo_backends) Object_prototype) echo_backends "c1" "r1");
    vm_compute; reflexivity.
Defined.

(** ** Closing and the frame that comes back *)



(** ** The handshake and the first payload, on both sides *)

(** X24.  Let a client stream wait under reference R, and let the server
    receive the connect frame with that reference for a backend of its
    table, while randomId returns a non-empty id c.  When the client then
    receives the open frame that the server sent, and the application
    sends a payload on the stream, and the server receives the data frame
    that the client sent, the effects are, in this order: the server sends
    the open frame (c, R), invokes the backend with its new stream and
    delivers the open event to it; the client delivers the open event to
    its stream; the client sends the data frame (c, payload); the server
    delivers the payload to the stream it handed to the backend. *)
Theorem handshake_then_payload
    (w : World) (kS kC mS mC sid : nat) (soS soC : Socket) (xS xC : Muxer) (s : Stream)
    (backends : gmap string Backend) (p : option (list MultiplexMessage))
    (u R url id data : string) (b : Backend) :
  sockets w !! kS = Some soS -> so_owner soS = Some mS ->
  muxers w !! mS = Some xS -> role xS = Server backends ->
  getBackend backends url = Some (id, OwnBackend b) ->
  sockets w !! kC = Some soC -> so_owner soC = Some mC ->
  muxers w !! mC = Some xC -> role xC = Client kC p u ->
  channels_get R xC = VStream sid ->
  streams w !! sid = Some s -> s_socket s = Some kC ->
  truthy (random w (drawn w)) = true ->
  result (let* _ := socket_message kS (Some (ConnectMessage R url)) in
          let* _ := socket_message kC (Some (OpenMessage (random w (drawn w)) R)) in
          let* _ := send sid data in
          socket_message kS (Some (DataMessage (random w (drawn w)) data))) w = Ok tt /\
  trace (exec (let* _ := socket_message kS (Some (ConnectMessage R url)) in
               let* _ := socket_message kC (Some (OpenMessage (random w (drawn w)) R)) in
               let* _ := send sid data in
               socket_message kS (Some (DataMessage (random w (drawn w)) data))) w)
  = trace w ++ [SocketSend kS (OpenMessage (random w (drawn w)) R);
                match b with
                | BackendFunction => CallBackend id b (length (streams w))
                | BackendEmitter => EmitConnection id b (length (streams w))
                end;
                Emit (length (streams w)) EvOpen;
                Emit sid EvOpen;
                SocketSend kC (DataMessage (random w (drawn w)) data);
                Emit (length (streams w)) (EvMessage data)].
Proof.
  intros HsoS HownS HmS HroleS Hb HsoC HownC HmC HroleC Hget Hs Hks Hc.
  set (c := random w (drawn w)) in *.
  assert (HltS : mS < length (muxers w)) by (eapply lookup_lt_Some; eauto).
  assert (HltC : mC < length (muxers w)) by (eapply lookup_lt_Some; eauto).
  assert (Hlts : sid < length (streams w)) by (eapply lookup_lt_Some; eauto).
  assert (Hne : mS <> mC).
  { intros ->. rewrite HmS in HmC. injection HmC as ->. congruence. }
  (* the server handles the connect frame *)
  assert (H1 : socket_message kS (Some (ConnectMessage R url)) w
               = (Ok tt,
                  mkWorld (sockets w)
                    (streams w ++ [mkStream (Some kS) (Some c) (so_url soS) (CloseFull mS false)])
                    (<[mS := mkMuxer (JsObject.set c (VStream (length (streams w))) (channels xS))
                               (role xS) (chan_proto xS)]> (muxers w))
                    (registry w) (rendered w) (S (drawn w))
                    (trace w ++ [SocketSend kS (OpenMessage c R);
                                 match b with
                                 | BackendFunction => CallBackend id b (length (streams w))
                                 | BackendEmitter => EmitConnection id b (length (streams w))
                                 end;
                                 Emit (length (streams w)) EvOpen]))).
  { unfold socket_message, owner, bind at 1. rewrite HsoS, HownS.
    unfold the_muxer, deref, bind at 1. rewrite HmS, HroleS.
    unfold server_onmessage, try_catch.
    change (String.eqb (msg_type (ConnectMessage R url)) "connect") with true. cbv iota.
    rewrite (handleConnectMessage_resolved w mS kS xS soS backends R url id b
               HmS HroleS HsoS Hb).
    rewrite HroleS. reflexivity. }
  match type of H1 with _ = (_, ?w1) => set (W1 := w1) in * end.
  (* the client handles the open frame *)
  assert (HmC1 : muxers W1 !! mC = Some xC).
  { subst W1. simpl. rewrite list_lookup_insert_ne by exact Hne. exact HmC. }
  assert (Hs1 : streams W1 !! sid = Some s).
  { subst W1. simpl. rewrite lookup_app_l by exact Hlts. exact Hs. }
  assert (H2 : socket_message kC (Some (OpenMessage c R)) W1
               = (Ok tt,
                  mkWorld (sockets W1)
                    (<[sid := mkStream (s_socket s) (Some c) (s_url s) (CloseFull mC false)]>
                       (streams W1))
                    (<[mC := mkMuxer (JsObject.set c (VStream sid)
                                        (JsObject.delete R
                                           (JsObject.set c (VStream sid) (channels xC))))
                               (role xC) (chan_proto xC)]> (muxers W1))
                    (registry W1) (rendered W1) (drawn W1)
                    (trace W1 ++ [Emit sid EvOpen]))).
  { rewrite (socket_message_open W1 kC mC kC soC xC p u c R HsoC HownC HmC1 HroleC).
    unfold try_catch.
    rewrite (handleOpenMessage_hit W1 mC sid xC s c R HmC1 Hget Hs1).
    unfold c. rewrite !channels_set_random. reflexivity. }
  match type of H2 with _ = (_, ?w2) => set (W2 := w2) in * end.
  (* the application sends *)
  assert (Hs2 : streams W2 !! sid
                = Some (mkStream (Some kC) (Some c) (s_url s) (CloseFull mC false))).
  { subst W2. simpl. rewrite Hks. apply list_lookup_insert_eq.
    subst W1. simpl. rewrite length_app. lia. }
  assert (H3 : send sid data W2
               = (Ok tt, set_trace (fun t => t ++ [SocketSend kC (DataMessage c data)]) W2)).
  { unfold send. unfold_monad. rewrite Hs2. simpl. rewrite Hc. reflexivity. }
  match type of H3 with _ = (_, ?w3) => set (W3 := w3) in * end.
  (* the server handles the data frame *)
  assert (HmS3 : muxers W3 !! mS
                 = Some (mkMuxer (JsObject.set c (VStream (length (streams w))) (channels xS))
                           (role xS) (chan_proto xS))).
  { subst W3 W2 W1. simpl. rewrite list_lookup_insert_ne by congruence.
    apply list_lookup_insert_eq. exact HltS. }
  assert (H4 : socket_message kS (Some (DataMessage c data)) W3
               = (Ok tt,
                  set_trace (fun t => t ++ [Emit (length (streams w)) (EvMessage data)]) W3)).
  { rewrite (socket_message_channel W3 kS mS soS _ (DataMessage c data) c
               HsoS HownS HmS3 eq_refl Hc) by discriminate.
    unfold try_catch.
    rewrite (handleChannelMessage_hit W3 mS (length (streams w)) _ (DataMessage c data) c
               HmS3 eq_refl Hc).
    - reflexivity.
    - apply channels_get_own. simpl. apply JsObjectFacts.get_set_eq. }
  unfold result, exec, bind. rewrite H1, H2, H3, H4. simpl.
  split; [reflexivity|].
  rewrite <- !app_assoc. reflexivity.
Qed.

Lemma handshake_then_payload_witness :
  result (let* _ := socket_message 0 (Some (ConnectMessage "r1" "ws://host/echo")) in
          let* _ := socket_message 1 (Some (OpenMessage (random both_roles_world
                                                          (drawn both_roles_world)) "r1")) in
          let* _ := send 0 "hi" in
          socket_message 0 (Some (DataMessage (random both_roles_world
                                                 (drawn both_roles_world)) "hi")))
    both_roles_world = Ok tt.
Proof.
  apply (handshake_then_payload both_roles_world 0 1 0 1 0
           (mkSocket OPEN "ws://host/" (Some 0))
           (mkSocket OPEN "ws://host" (Some 1))
           (mkMuxer [] (Server echo_backends) Object_prototype)
           (mkMuxer [("r1", VStream 0)] (Client 1 None "ws://host") Object_prototype)
           (mkStream (Some 1) None "ws://host/echo" (CloseTemp 1 "r1"))
           echo_backends None "ws://host" "r1" "ws://host/echo" "echo" "hi" BackendFunction);
    vm_compute; reflexivity.
Defined.
